(** * Telestration overlay: coordinate mapping, shape history, chroma-key
      segmentation and the pointer state machine of [src/index.tsx]

    The development is a shallow embedding of the drawing core of the
    component: every definition below is a transcription of one function
    (or one event handler) of [src/index.tsx], named after it.

    Numbers.  A JavaScript [number] is an IEEE 754 double.  The functions
    that compute with numbers are embedded twice:
    - in this first part with exact arithmetic on the rationals [Q], for
      the properties that the rounding does not touch (the structure of
      the history, the order of the draw calls, the phases of the pointer
      state machine, monotonicity).  Two places of the source leave the
      rationals and are modelled explicitly: [cw / ch] with [ch = 0] is
      [Infinity] or [NaN] ([JsNum] below), and [Math.sqrt] in [getDistance]
      yields a square root, kept symbolically as a [Surd];
    - in module [Double] with every operation rounded to the nearest
      double, for the properties in which a computed number is compared
      with a threshold (chroma-key classification, mask synchronisation,
      closing a chain, accepting a chain node, the size of a selection, the
      position of the background patch).
    Pixel dimensions ([canvas.width], [video.videoWidth], ...) are unsigned
    integers in the DOM and are modelled by [N]; [Date.now()] is a [Z]. *)

From Stdlib Require Import ZArith NArith QArith Qabs Qround Qminmax.
From Stdlib Require Import List Bool String Lia Lqa.
Import ListNotations.

Local Open Scope Q_scope.

(** ** Rational comparisons as booleans *)

Definition Qltb (x y : Q) : bool := negb (Qle_bool y x).
Definition Qleb (x y : Q) : bool := Qle_bool x y.
Definition Qgtb (x y : Q) : bool := Qltb y x.
Definition Qgeb (x y : Q) : bool := Qleb y x.

(** [NQ n] is the JavaScript number holding the unsigned integer [n]. *)
Definition NQ (n : N) : Q := inject_Z (Z.of_N n).

(** ** Results of a division that may leave the rationals *)

Inductive JsNum : Type :=
| Finite (q : Q)
| PosInfinity
| NotANumber.

(** [a / b] for two unsigned integers, as IEEE evaluates it. *)
Definition js_div (a b : N) : JsNum :=
  if (b =? 0)%N
  then if (a =? 0)%N then NotANumber else PosInfinity
  else Finite (NQ a / NQ b).

(** [a > q] for a finite [q]: [Infinity > q] holds, [NaN > q] does not. *)
Definition js_gt (a : JsNum) (q : Q) : bool :=
  match a with
  | Finite p => Qgtb p q
  | PosInfinity => true
  | NotANumber => false
  end.

(** ** Square roots of rationals, kept symbolically *)

(** [Sqrt q] stands for the real number [Math.sqrt(q)], [0 <= q]. *)
Record Surd : Type := Sqrt { radicand : Q }.

(** [Math.sqrt(q) < t]: false for [t <= 0], otherwise [q < t * t]. *)
Definition surd_ltb (s : Surd) (t : Q) : bool :=
  Qltb 0 t && Qltb (radicand s) (t * t).

(** [Math.sqrt(q) > t]: true for [t < 0], otherwise [t * t < q]. *)
Definition surd_gtb (s : Surd) (t : Q) : bool :=
  Qltb t 0 || Qltb (t * t) (radicand s).

(** ** Types of the source *)

Inductive Tool : Type :=
| pen | line | arrow | curved_arrow | circle | polygon
| connected_circle | masking | player_move | spotlight | lens.

(** [ToolType] of the source includes [null]. *)
Definition ToolType : Type := option Tool.

Definition Tool_eqb (a b : Tool) : bool :=
  match a, b with
  | pen, pen | line, line | arrow, arrow | curved_arrow, curved_arrow
  | circle, circle | polygon, polygon | connected_circle, connected_circle
  | masking, masking | player_move, player_move | spotlight, spotlight
  | lens, lens => true
  | _, _ => false
  end.

Record Point : Type := mkPoint {
  px : Q;
  py : Q;
  pr : option Surd;        (* r?: radius of a chain node *)
  ptimestamp : option Z    (* timestamp?: creation time *)
}.

(** [{ x, y }] without the optional fields. *)
Definition point (x y : Q) : Point := mkPoint x y None None.

Record Rect : Type := mkRect {
  rx : Q;
  ry : Q;
  rw : Q;
  rh : Q
}.

(** ** Helper functions of the source *)

(** [getDistance]: [Math.sqrt(Math.pow(p2.x - p1.x, 2) + Math.pow(p2.y - p1.y, 2))]. *)
Definition getDistance (p1 p2 : Point) : Surd :=
  Sqrt ((px p2 - px p1) ^ 2 + (py p2 - py p1) ^ 2).

(** ** Coordinate mapper *)

(** The canvas element: its bitmap size and the origin of its bounding
    client rectangle. *)
Record Canvas : Type := mkCanvas {
  canvas_width : N;
  canvas_height : N;
  rect_left : Q;
  rect_top : Q
}.

(** One RGBA pixel of an [ImageData]: four bytes, 0..255. *)
Record Pixel : Type := mkPixel {
  red : Z;
  green : Z;
  blue : Z;
  alpha : Z
}.

(** The video element: intrinsic size (0 until metadata is loaded),
    playback position, paused flag and the pixels of the frame it
    currently shows (what [drawImage(video, ...)] reads). *)
Record Video : Type := mkVideo {
  videoWidth : N;
  videoHeight : N;
  currentTime : Q;
  paused : bool;
  frame : list Pixel
}.

(** The object [{ x, y, w, h, scale }] returned by [getVideoLayout]. *)
Record Layout : Type := mkLayout {
  layout_x : Q;
  layout_y : Q;
  layout_w : Q;
  layout_h : Q;
  layout_scale : Q
}.

(** [!vw || !vh]: an unsigned integer is falsy exactly when it is 0. *)
Definition no_dimensions (video : Video) : bool :=
  (videoWidth video =? 0)%N || (videoHeight video =? 0)%N.

Definition getVideoLayout (canvas : Canvas) (video : Video) : Layout :=
  let vw := videoWidth video in
  let vh := videoHeight video in
  let cw := canvas_width canvas in
  let ch := canvas_height canvas in
  if no_dimensions video then mkLayout 0 0 (NQ cw) (NQ ch) 1
  else
    let videoRatio := NQ vw / NQ vh in
    let canvasRatio := js_div cw ch in
    if js_gt canvasRatio videoRatio then
      let drawH := NQ ch in
      let drawW := NQ ch * videoRatio in
      let drawX := (NQ cw - drawW) / 2 in
      let drawY := 0 in
      let scale := drawH / NQ vh in
      mkLayout drawX drawY drawW drawH scale
    else
      let drawW := NQ cw in
      let drawH := NQ cw / videoRatio in
      let drawY := (NQ ch - drawH) / 2 in
      let drawX := 0 in
      let scale := drawW / NQ vw in
      mkLayout drawX drawY drawW drawH scale.

(** [getVideoSpacePoint]: the refs may be unset ([None]); [clientX] and
    [clientY] are the coordinates of the mouse event.  The division by
    [layout.scale] is rational as long as the scale is not 0. *)
Definition getVideoSpacePoint (canvasRef : option Canvas) (videoRef : option Video)
    (clientX clientY : Q) : Point :=
  match canvasRef, videoRef with
  | Some canvas, Some video =>
      let x := clientX - rect_left canvas in
      let y := clientY - rect_top canvas in
      let layout := getVideoLayout canvas video in
      point ((x - layout_x layout) / layout_scale layout)
            ((y - layout_y layout) / layout_scale layout)
  | _, _ => point 0 0
  end.

(** The contain-fit mapping in the words of the design document:
    [scale = min(canvasW/mediaW, canvasH/mediaH)], the scaled media
    rectangle centred in the canvas, and the identity-like mapping when a
    media dimension is not known. *)
Definition contain_fit (cw ch vw vh : N) : Layout :=
  if (vw =? 0)%N || (vh =? 0)%N then mkLayout 0 0 (NQ cw) (NQ ch) 1
  else
    let scale := Qmin (NQ cw / NQ vw) (NQ ch / NQ vh) in
    let w := NQ vw * scale in
    let h := NQ vh * scale in
    mkLayout ((NQ cw - w) / 2) ((NQ ch - h) / 2) w h scale.

(** Two layouts denote the same numbers. *)
Definition layout_eq (a b : Layout) : Prop :=
  layout_x a == layout_x b /\ layout_y a == layout_y b /\
  layout_w a == layout_w b /\ layout_h a == layout_h b /\
  layout_scale a == layout_scale b.

(** ** Shapes *)

Record Particle : Type := mkParticle {
  initialAngle : Q;
  speed : Q
}.

Record SpotlightConfig : Type := mkSpotlightConfig {
  spot_size : Q;
  spot_intensity : Q;
  spot_rotation : Q;
  spot_particles : list Particle
}.

Record LensConfig : Type := mkLensConfig {
  lens_radius : Q;
  lens_zoom : Q
}.

Record RingConfig : Type := mkRingConfig {
  ring_tilt : Q;
  ring_isFilled : option bool
}.

(** What a [drawImage] call reads from. *)
Inductive ImageSource : Type :=
| FromVideo
| FromMaskForeground.

(** An [ImageBitmap] is described by how it was made: from an
    [ImageData] (the two mask layers), or from a [w] x [h] offscreen
    canvas onto which the rectangle [(sx, sy, w, h)] of a source was
    drawn (sprite and background patch). *)
Inductive ImageBitmap : Type :=
| OfImageData (data : list Pixel)
| OfCrop (source : ImageSource) (sx sy : Q) (w h : Z).

(** An array slot of [points] holds a [Point], or [undefined] ([None])
    when it was read from an empty array. *)
Record Shape : Type := mkShape {
  shape_id : Z;                 (* Date.now().toString(), as the number printed *)
  shape_type : ToolType;
  points : list (option Point);
  color : string;
  shape_strokeWidth : Q;
  isClosed : option bool;
  isFilled : option bool;
  isDashed : option bool;
  isFreehand : option bool;
  img : option ImageBitmap;
  bgImg : option ImageBitmap;
  box : option Rect;
  shape_timestamp : Z;
  spotlightConfig : option SpotlightConfig;
  lensConfig : option LensConfig;
  ringConfig : option RingConfig
}.

(** ** Component state *)

Record MaskSettings : Type := mkMaskSettings {
  enabled : bool;
  sensitivity : Q;
  showOverlay : bool
}.

Record MaskLayerCache : Type := mkMaskLayerCache {
  foreground : option ImageBitmap;
  overlay : option ImageBitmap;
  cache_timestamp : Q
}.

Inductive PlayerMoveState : Type := idle | selecting | moving.

(** The value [{ sprite, patch, box }] of [capturedSprite]. *)
Record Captured : Type := mkCaptured {
  sprite : ImageBitmap;
  patch : ImageBitmap;
  captured_box : Rect
}.

(** The tool settings read when a shape is finalized. *)
Record Settings : Type := mkSettings {
  currentColor : string;
  strokeWidth : Q;
  arrow_isDashed : bool;
  arrow_isFreehand : bool;
  ringSettings_tilt : Q;
  ringSettings_isFilled : bool;
  spotlightSettings : Q * Q * Q;   (* size, intensity, rotation *)
  lensSettings : Q * Q             (* size, zoom *)
}.

(** The [useState] cells of the component that the drawing core reads
    and writes. *)
Record State : Type := mkState {
  tool : ToolType;
  shapes : list Shape;
  redoStack : list (list Shape);
  isDrawing : bool;
  activePoints : list Point;
  currentDragStart : option Point;
  playerMoveState : PlayerMoveState;
  playerSelectionRect : option Rect;
  capturedSprite : option Captured;
  isPlaying : bool;
  maskSettings : MaskSettings;
  maskCache : MaskLayerCache;
  settings : Settings
}.

(** The state setters, one per cell. *)
Definition setTool (v : ToolType) (s : State) : State :=
  mkState v (shapes s) (redoStack s) (isDrawing s) (activePoints s)
    (currentDragStart s) (playerMoveState s) (playerSelectionRect s)
    (capturedSprite s) (isPlaying s) (maskSettings s) (maskCache s) (settings s).

Definition setShapes (v : list Shape) (s : State) : State :=
  mkState (tool s) v (redoStack s) (isDrawing s) (activePoints s)
    (currentDragStart s) (playerMoveState s) (playerSelectionRect s)
    (capturedSprite s) (isPlaying s) (maskSettings s) (maskCache s) (settings s).

Definition setRedoStack (v : list (list Shape)) (s : State) : State :=
  mkState (tool s) (shapes s) v (isDrawing s) (activePoints s)
    (currentDragStart s) (playerMoveState s) (playerSelectionRect s)
    (capturedSprite s) (isPlaying s) (maskSettings s) (maskCache s) (settings s).

Definition setIsDrawing (v : bool) (s : State) : State :=
  mkState (tool s) (shapes s) (redoStack s) v (activePoints s)
    (currentDragStart s) (playerMoveState s) (playerSelectionRect s)
    (capturedSprite s) (isPlaying s) (maskSettings s) (maskCache s) (settings s).

Definition setActivePoints (v : list Point) (s : State) : State :=
  mkState (tool s) (shapes s) (redoStack s) (isDrawing s) v
    (currentDragStart s) (playerMoveState s) (playerSelectionRect s)
    (capturedSprite s) (isPlaying s) (maskSettings s) (maskCache s) (settings s).

Definition setCurrentDragStart (v : option Point) (s : State) : State :=
  mkState (tool s) (shapes s) (redoStack s) (isDrawing s) (activePoints s)
    v (playerMoveState s) (playerSelectionRect s)
    (capturedSprite s) (isPlaying s) (maskSettings s) (maskCache s) (settings s).

Definition setPlayerMoveState (v : PlayerMoveState) (s : State) : State :=
  mkState (tool s) (shapes s) (redoStack s) (isDrawing s) (activePoints s)
    (currentDragStart s) v (playerSelectionRect s)
    (capturedSprite s) (isPlaying s) (maskSettings s) (maskCache s) (settings s).

Definition setPlayerSelectionRect (v : option Rect) (s : State) : State :=
  mkState (tool s) (shapes s) (redoStack s) (isDrawing s) (activePoints s)
    (currentDragStart s) (playerMoveState s) v
    (capturedSprite s) (isPlaying s) (maskSettings s) (maskCache s) (settings s).

Definition setCapturedSprite (v : option Captured) (s : State) : State :=
  mkState (tool s) (shapes s) (redoStack s) (isDrawing s) (activePoints s)
    (currentDragStart s) (playerMoveState s) (playerSelectionRect s)
    v (isPlaying s) (maskSettings s) (maskCache s) (settings s).

Definition setIsPlaying (v : bool) (s : State) : State :=
  mkState (tool s) (shapes s) (redoStack s) (isDrawing s) (activePoints s)
    (currentDragStart s) (playerMoveState s) (playerSelectionRect s)
    (capturedSprite s) v (maskSettings s) (maskCache s) (settings s).

Definition setMaskCache (v : MaskLayerCache) (s : State) : State :=
  mkState (tool s) (shapes s) (redoStack s) (isDrawing s) (activePoints s)
    (currentDragStart s) (playerMoveState s) (playerSelectionRect s)
    (capturedSprite s) (isPlaying s) (maskSettings s) v (settings s).

(** ** Shape history *)

(** [addShape]: [setShapes([...shapes, shape]); setRedoStack([])]. *)
Definition addShape (shape : Shape) (s : State) : State :=
  let newShapes := shapes s ++ [shape] in
  setRedoStack [] (setShapes newShapes s).

(** [undo]: returns at once on an empty history; otherwise pushes the
    group [[last]] on the redo stack and drops the last shape. *)
Definition undo (s : State) : State :=
  match shapes s with
  | [] => s
  | first :: rest =>
      let last := List.last rest first in      (* shapes[shapes.length - 1] *)
      setShapes (removelast (shapes s))
        (setRedoStack (redoStack s ++ [[last]]) s)
  end.

(** [redo]: returns at once on an empty redo stack; otherwise re-appends
    the first shape of the last group and drops that group.  A group is
    never empty ([undo] is the only writer and pushes [[last]]); for an
    empty group [nextGroup[0]] would be [undefined], which is no [Shape],
    and the model then only drops the group. *)
Definition redo (s : State) : State :=
  match redoStack s with
  | [] => s
  | first :: rest =>
      let nextGroup := List.last rest first in (* redoStack[redoStack.length - 1] *)
      match nextGroup with
      | next :: _ =>
          setRedoStack (removelast (redoStack s))
            (setShapes (shapes s ++ [next]) s)
      | [] => setRedoStack (removelast (redoStack s)) s
      end
  end.

(** [clearAll]. *)
Definition clearAll (s : State) : State :=
  setCapturedSprite None
    (setPlayerSelectionRect None
      (setPlayerMoveState idle
        (setCurrentDragStart None
          (setIsDrawing false
            (setActivePoints []
              (setRedoStack []
                (setShapes [] s))))))).

(** The effect [useEffect(() => { if (isPlaying) { ... } }, [isPlaying])],
    run after a render in which [isPlaying] changed. *)
Definition effect_isPlaying (s : State) : State :=
  if isPlaying s then
    setCapturedSprite None
      (setPlayerSelectionRect None
        (setPlayerMoveState idle
          (setCurrentDragStart None
            (setIsDrawing false
              (setActivePoints []
                (setRedoStack []
                  (setShapes [] s)))))))
  else s.

(** Enabling playback: [setIsPlaying(true)] from a paused state, followed
    by the effect above. *)
Definition enablePlayback (s : State) : State :=
  effect_isPlaying (setIsPlaying true s).

(** The [onClick] of a button of the tool strip; [item] is the tool of the
    button and [slides] says whether [viewMode === 'slides']. *)
Definition toolButton_onClick (slides : bool) (item : Tool) (s : State) : State :=
  if slides then s
  else
    match item with
    | masking =>
        setTool (match tool s with Some masking => None | _ => Some masking end) s
    | _ =>
        setTool (match tool s with
                 | Some t => if Tool_eqb t item then None else Some item
                 | None => Some item
                 end) s
    end.

(** Iterating an operation. *)
Fixpoint iterate {A : Type} (n : nat) (f : A -> A) (a : A) : A :=
  match n with
  | O => a
  | S k => iterate k f (f a)
  end.

(** The transient interaction state is idle. *)
Definition transient_idle (s : State) : Prop :=
  activePoints s = [] /\ isDrawing s = false /\ playerMoveState s = idle /\
  playerSelectionRect s = None /\ capturedSprite s = None.

(** ** Chroma-key segmentation *)

(** [rgbToHsl]: hue in degrees, saturation and lightness in [0, 1]. *)
Definition rgbToHsl (r g b : Q) : Q * Q * Q :=
  let r := r / 255 in
  let g := g / 255 in
  let b := b / 255 in
  let max := Qmax (Qmax r g) b in
  let min := Qmin (Qmin r g) b in
  let l := (max + min) / 2 in
  if negb (Qeq_bool max min) then
    let d := max - min in
    let s := if Qgtb l 0.5 then d / (2 - max - min) else d / (max + min) in
    let h :=
      if Qeq_bool max r then (g - b) / d + (if Qltb g b then 6 else 0)
      else if Qeq_bool max g then (b - r) / d + 2
      else if Qeq_bool max b then (r - g) / d + 4
      else 0 in
    let h := h / 6 in
    (h * 360, s, l)
  else (0 * 360, 0, l).

Definition hMin (sensitivityThreshold : Q) : Q := 75 - sensitivityThreshold * 0.4.
Definition hMax (sensitivityThreshold : Q) : Q := 155 + sensitivityThreshold * 0.4.
Definition sMin : Q := 0.15.
Definition lMin : Q := 0.15.
Definition lMax : Q := 0.85.

(** The test [isGreen] of the pixel loop. *)
Definition isGreen (sensitivityThreshold : Q) (p : Pixel) : bool :=
  let '(h, s, l) :=
    rgbToHsl (inject_Z (red p)) (inject_Z (green p)) (inject_Z (blue p)) in
  (Qgeb h (hMin sensitivityThreshold) && Qleb h (hMax sensitivityThreshold))
  && Qgeb s sMin
  && (Qgeb l lMin && Qleb l lMax).

(** A pixel of a fresh [ImageData]: all four bytes are 0. *)
Definition blank : Pixel := mkPixel 0 0 0 0.

(** One turn of the pixel loop: the pixel written to [fgData] and the
    pixel written to [ovData]; bytes the branch does not assign keep the
    0 of the fresh [ImageData]. *)
Definition maskPixel (sensitivityThreshold : Q) (p : Pixel) : Pixel * Pixel :=
  if isGreen sensitivityThreshold p then
    (mkPixel (red blank) (green blank) (blue blank) 0,
     mkPixel 239 68 68 102)
  else
    (mkPixel (red p) (green p) (blue p) 255,
     mkPixel (red blank) (green blank) (blue blank) 0).

(** The loop [for (i = 0; i < data.length; i += 4)] over the frame. *)
Fixpoint maskLoop (sensitivityThreshold : Q) (data : list Pixel)
  : list Pixel * list Pixel :=
  match data with
  | [] => ([], [])
  | p :: rest =>
      let '(fg, ov) := maskPixel sensitivityThreshold p in
      let '(fgData, ovData) := maskLoop sensitivityThreshold rest in
      (fg :: fgData, ov :: ovData)
  end.

(** [computeMaskingLayers]: the new mask cache, or [None] when the
    function returns before [setMaskCache]. *)
Definition computeMaskingLayers (videoRef : option Video) (s : State)
  : option MaskLayerCache :=
  match videoRef with
  | None => None
  | Some video =>
      if negb (enabled (maskSettings s)) || isPlaying s then None
      else if (videoWidth video =? 0)%N || (videoHeight video =? 0)%N then None
      else
        let '(fgData, ovData) :=
          maskLoop (sensitivity (maskSettings s)) (frame video) in
        Some (mkMaskLayerCache (Some (OfImageData fgData))
                               (Some (OfImageData ovData))
                               (currentTime video))
  end.

(** ** Sprite capture *)

(** [captureSprite]; [ctx2d] says whether [getContext('2d')] yields a
    context for the two offscreen canvases. *)
Definition captureSprite (videoRef : option Video) (ctx2d : bool) (s : State)
    (rect : Rect) : option Captured :=
  match videoRef with
  | None => None
  | Some video =>
      let w := Qceiling (rw rect) in
      let h := Qceiling (rh rect) in
      if (w <=? 0)%Z || (h <=? 0)%Z then None
      else
        let bgX := rx rect + inject_Z w * 1.5 in
        let bgX :=
          if Qgtb (bgX + inject_Z w) (NQ (videoWidth video))
          then rx rect - inject_Z w * 1.5 else bgX in
        let bgX := if Qltb bgX 0 then 0 else bgX in
        let bgY := ry rect in
        if negb ctx2d then None
        else
          let crop :=
            match enabled (maskSettings s), foreground (maskCache s) with
            | true, Some _ => OfCrop FromMaskForeground (rx rect) (ry rect) w h
            | _, _ => OfCrop FromVideo (rx rect) (ry rect) w h
            end in
          let bg := OfCrop FromVideo bgX bgY w h in
          Some (mkCaptured crop bg rect)
  end.

(** The x-position of the background patch as the design document words
    it, with the shift taken from a width [width]. *)
Definition patch_x (x width frameWidth : Q) : Q :=
  let right := x + 1.5 * width in
  let chosen := if Qgtb (right + width) frameWidth then x - 1.5 * width else right in
  if Qltb chosen 0 then 0 else chosen.

(** ** Frame compositor *)

Inductive Pass : Type := shadow | body.

(** The calls [renderCanvas] makes on the 2D context, in order. *)
Inductive DrawOp : Type :=
| ClearRect (w h : Q)
| DrawOverlay (bitmap : ImageBitmap) (x y w h : Q)
| DrawForeground (bitmap : ImageBitmap) (x y w h : Q)
| Save
| Translate (x y : Q)
| Scale (sx sy : Q)
| Restore
| DrawShapeOnCanvas (shape : Shape) (scale : Q) (pass : option Pass)
| DrawLens (center : Point) (radius zoom scale : Q).

(** [isMaskSynced] of [renderCanvas]. *)
Definition isMaskSynced (cache : MaskLayerCache) (currentVideoTime : Q) : bool :=
  negb (Qeq_bool (cache_timestamp cache) (-1))
  && Qltb (Qabs (cache_timestamp cache - currentVideoTime)) 0.15.

Definition is_tool (t : Tool) (shape : Shape) : bool :=
  match shape_type shape with
  | Some u => Tool_eqb u t
  | None => false
  end.

(** Step 4: the first [shapes.forEach]. *)
Definition drawPersistent (scale : Q) (shape : Shape) : list DrawOp :=
  if is_tool player_move shape || is_tool lens shape then []
  else if is_tool curved_arrow shape then [DrawShapeOnCanvas shape scale (Some shadow)]
  else [DrawShapeOnCanvas shape scale None].

(** Step 8: the second [shapes.forEach]. *)
Definition drawLayered (scale : Q) (shape : Shape) : list DrawOp :=
  (if is_tool curved_arrow shape then [DrawShapeOnCanvas shape scale (Some body)] else [])
  ++ (if is_tool player_move shape then [DrawShapeOnCanvas shape scale None] else [])
  ++ (if is_tool lens shape then
        match lensConfig shape, points shape with
        | Some cfg, Some p0 :: _ => [DrawLens p0 (lens_radius cfg) (lens_zoom cfg) scale]
        | _, _ => []
        end
      else []).

(** [renderCanvas]: returns without drawing when a ref or the context is
    missing. *)
Definition renderCanvas (canvasRef : option Canvas) (videoRef : option Video)
    (ctx2d : bool) (s : State) : list DrawOp :=
  match canvasRef, videoRef with
  | Some canvas, Some video =>
      if negb ctx2d then []
      else
        let layout := getVideoLayout canvas video in
        let x := layout_x layout in
        let y := layout_y layout in
        let w := layout_w layout in
        let h := layout_h layout in
        let scale := layout_scale layout in
        let currentVideoTime := currentTime video in
        let synced := isMaskSynced (maskCache s) currentVideoTime in
        [ClearRect (NQ (canvas_width canvas)) (NQ (canvas_height canvas))]
        ++ (match overlay (maskCache s) with
            | Some bitmap =>
                if enabled (maskSettings s) && negb (isPlaying s)
                   && showOverlay (maskSettings s) && synced
                then [DrawOverlay bitmap x y w h] else []
            | None => []
            end)
        ++ [Save; Translate x y; Scale scale scale]
        ++ flat_map (drawPersistent scale) (shapes s)
        ++ [Restore]
        ++ (match foreground (maskCache s) with
            | Some bitmap =>
                if enabled (maskSettings s) && negb (isPlaying s) && synced
                then [DrawForeground bitmap x y w h] else []
            | None => []
            end)
        ++ [Save; Translate x y; Scale scale scale]
        ++ flat_map (drawLayered scale) (shapes s)
        ++ [Restore]
  | _, _ => []
  end.

Definition is_mask_draw (op : DrawOp) : bool :=
  match op with
  | DrawOverlay _ _ _ _ _ | DrawForeground _ _ _ _ _ => true
  | _ => false
  end.

(** ** Pointer state machine *)

(** What the handlers read besides the state: the two refs, and whether a
    2D context can be obtained. *)
Record Env : Type := mkEnv {
  canvasRef : option Canvas;
  videoRef : option Video;
  ctx2d : bool
}.

Record MouseEvent : Type := mkMouseEvent {
  button : Z;
  clientX : Q;
  clientY : Q
}.

Definition eventPoint (env : Env) (e : MouseEvent) : Point :=
  getVideoSpacePoint (canvasRef env) (videoRef env) (clientX e) (clientY e).

(** The player-move branch of [finishDrawing].  The second component is
    the rectangle passed to [captureSprite] when a capture is started; its
    promise settles later (see [captureSettled]). *)
Definition finishPlayerMove (currentPoint : Point) (now : Z) (s : State)
  : State * option Rect :=
  match playerMoveState s, playerSelectionRect s, capturedSprite s with
  | selecting, Some sel, _ =>
      let w := px currentPoint - rx sel in
      let h := py currentPoint - ry sel in
      if Qltb (Qabs w) 10 || Qltb (Qabs h) 10 then
        (setPlayerSelectionRect None (setPlayerMoveState idle s), None)
      else
        let finalRect :=
          mkRect (if Qgtb w 0 then rx sel else px currentPoint)
                 (if Qgtb h 0 then ry sel else py currentPoint)
                 (Qabs w) (Qabs h) in
        (setPlayerSelectionRect None s, Some finalRect)
  | moving, _, Some captured =>
      let box := captured_box captured in
      let destCenter := currentPoint in
      let newShape :=
        mkShape now (Some player_move)
          [Some (point (rx box + rw box / 2) (ry box + rh box / 2)); Some destCenter]
          (currentColor (settings s)) (strokeWidth (settings s))
          None None None None
          (Some (sprite captured)) (Some (patch captured)) (Some box)
          now None None None in
      (setCapturedSprite None (setPlayerMoveState idle (addShape newShape s)), None)
  | _, _, _ => (s, None)
  end.

(** The [.then] callback of the capture started by [finishDrawing]. *)
Definition captureSettled (result : option Captured) (s : State) : State :=
  match result with
  | Some captured => setPlayerMoveState moving (setCapturedSprite (Some captured) s)
  | None => setPlayerMoveState idle s
  end.

(** The connected-circle branch of [finishDrawing]. *)
Definition finishChain (currentPoint : Point) (now : Z) (s : State) : State :=
  match isDrawing s, currentDragStart s with
  | true, Some dragStart =>
      let radius := getDistance dragStart currentPoint in
      let closes :=
        match activePoints s with
        | first :: _ :: _ =>                       (* activePoints.length >= 2 *)
            let distToStart := getDistance currentPoint first in
            surd_ltb distToStart 40
        | _ => false
        end in
      if closes then
        let newShape :=
          mkShape now (Some connected_circle)
            (map Some (activePoints s))
            (currentColor (settings s)) (strokeWidth (settings s))
            (Some true) (Some (ringSettings_isFilled (settings s))) None None
            None None None
            now None None
            (Some (mkRingConfig (ringSettings_tilt (settings s)) None)) in
        setCurrentDragStart None
          (setIsDrawing false
            (setActivePoints [] (addShape newShape s)))
      else
        let s1 :=
          if surd_gtb radius 5 then
            setActivePoints
              (activePoints s ++ [mkPoint (px dragStart) (py dragStart) (Some radius) (Some now)])
              s
          else s in
        setCurrentDragStart None (setIsDrawing false s1)
  | _, _ => s
  end.

(** The last block of [finishDrawing], for the remaining tools. *)
Definition finishStroke (t : Tool) (currentPoint : Point) (now : Z) (s : State) : State :=
  if isDrawing s then
    let freehand :=
      match t with
      | pen => true
      | arrow => arrow_isFreehand (settings s)
      | _ => false
      end in
    let pointsToSave := [hd_error (activePoints s); Some currentPoint] in
    let pointsToSave :=
      match t, currentDragStart s with
      | circle, Some dragStart => [Some dragStart; Some currentPoint]
      | _, _ => pointsToSave
      end in
    let pointsToSave :=
      if freehand then map Some (activePoints s) ++ [Some currentPoint]
      else pointsToSave in
    let newShape :=
      mkShape now (Some t) pointsToSave
        (currentColor (settings s)) (strokeWidth (settings s))
        None None
        (Some (arrow_isDashed (settings s))) (Some (arrow_isFreehand (settings s)))
        None None None
        now None None
        (match t with
         | circle => Some (mkRingConfig (ringSettings_tilt (settings s)) None)
         | _ => None
         end) in
    setCurrentDragStart None
      (setActivePoints [] (addShape newShape (setIsDrawing false s)))
  else s.

(** [finishDrawing], the [onMouseUp] handler.  [now] is the reading of
    [Date.now()] and [particles] the result of [createParticles(30)]. *)
Definition finishDrawing (env : Env) (e : MouseEvent) (now : Z)
    (particles : list Particle) (s : State) : State * option Rect :=
  match tool s with
  | None | Some masking => (s, None)
  | Some player_move => finishPlayerMove (eventPoint env e) now s
  | Some spotlight =>
      if isDrawing s then
        let '(size, intensity, rotation) := spotlightSettings (settings s) in
        let newShape :=
          mkShape now (Some spotlight) [Some (eventPoint env e)]
            "#ffffff"%string 1 None None None None None None None now
            (Some (mkSpotlightConfig size intensity rotation particles)) None None in
        (addShape newShape (setIsDrawing false s), None)
      else (s, None)
  | Some lens =>
      if isDrawing s then
        let '(size, zoom) := lensSettings (settings s) in
        let newShape :=
          mkShape now (Some lens) [Some (eventPoint env e)]
            "#ffffff"%string 1 None None None None None None None now
            None (Some (mkLensConfig size zoom)) None in
        (addShape newShape (setIsDrawing false s), None)
      else (s, None)
  | Some connected_circle => (finishChain (eventPoint env e) now s, None)
  | Some polygon => (s, None)
  | Some t => (finishStroke t (eventPoint env e) now s, None)
  end.

(** A pointer-up followed by the settling of the capture it started, if
    any; [captureSprite] runs with the state of the render that handled
    the pointer-up. *)
Definition pointerUp (env : Env) (e : MouseEvent) (now : Z)
    (particles : list Particle) (s : State) : State :=
  match finishDrawing env e now particles s with
  | (s', Some finalRect) =>
      captureSettled (captureSprite (videoRef env) (ctx2d env) s finalRect) s'
  | (s', None) => s'
  end.

(** [togglePlay], on the state; pausing or starting the element itself is
    outside the state. *)
Definition togglePlay (env : Env) (s : State) : State :=
  match videoRef env with
  | Some _ => setIsPlaying (negb (isPlaying s)) s
  | None => s
  end.

(** [startDrawing], the [onMouseDown] handler. *)
Definition startDrawing (env : Env) (e : MouseEvent) (now : Z)
    (particles : list Particle) (s : State) : State * option Rect :=
  if negb (button e =? 0)%Z then (s, None)
  else
    match tool s with
    | None | Some masking => (s, None)
    | Some t =>
        let s1 := if isPlaying s then togglePlay env s else s in
        let s2 :=
          match videoRef env with
          | Some video =>
              (* togglePlay has paused the element when it was playing *)
              let paused_now := if isPlaying s then true else paused video in
              if negb paused_now then setIsPlaying false s1 else s1
          | None => s1
          end in
        let startPoint := eventPoint env e in
        match t with
        | player_move =>
            match playerMoveState s with
            | idle =>
                (setPlayerMoveState selecting
                   (setPlayerSelectionRect
                      (Some (mkRect (px startPoint) (py startPoint) 0 0)) s2), None)
            | moving =>
                let '(s3, req) := finishDrawing env e now particles s in
                (setIsPlaying (isPlaying s2) s3, req)
            | selecting => (s2, None)
            end
        | spotlight | lens => (setIsDrawing true s2, None)
        | connected_circle =>
            (setIsDrawing true (setCurrentDragStart (Some startPoint) s2), None)
        | circle =>
            (setActivePoints [startPoint]
               (setIsDrawing true (setCurrentDragStart (Some startPoint) s2)), None)
        | polygon => (setActivePoints (activePoints s ++ [startPoint]) s2, None)
        | _ => (setActivePoints [startPoint] (setIsDrawing true s2), None)
        end
    end.

(** ** Initial state *)

(** The initial values of the [useState] cells. *)
Definition initialSettings : Settings :=
  mkSettings "#00eaff"%string 4 false false 65 false (45, 0.75, 0.45) (75, 2.0).

Definition initialState : State :=
  mkState None [] [] false [] None idle None None false
    (mkMaskSettings false 40 true)
    (mkMaskLayerCache None None (-1))
    initialSettings.

(** [addShape] called once per shape of a list, in order. *)
Definition addShapes (l : list Shape) (s : State) : State :=
  fold_left (fun st shape => addShape shape st) l s.

(** Every group on the redo stack holds one shape (what [undo] pushes). *)
Definition singleton_groups (s : State) : Prop :=
  Forall (fun group => List.length group = 1%nat) (redoStack s).

Definition setMaskSettings (v : MaskSettings) (s : State) : State :=
  mkState (tool s) (shapes s) (redoStack s) (isDrawing s) (activePoints s)
    (currentDragStart s) (playerMoveState s) (playerSelectionRect s)
    (capturedSprite s) (isPlaying s) v (maskCache s) (settings s).

(** ** Sample inputs *)

(** A paused 2x1 video showing a pure green and a pure red pixel. *)
Definition sampleVideo : Video :=
  mkVideo 2 1 10 true [mkPixel 0 255 0 255; mkPixel 255 0 0 255].

(** The initial state with masking switched on (sensitivity 40). *)
Definition maskingState : State :=
  setMaskSettings (mkMaskSettings true 40 true) initialState.

(** A paused 1920x1080 video at playback position 10 (no pixel data). *)
Definition hdVideo : Video := mkVideo 1920 1080 10 true [].

(** An 800x600 canvas at the origin of the viewport, with [hdVideo]. *)
Definition sampleEnv : Env :=
  mkEnv (Some (mkCanvas 800 600 0 0)) (Some hdVideo) true.

(** A left-button mouse event at client position [(x, y)]. *)
Definition mouse (x y : Q) : MouseEvent := mkMouseEvent 0 x y.

(** A pointer-down at [down] followed by a pointer-up at [up]. *)
Definition drag (env : Env) (down up : MouseEvent) (now : Z) (s : State) : State :=
  pointerUp env up now [] (fst (startDrawing env down now [] s)).

(** Two chain nodes accepted on [sampleEnv], then the pointer pressed
    again close to the first node. *)
Definition chainTwoNodes : State :=
  drag sampleEnv (mouse 300 300) (mouse 330 300) 2000
    (drag sampleEnv (mouse 100 200) (mouse 120 200) 1000
       (setTool (Some connected_circle) initialState)).

Definition chainClosing : State :=
  fst (startDrawing sampleEnv (mouse 105 205) 3000 [] chainTwoNodes).

(** The player-move tool after a pointer-down at client position
    (100, 200) on [sampleEnv]. *)
Definition playerSelecting : State :=
  fst (startDrawing sampleEnv (mouse 100 200) 1000 []
         (setTool (Some player_move) initialState)).

(** One polygon vertex placed on [sampleEnv]. *)
Definition polygonInProgress : State :=
  fst (startDrawing sampleEnv (mouse 100 200) 1000 []
         (setTool (Some polygon) initialState)).

(** * Further parts of the source *)

(** ** Video space to canvas *)

(** The transform [ctx.translate(x, y); ctx.scale(scale, scale)] that
    [renderCanvas] installs before drawing shapes:
    [x_canvas = x_video * scale + layout.x]. *)
Definition toCanvas (layout : Layout) (p : Point) : Q * Q :=
  (px p * layout_scale layout + layout_x layout,
   py p * layout_scale layout + layout_y layout).

(** ** Remaining pointer handlers *)

(** [handleDoubleClick]; [now] is the reading of [Date.now()]. *)
Definition handleDoubleClick (now : Z) (s : State) : State :=
  let s1 :=
    match tool s with
    | Some polygon =>
        if (2 <? List.length (activePoints s))%nat then
          let newShape :=
            mkShape now (Some polygon) (map Some (activePoints s))
              (currentColor (settings s)) (strokeWidth (settings s))
              (Some true) None None None None None None now None None None in
          setActivePoints [] (addShape newShape s)
        else s
    | _ => s
    end in
  match tool s with
  | Some connected_circle =>
      let s2 :=
        if (0 <? List.length (activePoints s))%nat then
          let newShape :=
            mkShape now (Some connected_circle) (map Some (activePoints s))
              (currentColor (settings s)) (strokeWidth (settings s))
              (Some false) None None None None None None 0 None None
              (Some (mkRingConfig (ringSettings_tilt (settings s)) None)) in
          addShape newShape s1
        else s1 in
      setCurrentDragStart None (setIsDrawing false (setActivePoints [] s2))
  | _ => s1
  end.

(** [handleContextMenu] (the right click). *)
Definition handleContextMenu (s : State) : State :=
  if (0 <? List.length (activePoints s))%nat
     || isDrawing s
     || match playerMoveState s with idle => false | _ => true end
  then
    setCurrentDragStart None
      (setCapturedSprite None
        (setPlayerSelectionRect None
          (setPlayerMoveState idle
            (setIsDrawing false
              (setActivePoints [] s)))))
  else s.

(** [drawPreview], the [onMouseMove] handler, on the state (the pointer
    position kept in [mousePosRef] is not part of the state). *)
Definition drawPreview (env : Env) (e : MouseEvent) (s : State) : State :=
  match tool s with
  | Some masking => s
  | Some player_move => s
  | Some t =>
      let currentPoint := eventPoint env e in
      if negb (isDrawing s) && Tool_eqb t connected_circle then s
      else if isDrawing s
              && match t with
                 | pen => true
                 | arrow => arrow_isFreehand (settings s)
                 | _ => false
                 end
      then setActivePoints (activePoints s ++ [currentPoint]) s
      else s
  | None => s
  end.

(** The [onMouseLeave] handler of the canvas. *)
Definition canvas_onMouseLeave (s : State) : State := setIsDrawing false s.

(** A pointer-down, the pointer moves of a list, then a pointer-up. *)
Definition stroke (env : Env) (down : MouseEvent) (moves : list MouseEvent)
    (up : MouseEvent) (now : Z) (s : State) : State :=
  pointerUp env up now []
    (fold_left (fun st e => drawPreview env e st) moves
       (fst (startDrawing env down now [] s))).

(** ** Operations on the history, as a script *)

Inductive HistoryOp : Type :=
| OpUndo
| OpRedo.

Definition applyOp (op : HistoryOp) (s : State) : State :=
  match op with
  | OpUndo => undo s
  | OpRedo => redo s
  end.

Definition applyOps (ops : list HistoryOp) (s : State) : State :=
  fold_left (fun st op => applyOp op st) ops s.

(** The shapes of the history followed by the undone ones, in the order
    in which they were added. *)
Definition timeline (s : State) : list Shape :=
  shapes s ++ rev (List.concat (redoStack s)).

(** The sample chain after the closing click. *)
Definition chainClosed : State :=
  drag sampleEnv (mouse 105 205) (mouse 105 205) 3000 chainTwoNodes.

(** A list of clicks (pointer-down and pointer-up at the same position). *)
Definition clicks (env : Env) (events : list MouseEvent) (now : Z) (s : State) : State :=
  fold_left (fun st e => drag env e e now st) events s.

(** The player-move tool in its moving phase, after the sample selection
    drag. *)
Definition playerMoving : State :=
  pointerUp sampleEnv (mouse 150 260) 2000 [] playerSelecting.

(** ** Mask cache maintenance *)

(** The value [{ foreground: null, overlay: null, timestamp: -1 }]. *)
Definition emptyMaskCache : MaskLayerCache := mkMaskLayerCache None None (-1).

(** [handleSeek], on the state: with a video element mounted the mask
    cache is dropped (moving the element's playback position is outside
    the state). *)
Definition handleSeek (env : Env) (time : Q) (s : State) : State :=
  match videoRef env with
  | Some _ => setMaskCache emptyMaskCache s
  | None => s
  end.

(** The effect on [isPlaying, maskSettings.enabled, maskSettings.sensitivity,
    currentTime]: the flag says whether [computeMaskingLayers] is scheduled
    (after 50 ms). *)
Definition maskEffect (s : State) : State * bool :=
  if negb (isPlaying s) && enabled (maskSettings s) then (s, true)
  else if negb (enabled (maskSettings s))
          && match foreground (maskCache s) with Some _ => true | None => false end
  then (setMaskCache emptyMaskCache s, false)
  else (s, false).

(** The scheduled [computeMaskingLayers] has run: [setMaskCache] with its
    result, if it got that far. *)
Definition maskRecomputed (env : Env) (s : State) : State :=
  match computeMaskingLayers (videoRef env) s with
  | Some cache => setMaskCache cache s
  | None => s
  end.

(** What one pixel of the two layers looks like next to the other. *)
Definition layers_complementary (fg ov : Pixel) : Prop :=
  (alpha fg = 255%Z /\ ov = blank)
  \/ (fg = blank /\ ov = mkPixel 239 68 68 102).

(** The sample canvas with the 2x1 [sampleVideo]. *)
Definition maskEnv : Env :=
  mkEnv (Some (mkCanvas 800 600 0 0)) (Some sampleVideo) true.

(** Masking on, with a cache sampled at playback position 3. *)
Definition staleMaskState : State :=
  setMaskCache (mkMaskLayerCache (Some (OfImageData [])) (Some (OfImageData [])) 3)
    maskingState.

(** ** Arithmetic of the renderers *)

(** The entrance animation of [draw3DRing]: [(scaleEnt, alphaEnt)] for the
    time elapsed since the creation of the ring. *)
Definition ringEntrance (timeElapsed : Q) (isGhost : bool) : Q * Q :=
  if negb isGhost && Qltb timeElapsed 500 then
    let p := timeElapsed / 500 in
    let scaleEnt :=
      if Qltb p 0.6 then 0.3 + (1.08 - 0.3) * (p / 0.6)
      else 1.08 - 0.08 * ((p - 0.6) / 0.4) in
    (scaleEnt, Qmin 1 (p * 2))
  else (1, 1).

(** The two rectangles of the [drawImage] call of [drawLens]: the source
    rectangle of the video frame and the destination rectangle, both in
    video space. *)
Record LensGeometry : Type := mkLensGeometry {
  sourceX : Q; sourceY : Q; sourceW : Q; sourceH : Q;
  destX : Q; destY : Q; destW : Q; destH : Q
}.

Definition lensGeometry (center : Point) (radius zoom scale : Q) : LensGeometry :=
  let radiusVideo := radius / scale in
  let sourceW := (radiusVideo * 2) / zoom in
  let sourceH := sourceW in
  let sourceX := px center - sourceW / 2 in
  let sourceY := py center - sourceH / 2 in
  mkLensGeometry sourceX sourceY sourceW sourceH
    (px center - radiusVideo) (py center - radiusVideo)
    (radiusVideo * 2) (radiusVideo * 2).

(** [clamp]. *)
Definition clamp (v min max : Q) : Q := Qmax min (Qmin max v).

(** [Math.round]: the nearest integer, halves rounded up. *)
Definition Math_round (x : Q) : Z := Qfloor (x + (1 # 2)).

(** The channel map [f] of [shiftColor]:
    [clamp(Math.round(c + (amt / 100) * 255), 0, 255)]. *)
Definition shiftChannel (amt c : Q) : Q :=
  clamp (inject_Z (Math_round (c + (amt / 100) * 255))) 0 255.

(** ** Layers of a frame *)

(** A shape draw that belongs above the mask foreground: a player-move
    shape or the body pass of a curved arrow. *)
Definition drawn_on_top (shape : Shape) (pass : option Pass) : bool :=
  is_tool player_move shape
  || match pass with Some body => true | _ => false end.

Definition is_foreground_draw (op : DrawOp) : bool :=
  match op with DrawForeground _ _ _ _ _ => true | _ => false end.

(** What may stand below the mask foreground in a frame: no foreground
    draw, no lens, and only shape draws that are not [drawn_on_top]. *)
Definition below_mask (op : DrawOp) : Prop :=
  match op with
  | DrawForeground _ _ _ _ _ => False
  | DrawLens _ _ _ _ => False
  | DrawShapeOnCanvas shape _ pass => drawn_on_top shape pass = false
  | _ => True
  end.

(** What may stand above it: no mask layer, and only shape draws that are
    [drawn_on_top]. *)
Definition above_mask (op : DrawOp) : Prop :=
  match op with
  | DrawForeground _ _ _ _ _ => False
  | DrawOverlay _ _ _ _ _ => False
  | DrawShapeOnCanvas shape _ pass => drawn_on_top shape pass = true
  | _ => True
  end.

(** The sample chain shape on the masked sample frame, mask computed. *)
Definition maskedFrame : State :=
  setShapes (shapes chainClosed) (maskRecomputed maskEnv maskingState).

Definition maskedFrameOps : list DrawOp :=
  renderCanvas (canvasRef maskEnv) (Some sampleVideo) true maskedFrame.

(** ** Tagging and playlists *)

Record TagEvent : Type := mkTagEvent {
  event_id : string;
  event_tagId : string;
  startTime : Q;
  endTime : Q;
  notes : option string
}.

Record Playlist : Type := mkPlaylist {
  playlist_id : string;
  playlist_name : string;
  events : list TagEvent
}.

(** The value [{ tagId, startTime }] of [activeRecording]. *)
Record Recording : Type := mkRecording {
  recording_tagId : string;
  recording_startTime : Q
}.

(** The [useState] cells of the tagging panel.  [selectedEventIds] is a
    [Set] of ids, kept as the list of its members. *)
Record Tagging : Type := mkTagging {
  tagEvents : list TagEvent;
  isTaggingMode : bool;
  activeRecording : option Recording;
  filterTagId : option string;
  playlists : list Playlist;
  activePlaylistId : string;
  selectedEventIds : list string;
  deleteConfirmation : option string
}.

Definition setTagEvents (v : list TagEvent) (t : Tagging) : Tagging :=
  mkTagging v (isTaggingMode t) (activeRecording t) (filterTagId t)
    (playlists t) (activePlaylistId t) (selectedEventIds t) (deleteConfirmation t).

Definition setIsTaggingMode (v : bool) (t : Tagging) : Tagging :=
  mkTagging (tagEvents t) v (activeRecording t) (filterTagId t)
    (playlists t) (activePlaylistId t) (selectedEventIds t) (deleteConfirmation t).

Definition setActiveRecording (v : option Recording) (t : Tagging) : Tagging :=
  mkTagging (tagEvents t) (isTaggingMode t) v (filterTagId t)
    (playlists t) (activePlaylistId t) (selectedEventIds t) (deleteConfirmation t).

Definition setFilterTagId (v : option string) (t : Tagging) : Tagging :=
  mkTagging (tagEvents t) (isTaggingMode t) (activeRecording t) v
    (playlists t) (activePlaylistId t) (selectedEventIds t) (deleteConfirmation t).

Definition setPlaylists (v : list Playlist) (t : Tagging) : Tagging :=
  mkTagging (tagEvents t) (isTaggingMode t) (activeRecording t) (filterTagId t)
    v (activePlaylistId t) (selectedEventIds t) (deleteConfirmation t).

Definition setDeleteConfirmation (v : option string) (t : Tagging) : Tagging :=
  mkTagging (tagEvents t) (isTaggingMode t) (activeRecording t) (filterTagId t)
    (playlists t) (activePlaylistId t) (selectedEventIds t) v.

(** [handleTagClick]; [newId] is [Date.now().toString()] and [currentTime]
    the playback position held in the state. *)
Definition handleTagClick (tagId newId : string) (currentTime : Q) (t : Tagging)
  : Tagging :=
  if isTaggingMode t then
    match activeRecording t with
    | Some recording =>
        if String.eqb (recording_tagId recording) tagId then
          let newEvent :=
            mkTagEvent newId tagId (recording_startTime recording) currentTime None in
          setActiveRecording None (setTagEvents (tagEvents t ++ [newEvent]) t)
        else
          let newEvent :=
            mkTagEvent newId (recording_tagId recording)
                       (recording_startTime recording) currentTime None in
          setActiveRecording (Some (mkRecording tagId currentTime))
            (setTagEvents (tagEvents t ++ [newEvent]) t)
    | None => setActiveRecording (Some (mkRecording tagId currentTime)) t
    end
  else
    setFilterTagId
      (match filterTagId t with
       | Some current => if String.eqb current tagId then None else Some tagId
       | None => Some tagId
       end) t.

(** The branch of the key handler for a key that is the shortcut of the
    tag [tagId]: outside tagging mode it switches the mode on and calls
    [handleTagClick], which still reads the mode of the current render. *)
Definition tagShortcut (tagId newId : string) (currentTime : Q) (t : Tagging)
  : Tagging :=
  if isTaggingMode t then handleTagClick tagId newId currentTime t
  else setIsTaggingMode true (handleTagClick tagId newId currentTime t).

(** A click on a tag: the tag, the fresh id and the playback position. *)
Record TagClick : Type := mkTagClick {
  click_tagId : string;
  click_newId : string;
  click_time : Q
}.

Definition tagClicks (clicks : list TagClick) (t : Tagging) : Tagging :=
  fold_left
    (fun st c => handleTagClick (click_tagId c) (click_newId c) (click_time c) st)
    clicks t.

(** [confirmDeleteEvent]. *)
Definition confirmDeleteEvent (t : Tagging) : Tagging :=
  match deleteConfirmation t with
  | Some id =>
      let keep := fun e : TagEvent => negb (String.eqb (event_id e) id) in
      setDeleteConfirmation None
        (setPlaylists
           (map (fun p => mkPlaylist (playlist_id p) (playlist_name p)
                                     (filter keep (events p)))
                (playlists t))
           (setTagEvents (filter keep (tagEvents t)) t))
  | None => t
  end.

(** [selectedEventIds.has(id)]. *)
Definition selected (t : Tagging) (id : string) : bool :=
  existsb (String.eqb id) (selectedEventIds t).

(** [addSelectedToPlaylist], on the state. *)
Definition addSelectedToPlaylist (t : Tagging) : Tagging :=
  match selectedEventIds t with
  | [] => t
  | _ =>
      setPlaylists
        (map (fun p =>
                if String.eqb (playlist_id p) (activePlaylistId t) then
                  let newEvents := filter (fun e => selected t (event_id e)) (tagEvents t) in
                  mkPlaylist (playlist_id p) (playlist_name p) (events p ++ newEvents)
                else p)
             (playlists t)) t
  end.

(** ** Array.prototype.splice, as the playlist code uses it *)

(** The index at which [splice(start, ...)] operates on an array of
    length [len]: a negative [start] counts from the end. *)
Definition splice_start (start : Z) (len : nat) : nat :=
  if (start <? 0)%Z then Z.to_nat (Z.max (Z.of_nat len + start) 0)
  else Nat.min (Z.to_nat start) len.

(** [arr.splice(start, 1)]: the removed elements and the array left. *)
Definition splice_delete1 {A : Type} (start : Z) (arr : list A) : list A * list A :=
  let k := splice_start start (List.length arr) in
  (firstn 1 (skipn k arr), firstn k arr ++ skipn (S k) arr).

(** [arr.splice(start, 0, x)]: the array with [x] inserted. *)
Definition splice_insert {A : Type} (start : Z) (x : A) (arr : list A) : list A :=
  let k := splice_start start (List.length arr) in
  firstn k arr ++ x :: skipn k arr.

(** The new event array of [removeEventFromPlaylist]. *)
Definition removeEvent (eventIndex : Z) (evs : list TagEvent) : list TagEvent :=
  snd (splice_delete1 eventIndex evs).

(** The new event array of [reorderPlaylistEvents].  [moved] is
    [undefined] ([None]) when nothing was removed, and is inserted all the
    same, so the array holds events or [undefined]. *)
Definition reorderEvents (fromIndex toIndex : Z) (evs : list TagEvent)
  : list (option TagEvent) :=
  let newEvents := map Some evs in
  let '(removed, rest) := splice_delete1 fromIndex newEvents in
  let moved := match removed with m :: _ => m | [] => None end in
  splice_insert toIndex moved rest.

(** Events that follow one another in time: each starts when or after the
    one before ended (or at [lo] for the first), and ends when or after it
    started. *)
Fixpoint chronological_from (lo : Q) (l : list TagEvent) : Prop :=
  match l with
  | [] => True
  | e :: rest =>
      lo <= startTime e /\ startTime e <= endTime e
      /\ chronological_from (endTime e) rest
  end.

(** The end of the last event, [lo] for no event. *)
Fixpoint last_end (lo : Q) (l : list TagEvent) : Q :=
  match l with
  | [] => lo
  | e :: rest => last_end (endTime e) rest
  end.

(** What the clicks keep true: the events follow one another, the last one
    ended by [now], and a running recording started after it and by
    [now]. *)
Definition recording_invariant (now : Q) (t : Tagging) : Prop :=
  isTaggingMode t = true
  /\ chronological_from 0 (tagEvents t)
  /\ last_end 0 (tagEvents t) <= now
  /\ match activeRecording t with
     | Some r => last_end 0 (tagEvents t) <= recording_startTime r
                 /\ recording_startTime r <= now
     | None => True
     end.

(** Click times that never go back. *)
Fixpoint nondecreasing_from (lo : Q) (clicks : list TagClick) : Prop :=
  match clicks with
  | [] => True
  | c :: rest => lo <= click_time c /\ nondecreasing_from (click_time c) rest
  end.

(** The initial tagging state: two empty playlists, nothing recorded. *)
Definition initialTagging : Tagging :=
  mkTagging [] false None None
    [mkPlaylist "p1" "Highlights" []; mkPlaylist "p2" "Defense" []]
    "p1" [] None.

Definition setSelectedEventIds (v : list string) (t : Tagging) : Tagging :=
  mkTagging (tagEvents t) (isTaggingMode t) (activeRecording t) (filterTagId t)
    (playlists t) (activePlaylistId t) v (deleteConfirmation t).

(** Sample tagging states: two events recorded (ids "b" and "c"), event
    "b" selected and added to the active playlist, its deletion pending. *)
Definition recordedSample : Tagging :=
  tagClicks [mkTagClick "1" "a" 3; mkTagClick "2" "b" 8;
             mkTagClick "2" "c" 8; mkTagClick "1" "d" 20]
    (setIsTaggingMode true initialTagging).

Definition selectedSample : Tagging := setSelectedEventIds ["b"%string] recordedSample.

Definition pendingDeleteSample : Tagging :=
  setDeleteConfirmation (Some "b"%string) (addSelectedToPlaylist selectedSample).

From Stdlib Require Import Permutation Qpower.

(** * The program in double-precision arithmetic

    Where a branch of the program compares a computed number with a
    threshold, the rounding of the IEEE 754 doubles decides the outcome at
    the boundary.  The functions concerned are embedded again in module
    [Double], with every arithmetic operation of the source rounded as
    binary64 rounds it (to the nearest double, ties to the even mantissa).

    A finite double is modelled by the rational number it denotes, so the
    records of the component are the ones above; comparisons, [Math.abs],
    [Math.max], [Math.min] and [Math.ceil] are exact on doubles and stay the
    rational ones.  A result beyond the range of the doubles (overflow to
    [Infinity]) does not occur at the magnitudes of pixel coordinates,
    playback positions and colour bytes and is not modelled; division by 0
    is treated where the source can reach it ([cw / ch], see [js_div]; the
    scale of the layout, see [pointerFinite]). *)

Module Double.

(** ** Rounding *)

(** The integer nearest to [y]; a tie goes to the even one. *)
Definition round_half_even (y : Q) : Z :=
  let f := Qfloor y in
  match Qcompare (y - inject_Z f) (1 # 2) with
  | Lt => f
  | Gt => (f + 1)%Z
  | Eq => if Z.even f then f else (f + 1)%Z
  end.

(** The binary exponent of [x <> 0]: [2 ^ ilog2 x <= |x| < 2 ^ (ilog2 x + 1)]. *)
Definition ilog2 (x : Q) : Z :=
  let k := (Z.log2 (Z.abs (Qnum x)) - Z.log2 (Zpos (Qden x)))%Z in
  if Qle_bool (2 ^ k) (Qabs x) then k else (k - 1)%Z.

(** The double nearest to [x]: 53 significant bits, the smallest exponent
    of the last bit is -1074 (subnormal numbers). *)
Definition fl (x : Q) : Q :=
  if Qeq_bool x 0 then 0
  else
    let e := Z.max (ilog2 x - 52) (-1074) in
    Qred (inject_Z (round_half_even (x / 2 ^ e)) * 2 ^ e).

(** [x + y], [x - y], [x * y] and [x / y] on doubles. *)
Definition fadd (x y : Q) : Q := fl (x + y).
Definition fsub (x y : Q) : Q := fl (x - y).
Definition fmul (x y : Q) : Q := fl (x * y).
Definition fdiv (x y : Q) : Q := fl (x / y).

(** [Math.sqrt(x)] for a double [x >= 0]: the double nearest to the square
    root.  With [y = x / 4 ^ e] and [s] the integer part of the root of
    [y], the root is below [s + 1/2] exactly when [y < (s + 1/2) ^ 2]. *)
Definition fsqrt (x : Q) : Q :=
  if Qle_bool x 0 then 0
  else
    let e := (ilog2 x / 2 - 52)%Z in
    let y := x / 2 ^ (2 * e) in
    let s := Z.sqrt (Qfloor y) in
    let half := inject_Z s + (1 # 2) in
    let m :=
      match Qcompare y (half * half) with
      | Lt => s
      | Gt => (s + 1)%Z
      | Eq => if Z.even s then s else (s + 1)%Z
      end in
    Qred (inject_Z m * 2 ^ e).

(** A radius, which is not negative, as a value of the type of the field
    [r] of a point: it is the square root of its square. *)
Definition radius_value (r : Q) : Surd := Sqrt (r * r).

(** ** Helper functions of the source *)

(** [getDistance]; [Math.pow(d, 2)] is the rounded [d * d]. *)
Definition getDistance (p1 p2 : Point) : Q :=
  let dx := fsub (px p2) (px p1) in
  let dy := fsub (py p2) (py p1) in
  fsqrt (fadd (fmul dx dx) (fmul dy dy)).

(** [a / b] for two unsigned integers. *)
Definition js_div (a b : N) : JsNum :=
  if (b =? 0)%N
  then if (a =? 0)%N then NotANumber else PosInfinity
  else Finite (fdiv (NQ a) (NQ b)).

Definition getVideoLayout (canvas : Canvas) (video : Video) : Layout :=
  let vw := videoWidth video in
  let vh := videoHeight video in
  let cw := canvas_width canvas in
  let ch := canvas_height canvas in
  if no_dimensions video then mkLayout 0 0 (NQ cw) (NQ ch) 1
  else
    let videoRatio := fdiv (NQ vw) (NQ vh) in
    let canvasRatio := js_div cw ch in
    if js_gt canvasRatio videoRatio then
      let drawH := NQ ch in
      let drawW := fmul (NQ ch) videoRatio in
      let drawX := fdiv (fsub (NQ cw) drawW) 2 in
      let drawY := 0 in
      let scale := fdiv drawH (NQ vh) in
      mkLayout drawX drawY drawW drawH scale
    else
      let drawW := NQ cw in
      let drawH := fdiv (NQ cw) videoRatio in
      let drawY := fdiv (fsub (NQ ch) drawH) 2 in
      let drawX := 0 in
      let scale := fdiv drawW (NQ vw) in
      mkLayout drawX drawY drawW drawH scale.

(** [getVideoSpacePoint].  The quotients are doubles unless the scale of
    the layout is 0, see [pointerFinite]. *)
Definition getVideoSpacePoint (canvasRef : option Canvas) (videoRef : option Video)
    (clientX clientY : Q) : Point :=
  match canvasRef, videoRef with
  | Some canvas, Some video =>
      let x := fsub clientX (rect_left canvas) in
      let y := fsub clientY (rect_top canvas) in
      let layout := getVideoLayout canvas video in
      point (fdiv (fsub x (layout_x layout)) (layout_scale layout))
            (fdiv (fsub y (layout_y layout)) (layout_scale layout))
  | _, _ => point 0 0
  end.

Definition eventPoint (env : Env) (e : MouseEvent) : Point :=
  getVideoSpacePoint (canvasRef env) (videoRef env) (clientX e) (clientY e).

(** The coordinates that [getVideoSpacePoint] returns are finite numbers:
    the scale of the layout is not 0.  The scale is 0 for a canvas of
    width or height 0, where the quotients are infinite or [NaN]; such a
    canvas has no area on the screen and receives no mouse event.  The
    pointer handlers are studied for events that satisfy this. *)
Definition pointerFinite (env : Env) : bool :=
  match canvasRef env, videoRef env with
  | Some canvas, Some video =>
      negb (Qeq_bool (layout_scale (getVideoLayout canvas video)) 0)
  | _, _ => true
  end.

(** ** Chroma-key segmentation *)

Definition rgbToHsl (r g b : Q) : Q * Q * Q :=
  let r := fdiv r 255 in
  let g := fdiv g 255 in
  let b := fdiv b 255 in
  let max := Qmax (Qmax r g) b in
  let min := Qmin (Qmin r g) b in
  let l := fdiv (fadd max min) 2 in
  if negb (Qeq_bool max min) then
    let d := fsub max min in
    let s :=
      if Qgtb l 0.5 then fdiv d (fsub (fsub 2 max) min)
      else fdiv d (fadd max min) in
    let h :=
      if Qeq_bool max r then fadd (fdiv (fsub g b) d) (if Qltb g b then 6 else 0)
      else if Qeq_bool max g then fadd (fdiv (fsub b r) d) 2
      else if Qeq_bool max b then fadd (fdiv (fsub r g) d) 4
      else 0 in
    let h := fdiv h 6 in
    (fmul h 360, s, l)
  else (fmul 0 360, 0, l).

(** The literals [0.4], [0.15] and [0.85] denote the nearest doubles. *)
Definition hMin (sensitivityThreshold : Q) : Q :=
  fsub 75 (fmul sensitivityThreshold (fl 0.4)).
Definition hMax (sensitivityThreshold : Q) : Q :=
  fadd 155 (fmul sensitivityThreshold (fl 0.4)).
Definition sMin : Q := fl 0.15.
Definition lMin : Q := fl 0.15.
Definition lMax : Q := fl 0.85.

Definition isGreen (sensitivityThreshold : Q) (p : Pixel) : bool :=
  let '(h, s, l) :=
    rgbToHsl (inject_Z (red p)) (inject_Z (green p)) (inject_Z (blue p)) in
  (Qgeb h (hMin sensitivityThreshold) && Qleb h (hMax sensitivityThreshold))
  && Qgeb s sMin
  && (Qgeb l lMin && Qleb l lMax).

Definition maskPixel (sensitivityThreshold : Q) (p : Pixel) : Pixel * Pixel :=
  if isGreen sensitivityThreshold p then
    (mkPixel (red blank) (green blank) (blue blank) 0,
     mkPixel 239 68 68 102)
  else
    (mkPixel (red p) (green p) (blue p) 255,
     mkPixel (red blank) (green blank) (blue blank) 0).

Fixpoint maskLoop (sensitivityThreshold : Q) (data : list Pixel)
  : list Pixel * list Pixel :=
  match data with
  | [] => ([], [])
  | p :: rest =>
      let '(fg, ov) := maskPixel sensitivityThreshold p in
      let '(fgData, ovData) := maskLoop sensitivityThreshold rest in
      (fg :: fgData, ov :: ovData)
  end.

Definition computeMaskingLayers (videoRef : option Video) (s : State)
  : option MaskLayerCache :=
  match videoRef with
  | None => None
  | Some video =>
      if negb (enabled (maskSettings s)) || isPlaying s then None
      else if (videoWidth video =? 0)%N || (videoHeight video =? 0)%N then None
      else
        let '(fgData, ovData) :=
          maskLoop (sensitivity (maskSettings s)) (frame video) in
        Some (mkMaskLayerCache (Some (OfImageData fgData))
                               (Some (OfImageData ovData))
                               (currentTime video))
  end.

(** The scheduled [computeMaskingLayers] has run. *)
Definition maskRecomputed (env : Env) (s : State) : State :=
  match computeMaskingLayers (videoRef env) s with
  | Some cache => setMaskCache cache s
  | None => s
  end.

(** ** Sprite capture *)

Definition captureSprite (videoRef : option Video) (ctx2d : bool) (s : State)
    (rect : Rect) : option Captured :=
  match videoRef with
  | None => None
  | Some video =>
      let w := Qceiling (rw rect) in
      let h := Qceiling (rh rect) in
      if (w <=? 0)%Z || (h <=? 0)%Z then None
      else
        let bgX := fadd (rx rect) (fmul (inject_Z w) 1.5) in
        let bgX :=
          if Qgtb (fadd bgX (inject_Z w)) (NQ (videoWidth video))
          then fsub (rx rect) (fmul (inject_Z w) 1.5) else bgX in
        let bgX := if Qltb bgX 0 then 0 else bgX in
        let bgY := ry rect in
        if negb ctx2d then None
        else
          let crop :=
            match enabled (maskSettings s), foreground (maskCache s) with
            | true, Some _ => OfCrop FromMaskForeground (rx rect) (ry rect) w h
            | _, _ => OfCrop FromVideo (rx rect) (ry rect) w h
            end in
          let bg := OfCrop FromVideo bgX bgY w h in
          Some (mkCaptured crop bg rect)
  end.

(** The x-position of the background patch that [captureSprite] computes
    for a rectangle at [x] and a sprite of width [width]. *)
Definition patch_x (x width frameWidth : Q) : Q :=
  let bgX := fadd x (fmul width 1.5) in
  let bgX :=
    if Qgtb (fadd bgX width) frameWidth then fsub x (fmul width 1.5) else bgX in
  if Qltb bgX 0 then 0 else bgX.

(** ** Frame compositor *)

(** [isMaskSynced] of [renderCanvas]. *)
Definition isMaskSynced (cache : MaskLayerCache) (currentVideoTime : Q) : bool :=
  negb (Qeq_bool (cache_timestamp cache) (-1))
  && Qltb (Qabs (fsub (cache_timestamp cache) currentVideoTime)) (fl 0.15).

(** [renderCanvas]: the calls it makes on the 2D context, in order, when
    none of them raises an exception. *)
Definition renderCanvas (canvasRef : option Canvas) (videoRef : option Video)
    (ctx2d : bool) (s : State) : list DrawOp :=
  match canvasRef, videoRef with
  | Some canvas, Some video =>
      if negb ctx2d then []
      else
        let layout := getVideoLayout canvas video in
        let x := layout_x layout in
        let y := layout_y layout in
        let w := layout_w layout in
        let h := layout_h layout in
        let scale := layout_scale layout in
        let currentVideoTime := currentTime video in
        let synced := isMaskSynced (maskCache s) currentVideoTime in
        [ClearRect (NQ (canvas_width canvas)) (NQ (canvas_height canvas))]
        ++ (match overlay (maskCache s) with
            | Some bitmap =>
                if enabled (maskSettings s) && negb (isPlaying s)
                   && showOverlay (maskSettings s) && synced
                then [DrawOverlay bitmap x y w h] else []
            | None => []
            end)
        ++ [Save; Translate x y; Scale scale scale]
        ++ flat_map (drawPersistent scale) (shapes s)
        ++ [Restore]
        ++ (match foreground (maskCache s) with
            | Some bitmap =>
                if enabled (maskSettings s) && negb (isPlaying s) && synced
                then [DrawForeground bitmap x y w h] else []
            | None => []
            end)
        ++ [Save; Translate x y; Scale scale scale]
        ++ flat_map (drawLayered scale) (shapes s)
        ++ [Restore]
  | _, _ => []
  end.

(** [drawShapeOnCanvas] has no exception handler, and neither has
    [renderCanvas]: when a call [drawShapeOnCanvas(shape, scale, pass)]
    raises an exception (it does for a stored line whose first point is
    [undefined], at [p1.x]), the frame ends there.  Whether a call raises
    is an input of the model, [raises shape pass]; [completed] keeps the
    calls made before the first one that raises. *)
Fixpoint completed (raises : Shape -> option Pass -> bool) (ops : list DrawOp)
  : list DrawOp :=
  match ops with
  | [] => []
  | DrawShapeOnCanvas shape scale pass :: rest =>
      if raises shape pass then []
      else DrawShapeOnCanvas shape scale pass :: completed raises rest
  | op :: rest => op :: completed raises rest
  end.

(** ** Pointer state machine *)

(** The player-move branch of [finishDrawing]. *)
Definition finishPlayerMove (currentPoint : Point) (now : Z) (s : State)
  : State * option Rect :=
  match playerMoveState s, playerSelectionRect s, capturedSprite s with
  | selecting, Some sel, _ =>
      let w := fsub (px currentPoint) (rx sel) in
      let h := fsub (py currentPoint) (ry sel) in
      if Qltb (Qabs w) 10 || Qltb (Qabs h) 10 then
        (setPlayerSelectionRect None (setPlayerMoveState idle s), None)
      else
        let finalRect :=
          mkRect (if Qgtb w 0 then rx sel else px currentPoint)
                 (if Qgtb h 0 then ry sel else py currentPoint)
                 (Qabs w) (Qabs h) in
        (setPlayerSelectionRect None s, Some finalRect)
  | moving, _, Some captured =>
      let box := captured_box captured in
      let destCenter := currentPoint in
      let newShape :=
        mkShape now (Some player_move)
          [Some (point (fadd (rx box) (fdiv (rw box) 2))
                       (fadd (ry box) (fdiv (rh box) 2)));
           Some destCenter]
          (currentColor (settings s)) (strokeWidth (settings s))
          None None None None
          (Some (sprite captured)) (Some (patch captured)) (Some box)
          now None None None in
      (setCapturedSprite None (setPlayerMoveState idle (addShape newShape s)), None)
  | _, _, _ => (s, None)
  end.

(** The connected-circle branch of [finishDrawing]. *)
Definition finishChain (currentPoint : Point) (now : Z) (s : State) : State :=
  match isDrawing s, currentDragStart s with
  | true, Some dragStart =>
      let radius := getDistance dragStart currentPoint in
      let closes :=
        match activePoints s with
        | first :: _ :: _ =>                       (* activePoints.length >= 2 *)
            let distToStart := getDistance currentPoint first in
            Qltb distToStart 40
        | _ => false
        end in
      if closes then
        let newShape :=
          mkShape now (Some connected_circle)
            (map Some (activePoints s))
            (currentColor (settings s)) (strokeWidth (settings s))
            (Some true) (Some (ringSettings_isFilled (settings s))) None None
            None None None
            now None None
            (Some (mkRingConfig (ringSettings_tilt (settings s)) None)) in
        setCurrentDragStart None
          (setIsDrawing false
            (setActivePoints [] (addShape newShape s)))
      else
        let s1 :=
          if Qgtb radius 5 then
            setActivePoints
              (activePoints s
               ++ [mkPoint (px dragStart) (py dragStart)
                           (Some (radius_value radius)) (Some now)])
              s
          else s in
        setCurrentDragStart None (setIsDrawing false s1)
  | _, _ => s
  end.

(** [finishDrawing], the [onMouseUp] handler; it does not look at the
    button of the event. *)
Definition finishDrawing (env : Env) (e : MouseEvent) (now : Z)
    (particles : list Particle) (s : State) : State * option Rect :=
  match tool s with
  | None | Some masking => (s, None)
  | Some player_move => finishPlayerMove (eventPoint env e) now s
  | Some spotlight =>
      if isDrawing s then
        let '(size, intensity, rotation) := spotlightSettings (settings s) in
        let newShape :=
          mkShape now (Some spotlight) [Some (eventPoint env e)]
            "#ffffff"%string 1 None None None None None None None now
            (Some (mkSpotlightConfig size intensity rotation particles)) None None in
        (addShape newShape (setIsDrawing false s), None)
      else (s, None)
  | Some lens =>
      if isDrawing s then
        let '(size, zoom) := lensSettings (settings s) in
        let newShape :=
          mkShape now (Some lens) [Some (eventPoint env e)]
            "#ffffff"%string 1 None None None None None None None now
            None (Some (mkLensConfig size zoom)) None in
        (addShape newShape (setIsDrawing false s), None)
      else (s, None)
  | Some connected_circle => (finishChain (eventPoint env e) now s, None)
  | Some polygon => (s, None)
  | Some t => (finishStroke t (eventPoint env e) now s, None)
  end.

(** A pointer-up followed by the settling of the capture it started. *)
Definition pointerUp (env : Env) (e : MouseEvent) (now : Z)
    (particles : list Particle) (s : State) : State :=
  match finishDrawing env e now particles s with
  | (s', Some finalRect) =>
      captureSettled (captureSprite (videoRef env) (ctx2d env) s finalRect) s'
  | (s', None) => s'
  end.

(** [startDrawing], the [onMouseDown] handler. *)
Definition startDrawing (env : Env) (e : MouseEvent) (now : Z)
    (particles : list Particle) (s : State) : State * option Rect :=
  if negb (button e =? 0)%Z then (s, None)
  else
    match tool s with
    | None | Some masking => (s, None)
    | Some t =>
        let s1 := if isPlaying s then togglePlay env s else s in
        let s2 :=
          match videoRef env with
          | Some video =>
              let paused_now := if isPlaying s then true else paused video in
              if negb paused_now then setIsPlaying false s1 else s1
          | None => s1
          end in
        let startPoint := eventPoint env e in
        match t with
        | player_move =>
            match playerMoveState s with
            | idle =>
                (setPlayerMoveState selecting
                   (setPlayerSelectionRect
                      (Some (mkRect (px startPoint) (py startPoint) 0 0)) s2), None)
            | moving =>
                let '(s3, req) := finishDrawing env e now particles s in
                (setIsPlaying (isPlaying s2) s3, req)
            | selecting => (s2, None)
            end
        | spotlight | lens => (setIsDrawing true s2, None)
        | connected_circle =>
            (setIsDrawing true (setCurrentDragStart (Some startPoint) s2), None)
        | circle =>
            (setActivePoints [startPoint]
               (setIsDrawing true (setCurrentDragStart (Some startPoint) s2)), None)
        | polygon => (setActivePoints (activePoints s ++ [startPoint]) s2, None)
        | _ => (setActivePoints [startPoint] (setIsDrawing true s2), None)
        end
    end.

(** A pointer-down at [down] followed by a pointer-up at [up]. *)
Definition drag (env : Env) (down up : MouseEvent) (now : Z) (s : State) : State :=
  pointerUp env up now [] (fst (startDrawing env down now [] s)).

(** ** Sample inputs *)

(** A 1344x756 canvas at the origin of the viewport with the paused
    1920x1080 video: the scale is the double nearest to 0.7. *)
Definition pixelEnv : Env :=
  mkEnv (Some (mkCanvas 1344 756 0 0)) (Some hdVideo) true.

(** The chain tool on [pixelEnv] with two accepted nodes, the first of
    them pressed at client position (1, 100). *)
Definition chainTwoNodes : State :=
  drag pixelEnv (mouse 300 300) (mouse 330 300) 2000
    (drag pixelEnv (mouse 1 100) (mouse 15 100) 1000
       (setTool (Some connected_circle) initialState)).

(** The pointer pressed again on [pixelEnv], 39.99... units from the first
    node. *)
Definition chainClosing : State :=
  fst (startDrawing pixelEnv (mouse 28 100) 3000 [] chainTwoNodes).

(** A 1152x648 canvas with the same video: the scale is the double
    nearest to 0.6. *)
Definition smallEnv : Env :=
  mkEnv (Some (mkCanvas 1152 648 0 0)) (Some hdVideo) true.

(** A 336x189 canvas with the same video: the scale is the double
    nearest to 0.175. *)
Definition tinyEnv : Env :=
  mkEnv (Some (mkCanvas 336 189 0 0)) (Some hdVideo) true.

(** The player-move tool on [pixelEnv] after a pointer-down at client
    position (28, 100): the selection starts at x = 40. *)
Definition playerSelecting : State :=
  fst (startDrawing pixelEnv (mouse 28 100) 1000 []
         (setTool (Some player_move) initialState)).

(** The moving phase reached from there by a release at (150, 260). *)
Definition playerMoving : State :=
  pointerUp pixelEnv (mouse 150 260) 2000 [] playerSelecting.

End Double.

(** ** The background test in the words of the design document *)

(** The HSL coordinates of the colour with the bytes [r], [g], [b], in
    exact arithmetic: hue in degrees, saturation and lightness in [0, 1]
    (with chroma [C = (M - m) / 255]: [L = (M + m) / 510],
    [S = C / (1 - |2 L - 1|)], and the hue from the largest channel). *)
Definition hsl (r g b : Z) : Q * Q * Q :=
  let M := Z.max (Z.max r g) b in
  let m := Z.min (Z.min r g) b in
  let L := inject_Z (M + m) / 510 in
  if (M =? m)%Z then (0, 0, L)
  else
    let C := inject_Z (M - m) / 255 in
    let S := C / (1 - Qabs (2 * L - 1)) in
    let H :=
      if (M =? r)%Z then
        let t := inject_Z (g - b) / inject_Z (M - m) in
        if Qltb t 0 then t + 6 else t
      else if (M =? g)%Z then inject_Z (b - r) / inject_Z (M - m) + 2
      else inject_Z (r - g) / inject_Z (M - m) + 4 in
    (60 * H, S, L).

(** A pixel is background: hue in [75 - 0.4 sens, 155 + 0.4 sens],
    saturation at least 0.15, lightness in [0.15, 0.85]. *)
Definition spec_green (sens : Q) (p : Pixel) : Prop :=
  let '(h, s, l) := hsl (red p) (green p) (blue p) in
  (75 - 0.4 * sens <= h /\ h <= 155 + 0.4 * sens) /\
  0.15 <= s /\ (0.15 <= l /\ l <= 0.85).

(** The hue and the saturation of a pixel are more than [margin] away
    from the thresholds they are compared with. *)
Definition clear_of_thresholds (margin sens : Q) (p : Pixel) : Prop :=
  let '(h, s, l) := hsl (red p) (green p) (blue p) in
  margin < Qabs (h - (75 - 0.4 * sens)) /\
  margin < Qabs (h - (155 + 0.4 * sens)) /\
  margin < Qabs (s - 0.15).

(** The three colour channels of a pixel are bytes. *)
Definition byte_pixel (p : Pixel) : Prop :=
  (0 <= red p <= 255)%Z /\ (0 <= green p <= 255)%Z /\ (0 <= blue p <= 255)%Z.

(** ** Accuracy of the double arithmetic *)

(** Half a unit in the last place of a double of magnitude at most 1024:
    [2 ^ -43]. *)
Definition eps : Q := 1 # 8796093022208.

(** The double [c / 255] of a colour byte [c]. *)
Definition channel (c : Z) : Q := Double.fdiv (inject_Z c) 255.

(** ** The primitive binary64 numbers of Rocq

    The rounding of module [Double] is compared with the hardware doubles
    on the computations of the sample runs. *)

From Stdlib Require Import Floats.

(** The rational number that a finite primitive double denotes. *)
Definition of_float (f : float) : Q :=
  match Prim2SF f with
  | S754_finite s m e =>
      Qred ((if s then -1 else 1) * inject_Z (Z.pos m) * 2 ^ e)
  | _ => 0
  end.



(** ** Rounding to the nearest double *)

Section Rounding.

Lemma round_half_even_error (y : Q) :
  Qabs (inject_Z (Double.round_half_even y) - y) <= 1 # 2.
Proof.
  unfold Double.round_half_even.
  pose proof (Qfloor_le y) as H1. pose proof (Qlt_floor y) as H2.
  rewrite inject_Z_plus in H2. change (inject_Z 1) with 1 in H2.
  set (f := Qfloor y) in *.
  assert (Hf : inject_Z (f + 1) == inject_Z f + 1)
    by (rewrite inject_Z_plus; reflexivity).
  apply Qabs_Qle_condition.
  destruct (y - inject_Z f ?= 1 # 2) eqn:E.
  - apply Qeq_alt in E. destruct (Z.even f); rewrite ?Hf; split; lra.
  - apply Qlt_alt in E. split; lra.
  - apply Qgt_alt in E. rewrite Hf. split; lra.
Qed.

Lemma pow2_pos (e : Z) : 0 < 2 ^ e.
Proof. apply Qpower_0_lt. reflexivity. Qed.

Lemma pow2_le (a b : Z) : (a <= b)%Z -> 2 ^ a <= 2 ^ b.
Proof. intros H. apply Qpower_le_compat_l; [exact H | discriminate]. Qed.

(** [2 ^ ilog2 x] is not above [|x|]. *)
Lemma ilog2_le (x : Q) : ~ x == 0 -> 2 ^ Double.ilog2 x <= Qabs x.
Proof.
  intros Hx. unfold Double.ilog2.
  destruct (Qle_bool _ _) eqn:E; [apply Qle_bool_iff; exact E|]. clear E.
  destruct x as [n d]. cbn [Qnum Qden Qabs].
  assert (Hn : (0 < Z.abs n)%Z).
  { destruct (Z.eq_dec n 0) as [->|Hn0]; [exfalso; apply Hx; reflexivity | lia]. }
  set (a := Z.log2 (Z.abs n)). set (b := Z.log2 (Z.pos d)).
  pose proof (Z.log2_spec (Z.abs n) Hn) as [Ha _].
  pose proof (Z.log2_spec (Z.pos d) ltac:(lia)) as [_ Hb].
  fold a in Ha. fold b in Hb.
  assert (Ha0 : (0 <= a)%Z) by apply Z.log2_nonneg.
  assert (Hb0 : (0 <= b)%Z) by apply Z.log2_nonneg.
  replace (a - b - 1)%Z with (a - (b + 1))%Z by lia.
  rewrite Qpower_minus by discriminate.
  change 2 with (inject_Z 2).
  rewrite <- !Zpower_Qpower by lia.
  rewrite (Qmake_Qdiv (Z.abs n) d).
  assert (H2b : 0 < inject_Z (2 ^ (b + 1))).
  { change 0 with (inject_Z 0). rewrite <- Zlt_Qlt. apply Z.pow_pos_nonneg; lia. }
  assert (Hd : 0 < inject_Z (Z.pos d)) by reflexivity.
  apply Qle_shift_div_l; [exact Hd|].
  unfold Qdiv. rewrite <- Qmult_assoc, (Qmult_comm (/ _)), Qmult_assoc.
  apply Qle_shift_div_r; [exact H2b|].
  rewrite <- !inject_Z_mult, <- Zle_Qle.
  replace (Z.succ b) with (b + 1)%Z in Hb by lia.
  apply Z.mul_le_mono_nonneg; lia.
Qed.

(** The error of rounding a number of magnitude at most [2 ^ k] is at most
    half a unit of the last place, [2 ^ (k - 53)]. *)
Lemma fl_error (x : Q) (k : Z) :
  (-1022 <= k)%Z -> Qabs x <= 2 ^ k ->
  Qabs (Double.fl x - x) <= 2 ^ (k - 53).
Proof.
  intros Hk Hx. unfold Double.fl.
  destruct (Qeq_bool x 0) eqn:E0.
  - apply Qeq_bool_iff in E0.
    assert (E : 0 - x == 0) by (rewrite E0; reflexivity).
    rewrite E. apply Qlt_le_weak, pow2_pos.
  - assert (Hx0 : ~ x == 0).
    { intros H. apply Qeq_bool_iff in H. congruence. }
    set (e := Z.max (Double.ilog2 x - 52) (-1074)).
    rewrite Qred_correct.
    set (m := Double.round_half_even (x / 2 ^ e)).
    pose proof (round_half_even_error (x / 2 ^ e)) as Hm. fold m in Hm.
    pose proof (pow2_pos e) as He.
    assert (Hlog : (Double.ilog2 x <= k)%Z).
    { apply (Qpower_le_compat_l_inv 2); [|reflexivity].
      eapply Qle_trans; [apply ilog2_le; exact Hx0 | exact Hx]. }
    assert (Ee : (e <= k - 52)%Z) by (unfold e; lia).
    assert (E : inject_Z m * 2 ^ e - x == (inject_Z m - x / 2 ^ e) * 2 ^ e).
    { field. intros H. rewrite H in He. discriminate. }
    rewrite E, Qabs_Qmult, (Qabs_pos (2 ^ e)) by (apply Qlt_le_weak; exact He).
    apply Qle_trans with ((1 # 2) * 2 ^ e).
    + apply Qmult_le_compat_r; [exact Hm | apply Qlt_le_weak; exact He].
    + apply Qle_trans with ((1 # 2) * 2 ^ (k - 52)).
      * apply Qmult_le_l; [reflexivity | apply pow2_le; exact Ee].
      * replace (k - 52)%Z with ((k - 53) + 1)%Z by lia.
        rewrite Qpower_plus by discriminate.
        assert (E1 : (2 : Q) ^ 1 == 2) by reflexivity.
        rewrite E1. apply Qle_lteq. right. field.
Qed.

(** The error of an operation whose exact result is at most 1024 in
    magnitude is below 1.2e-13. *)
Lemma fl_close (x : Q) :
  Qabs x <= 1024 -> Qabs (Double.fl x - x) <= 1 # 8796093022208.
Proof.
  intros H. apply (fl_error x 10); [lia | exact H].
Qed.

(** The same for a magnitude of at most [2 ^ 20], below 1.2e-10. *)
Lemma fl_close_wide (x : Q) :
  Qabs x <= 1048576 -> Qabs (Double.fl x - x) <= 1 # 8589934592.
Proof.
  intros H. apply (fl_error x 20); [lia | exact H].
Qed.

(** [|x|] is below [2 ^ (ilog2 x + 1)]. *)
Lemma ilog2_lt (x : Q) : ~ x == 0 -> Qabs x < 2 ^ (Double.ilog2 x + 1).
Proof.
  intros Hx. unfold Double.ilog2.
  destruct (Qle_bool _ _) eqn:E.
  - clear E. destruct x as [n d]. cbn [Qnum Qden Qabs].
    assert (Hn : (0 < Z.abs n)%Z).
    { destruct (Z.eq_dec n 0) as [->|Hn0]; [exfalso; apply Hx; reflexivity | lia]. }
    set (a := Z.log2 (Z.abs n)). set (b := Z.log2 (Z.pos d)).
    pose proof (Z.log2_spec (Z.abs n) Hn) as [_ Ha].
    pose proof (Z.log2_spec (Z.pos d) ltac:(lia)) as [Hb _].
    fold a in Ha. fold b in Hb.
    assert (Ha0 : (0 <= a)%Z) by apply Z.log2_nonneg.
    assert (Hb0 : (0 <= b)%Z) by apply Z.log2_nonneg.
    replace (a - b + 1)%Z with ((a + 1) - b)%Z by lia.
    rewrite Qpower_minus by discriminate.
    change 2 with (inject_Z 2).
    rewrite <- !Zpower_Qpower by lia.
    rewrite (Qmake_Qdiv (Z.abs n) d).
    assert (H2b : 0 < inject_Z (2 ^ b)).
    { change 0 with (inject_Z 0). rewrite <- Zlt_Qlt. apply Z.pow_pos_nonneg; lia. }
    assert (Hd : 0 < inject_Z (Z.pos d)) by reflexivity.
    apply Qlt_shift_div_r; [exact Hd|].
    unfold Qdiv. rewrite <- Qmult_assoc, (Qmult_comm (/ _)), Qmult_assoc.
    apply Qlt_shift_div_l; [exact H2b|].
    rewrite <- !inject_Z_mult, <- Zlt_Qlt.
    replace (Z.succ a) with (a + 1)%Z in Ha by lia.
    assert (P : (0 < 2 ^ b)%Z) by (apply Z.pow_pos_nonneg; lia).
    nia.
  - replace (_ - 1 + 1)%Z with
      (Z.log2 (Z.abs (Qnum x)) - Z.log2 (Z.pos (Qden x)))%Z by lia.
    apply Qnot_le_lt. intros H. apply Qle_bool_iff in H. congruence.
Qed.

(** The relative error of rounding a number of magnitude at least 1/8 is
    at most [2 ^ -52]. *)
Lemma fl_relative (x : Q) :
  1 # 8 <= Qabs x ->
  Qabs (Double.fl x - x) <= Qabs x * (1 # 4503599627370496).
Proof.
  intros H.
  assert (Hx : ~ x == 0).
  { intros E. rewrite E in H. apply H. reflexivity. }
  pose proof (ilog2_le x Hx) as Hlo. pose proof (ilog2_lt x Hx) as Hhi.
  set (k := Double.ilog2 x) in *.
  assert (Hk : (-3 <= k + 1)%Z).
  { apply (Qpower_le_compat_l_inv 2); [|reflexivity].
    apply Qlt_le_weak. eapply Qle_lt_trans; [|exact Hhi]. exact H. }
  pose proof (fl_error x (k + 1) ltac:(lia) (Qlt_le_weak _ _ Hhi)) as He.
  replace (k + 1 - 53)%Z with (k + (-52))%Z in He by lia.
  rewrite Qpower_plus in He by discriminate.
  eapply Qle_trans; [exact He|].
  apply Qmult_le_compat_r; [exact Hlo | discriminate].
Qed.

Lemma fl_0 : Double.fl 0 = 0.
Proof. reflexivity. Qed.

End Rounding.

(** ** The double square root *)

Section SquareRoot.



End SquareRoot.

(** ** Agreement with the hardware doubles *)

(** The literals of the source. *)
Example double_literals :
  Double.fl 0.15 = of_float 0x1.3333333333333p-3
  /\ Double.fl 0.4 = of_float 0x1.999999999999ap-2
  /\ Double.fl 0.85 = of_float 0x1.b333333333333p-1
  /\ Double.fl 10.15 = of_float 0x1.44ccccccccccdp+3
  /\ Double.fl 9.85 = of_float 0x1.3b33333333333p+3.
Proof. repeat split; vm_compute; reflexivity. Qed.

(** [rgbToHsl(51, 69, 51)]: hue, saturation and lightness. *)
Example double_rgbToHsl_sample :
  Double.rgbToHsl 51 69 51
  = (of_float (let r := 51 / 255 in let g := 69 / 255 in
               ((r - r) / (g - r) + 2) / 6 * 360)%float,
     of_float (let r := 51 / 255 in let g := 69 / 255 in
               (g - r) / (g + r))%float,
     of_float (let r := 51 / 255 in let g := 69 / 255 in
               (g + r) / 2)%float).
Proof. vm_compute. reflexivity. Qed.

(** The pointer position of client (29, 100) on the 1344x756 canvas and
    its distance to the position of client (1, 100). *)
Example double_pointer_sample :
  let layoutY := (let drawH := 1344 / (1920 / 1080) in (756 - drawH) / 2)%float in
  let scale := (1344 / 1920)%float in
  Double.eventPoint Double.pixelEnv (mouse 29 100)
  = point (of_float ((29 - 0 - 0) / scale)%float)
          (of_float ((100 - 0 - layoutY) / scale)%float)
  /\ Double.getDistance (Double.eventPoint Double.pixelEnv (mouse 29 100))
                        (Double.eventPoint Double.pixelEnv (mouse 1 100))
     = of_float (let x1 := (29 - 0 - 0) / scale in
                 let x2 := (1 - 0 - 0) / scale in
                 let y := (100 - 0 - layoutY) / scale in
                 PrimFloat.sqrt ((x2 - x1) * (x2 - x1) + (y - y) * (y - y)))%float.
Proof. vm_compute. split; reflexivity. Qed.

(** The patch position of a 672-wide sprite at x = 240.00000000000003 and
    the mask test of a cache sampled at 10 at the position 10.15. *)
Example double_capture_and_sync_sample :
  Double.patch_x (of_float 0x1.e000000000001p+7) 672 1920
  = of_float (0x1.e000000000001p+7 + 672 * 1.5)%float
  /\ Double.fadd (Double.fadd (of_float 0x1.e000000000001p+7)
                              (Double.fmul 672 1.5)) 672
     = of_float (0x1.e000000000001p+7 + 672 * 1.5 + 672)%float
  /\ Qabs (Double.fsub 10 (Double.fl 10.15))
     = of_float (abs (10 - 0x1.44ccccccccccdp+3))%float.
Proof. vm_compute. repeat split; reflexivity. Qed.

(** * Properties *)

(** ** Facts about the boolean comparisons *)

Lemma Qltb_lt (x y : Q) : Qltb x y = true <-> x < y.
Proof.
  unfold Qltb. rewrite negb_true_iff, <- not_true_iff_false, Qle_bool_iff.
  split; [apply Qnot_le_lt | apply Qlt_not_le].
Qed.

Lemma Qltb_ge (x y : Q) : Qltb x y = false <-> y <= x.
Proof.
  unfold Qltb. rewrite negb_false_iff. apply Qle_bool_iff.
Qed.

Lemma Qleb_le (x y : Q) : Qleb x y = true <-> x <= y.
Proof. apply Qle_bool_iff. Qed.

Lemma Qleb_gt (x y : Q) : Qleb x y = false <-> y < x.
Proof.
  unfold Qleb. rewrite <- not_true_iff_false, Qle_bool_iff.
  split; [apply Qnot_le_lt | apply Qlt_not_le].
Qed.

Lemma Qgtb_gt (x y : Q) : Qgtb x y = true <-> y < x.
Proof. apply Qltb_lt. Qed.

Lemma Qgtb_le (x y : Q) : Qgtb x y = false <-> x <= y.
Proof. apply Qltb_ge. Qed.

Lemma Qgeb_ge (x y : Q) : Qgeb x y = true <-> y <= x.
Proof. apply Qleb_le. Qed.

Lemma NQ_nonneg (n : N) : 0 <= NQ n.
Proof. unfold NQ, Qle; simpl. lia. Qed.

Lemma NQ_pos (n : N) : n <> 0%N -> 0 < NQ n.
Proof. intros H. unfold NQ, Qlt; simpl. lia. Qed.

Lemma NQ_0 : NQ 0 == 0.
Proof. reflexivity. Qed.

(** ** Coordinate mapper *)

Section ContainFit.

Lemma Qdiv_lt_iff (x y z : Q) : 0 < y -> (x / y < z <-> x < z * y).
Proof.
  intros Hy. split; intros H.
  - apply (Qmult_lt_r _ _ y Hy) in H.
    assert (E : x / y * y == x) by (field; lra).
    rewrite E in H. exact H.
  - apply Qlt_shift_div_r; assumption.
Qed.

Lemma Qlt_div_iff (x y z : Q) : 0 < z -> (x < y / z <-> x * z < y).
Proof.
  intros Hz. split; intros H.
  - apply (Qmult_lt_r _ _ z Hz) in H.
    assert (E : y / z * z == y) by (field; lra).
    rewrite E in H. exact H.
  - apply Qlt_shift_div_l; assumption.
Qed.

(** Comparing the aspect ratios is comparing the two fit ratios. *)
Lemma ratio_cross (a b v u : Q) :
  0 < b -> 0 < v -> 0 < u -> (v / u < a / b <-> b / u < a / v).
Proof.
  intros Hb Hv Hu.
  rewrite (Qdiv_lt_iff v u (a / b) Hu), (Qdiv_lt_iff b u (a / v) Hu).
  assert (E1 : a / b * u == a * u / b) by (field; lra).
  assert (E2 : a / v * u == a * u / v) by (field; lra).
  rewrite E1, E2.
  rewrite (Qlt_div_iff v (a * u) b Hb), (Qlt_div_iff b (a * u) v Hv).
  rewrite (Qmult_comm v b). reflexivity.
Qed.

Lemma layout_eq_refl (l : Layout) : layout_eq l l.
Proof. unfold layout_eq; repeat split; reflexivity. Qed.

(** The height-fit branch: [ch / vh] is the smaller ratio. *)
Lemma fit_height (a b v u : Q) :
  0 < v -> 0 < u -> b / u <= a / v ->
  layout_eq
    (mkLayout ((a - b * (v / u)) / 2) 0 (b * (v / u)) b (b / u))
    (mkLayout ((a - v * Qmin (a / v) (b / u)) / 2)
              ((b - u * Qmin (a / v) (b / u)) / 2)
              (v * Qmin (a / v) (b / u)) (u * Qmin (a / v) (b / u))
              (Qmin (a / v) (b / u))).
Proof.
  intros Hv Hu Hle. unfold layout_eq; simpl.
  rewrite (Q.min_r _ _ Hle).
  repeat split; try reflexivity; field; lra.
Qed.

(** The width-fit branch: [cw / vw] is the smaller ratio. *)
Lemma fit_width (a b v u : Q) :
  0 < v -> 0 < u -> a / v <= b / u ->
  layout_eq
    (mkLayout 0 ((b - a / (v / u)) / 2) a (a / (v / u)) (a / v))
    (mkLayout ((a - v * Qmin (a / v) (b / u)) / 2)
              ((b - u * Qmin (a / v) (b / u)) / 2)
              (v * Qmin (a / v) (b / u)) (u * Qmin (a / v) (b / u))
              (Qmin (a / v) (b / u))).
Proof.
  intros Hv Hu Hle. unfold layout_eq; simpl.
  rewrite (Q.min_l _ _ Hle).
  repeat split; try reflexivity; field; lra.
Qed.

Lemma getVideoLayout_is_contain_fit (canvas : Canvas) (video : Video) :
  layout_eq (getVideoLayout canvas video)
            (contain_fit (canvas_width canvas) (canvas_height canvas)
                         (videoWidth video) (videoHeight video)).
Proof.
  unfold getVideoLayout, contain_fit, no_dimensions.
  destruct canvas as [cw ch cl ct], video as [vw vh t p f]; simpl.
  destruct (vw =? 0)%N eqn:Ew; [apply layout_eq_refl|].
  destruct (vh =? 0)%N eqn:Eh; [apply layout_eq_refl|]. simpl.
  apply N.eqb_neq in Ew, Eh.
  pose proof (NQ_pos vw Ew) as Hv. pose proof (NQ_pos vh Eh) as Hu.
  pose proof (NQ_nonneg cw) as Ha.
  unfold js_div.
  destruct (ch =? 0)%N eqn:Ec.
  - apply N.eqb_eq in Ec; subst ch.
    assert (Hz : NQ 0 / NQ vh == 0) by (rewrite NQ_0; field; lra).
    destruct (cw =? 0)%N eqn:Ecw; simpl.
    + apply N.eqb_eq in Ecw; subst cw.
      apply fit_width; [assumption | assumption |].
      rewrite NQ_0. unfold Qdiv. rewrite !Qmult_0_l. apply Qle_refl.
    + apply fit_height; [assumption | assumption |]. rewrite Hz.
      apply Qle_shift_div_l; lra.
  - apply N.eqb_neq in Ec. pose proof (NQ_pos ch Ec) as Hb. simpl.
    destruct (Qgtb (NQ cw / NQ ch) (NQ vw / NQ vh)) eqn:Eg.
    + apply Qgtb_gt in Eg. apply ratio_cross in Eg; try assumption.
      apply fit_height; [assumption | assumption |].
      apply Qlt_le_weak; exact Eg.
    + apply Qgtb_le in Eg. apply fit_width; [assumption | assumption |].
      apply Qnot_lt_le. intros Hc. apply ratio_cross in Hc; try assumption.
      apply Qlt_not_le in Hc. contradiction.
Qed.

End ContainFit.

(** C1.  [getVideoLayout] is the contain-fit mapping for every canvas and
    media size: its scale is [min(canvasW/mediaW, canvasH/mediaH)] and the
    scaled media rectangle is centred ([contain_fit]); when the media width
    or height is 0 (not known yet) it returns scale 1 and the full canvas.
    For media 1920x1080 on a canvas 800x600 the scale is 5/12 (0.4167
    within 0.0001), the draw rectangle is 800x450 at (0, 75), and the
    pointer at (400, 300) of the canvas maps to (960, 540). *)
Theorem C1_contain_fit_mapping :
  (forall canvas video,
      layout_eq (getVideoLayout canvas video)
                (contain_fit (canvas_width canvas) (canvas_height canvas)
                             (videoWidth video) (videoHeight video)))
  /\ (forall canvas vh t p f,
         getVideoLayout canvas (mkVideo 0 vh t p f)
         = mkLayout 0 0 (NQ (canvas_width canvas)) (NQ (canvas_height canvas)) 1)
  /\ (forall canvas vw t p f,
         getVideoLayout canvas (mkVideo vw 0 t p f)
         = mkLayout 0 0 (NQ (canvas_width canvas)) (NQ (canvas_height canvas)) 1)
  /\ (forall left top t p f,
         let canvas := mkCanvas 800 600 left top in
         let video := mkVideo 1920 1080 t p f in
         let layout := getVideoLayout canvas video in
         let click := getVideoSpacePoint (Some canvas) (Some video)
                                         (left + 400) (top + 300) in
         layout_scale layout == Qmin (800 / 1920) (600 / 1080)
         /\ Qabs (layout_scale layout - 0.4167) < 0.0001
         /\ layout_w layout == 800 /\ layout_h layout == 450
         /\ layout_x layout == 0 /\ layout_y layout == 75
         /\ px click == 960 /\ py click == 540).
Proof.
  split; [exact getVideoLayout_is_contain_fit|].
  split; [intros; reflexivity|].
  split.
  - intros canvas vw t p f. unfold getVideoLayout, no_dimensions; simpl.
    rewrite orb_true_r. reflexivity.
  - intros left top t p f. cbv zeta.
    repeat split; try reflexivity.
    + unfold getVideoSpacePoint, point, px. 
      change (getVideoLayout (mkCanvas 800 600 left top) (mkVideo 1920 1080 t p f))
        with (mkLayout 0 ((600 - 800 / (1920 / 1080)) / 2) 800 (800 / (1920 / 1080)) (800 / 1920)).
      simpl. field.
    + unfold getVideoSpacePoint, point, py.
      change (getVideoLayout (mkCanvas 800 600 left top) (mkVideo 1920 1080 t p f))
        with (mkLayout 0 ((600 - 800 / (1920 / 1080)) / 2) 800 (800 / (1920 / 1080)) (800 / 1920)).
      simpl. field.
Qed.

(** ** Shape history *)

Section History.

Lemma last_cons {A : Type} (l : list A) (a d : A) :
  List.last (a :: l) d = List.last l a.
Proof.
  revert a d. induction l as [|b l IH]; intros a d; [reflexivity|].
  change (List.last (a :: b :: l) d) with (List.last (b :: l) d).
  rewrite (IH b d), (IH b a). reflexivity.
Qed.

Lemma last_snoc_cons {A : Type} (xs : list A) (x first : A) (rest : list A) :
  first :: rest = xs ++ [x] -> List.last rest first = x.
Proof.
  intros E. rewrite <- (last_cons rest first first), E. apply last_last.
Qed.

Lemma undo_snoc (s : State) (xs : list Shape) (x : Shape) :
  shapes s = xs ++ [x] ->
  shapes (undo s) = xs /\ redoStack (undo s) = redoStack s ++ [[x]].
Proof.
  intros E. unfold undo.
  destruct (shapes s) as [|first rest] eqn:Es.
  - destruct xs; discriminate.
  - rewrite (last_snoc_cons xs x first rest E).
    unfold setShapes, setRedoStack; cbn [shapes redoStack].
    rewrite E, removelast_last. split; reflexivity.
Qed.

Lemma redo_snoc (s : State) (gs : list (list Shape)) (x : Shape) (more : list Shape) :
  redoStack s = gs ++ [x :: more] ->
  shapes (redo s) = shapes s ++ [x] /\ redoStack (redo s) = gs.
Proof.
  intros E. unfold redo.
  destruct (redoStack s) as [|first rest] eqn:Es.
  - destruct gs; discriminate.
  - rewrite (last_snoc_cons gs (x :: more) first rest E).
    unfold setShapes, setRedoStack; cbn [shapes redoStack].
    rewrite E, removelast_last. split; reflexivity.
Qed.

Lemma addShape_shapes (shape : Shape) (s : State) :
  shapes (addShape shape s) = shapes s ++ [shape].
Proof. reflexivity. Qed.

Lemma addShape_redoStack (shape : Shape) (s : State) :
  redoStack (addShape shape s) = [].
Proof. reflexivity. Qed.

Lemma addShapes_shapes (l : list Shape) (s : State) :
  shapes (addShapes l s) = shapes s ++ l.
Proof.
  revert s. induction l as [|x l IH]; intros s; simpl.
  - symmetry; apply app_nil_r.
  - unfold addShapes in IH. rewrite IH, addShape_shapes, <- app_assoc.
    reflexivity.
Qed.

Lemma addShapes_redoStack (l : list Shape) (s : State) :
  redoStack s = [] -> redoStack (addShapes l s) = [].
Proof.
  revert s. induction l as [|x l IH]; intros s Hs; simpl; [exact Hs|].
  apply IH, addShape_redoStack.
Qed.

(** [n] undos move the last [n] shapes to the redo stack, most recently
    added first. *)
Lemma undo_all (l : list Shape) :
  forall s, shapes s = l ->
    shapes (iterate (List.length l) undo s) = []
    /\ redoStack (iterate (List.length l) undo s)
       = redoStack s ++ map (fun shape => [shape]) (rev l).
Proof.
  induction l as [|x l IH] using rev_ind; intros s Hs.
  - simpl. rewrite app_nil_r. split; [exact Hs | reflexivity].
  - rewrite length_app, Nat.add_comm. simpl.
    destruct (undo_snoc s l x Hs) as [H1 H2].
    destruct (IH (undo s) H1) as [H3 H4].
    split; [exact H3|].
    rewrite H4, H2, rev_app_distr, <- app_assoc. reflexivity.
Qed.

(** [n] redos put the shapes of the [n] groups back, last group first. *)
Lemma redo_all (l : list Shape) :
  forall s, redoStack s = map (fun shape => [shape]) (rev l) ->
    shapes (iterate (List.length l) redo s) = shapes s ++ l
    /\ redoStack (iterate (List.length l) redo s) = [].
Proof.
  induction l as [|x l IH]; intros s Hs.
  - simpl. rewrite app_nil_r. split; [reflexivity | exact Hs].
  - simpl in Hs. rewrite map_app in Hs. simpl in Hs. simpl.
    destruct (redo_snoc s _ x [] Hs) as [H1 H2].
    destruct (IH (redo s) H2) as [H3 H4].
    split; [|exact H4].
    rewrite H3, H1, <- app_assoc. reflexivity.
Qed.

Lemma singleton_groups_addShape (shape : Shape) (s : State) :
  singleton_groups (addShape shape s).
Proof. constructor. Qed.

Lemma singleton_groups_undo (s : State) :
  singleton_groups s -> singleton_groups (undo s).
Proof.
  unfold singleton_groups, undo. intros H.
  destruct (shapes s); [exact H|]. simpl.
  apply Forall_app; split; [exact H|]. repeat constructor.
Qed.

Lemma singleton_groups_redo (s : State) :
  singleton_groups s -> singleton_groups (redo s).
Proof.
  unfold singleton_groups, redo. intros H.
  destruct (redoStack s) as [|first rest] eqn:E; [rewrite E; exact H|].
  assert (Hr : Forall (fun group => List.length group = 1%nat)
                      (removelast (first :: rest))).
  { rewrite (app_removelast_last first (l := first :: rest)) in H
      by discriminate.
    apply Forall_app in H. apply H. }
  destruct (List.last rest first);
    unfold setShapes, setRedoStack; cbn [shapes redoStack]; exact Hr.
Qed.

End History.

(** C2.  From an empty history, after [addShape] of the shapes of [l]
    (N = length of [l]) the history is [l]; N calls of [undo] empty the
    history and leave the N shapes on the redo stack in reverse order (one
    per group); N calls of [redo] from there restore [l] and empty the redo
    stack; and [addShape] in any state leaves the redo stack empty. *)
Theorem C2_history_discipline :
  forall (s0 : State) (l : list Shape),
    let start := setRedoStack [] (setShapes [] s0) in
    let added := addShapes l start in
    let undone := iterate (List.length l) undo added in
    let redone := iterate (List.length l) redo undone in
    (shapes added = l /\ redoStack added = [])
    /\ (shapes undone = [] /\
        redoStack undone = map (fun shape => [shape]) (rev l))
    /\ (shapes redone = l /\ redoStack redone = [])
    /\ (forall (s : State) (shape : Shape),
           shapes (addShape shape s) = shapes s ++ [shape]
           /\ redoStack (addShape shape s) = []).
Proof.
  intros s0 l start added undone redone.
  assert (Ha : shapes added = l) by (unfold added; apply addShapes_shapes).
  assert (Hr : redoStack added = [])
    by (unfold added; apply addShapes_redoStack; reflexivity).
  destruct (undo_all l added Ha) as [Hu1 Hu2]. rewrite Hr in Hu2. simpl in Hu2.
  destruct (redo_all l undone Hu2) as [Hd1 Hd2].
  fold undone in Hu1, Hu2. fold redone in Hd1, Hd2. rewrite Hu1 in Hd1.
  repeat split; assumption || reflexivity.
Qed.

(** C10.  [undo] on an empty history and [redo] on an empty redo stack
    return the state as it is: history and redo stack are unchanged. *)
Theorem C10_undo_redo_empty_noop :
  forall s : State,
    (shapes s = [] -> undo s = s)
    /\ (redoStack s = [] -> redo s = s).
Proof.
  intros s. split; intros H.
  - unfold undo. rewrite H. reflexivity.
  - unfold redo. rewrite H. reflexivity.
Qed.

Lemma C10_undo_redo_empty_noop_witness :
  undo initialState = initialState /\ redo initialState = initialState.
Proof.
  split.
  - apply (proj1 (C10_undo_redo_empty_noop initialState)). reflexivity.
  - apply (proj2 (C10_undo_redo_empty_noop initialState)). reflexivity.
Defined.

(** ** Chroma-key segmentation *)

Section Segmentation.

(** The loop treats each pixel on its own. *)
Lemma maskLoop_map (sens : Q) (data : list Pixel) :
  maskLoop sens data
  = (map (fun p => fst (maskPixel sens p)) data,
     map (fun p => snd (maskPixel sens p)) data).
Proof.
  induction data as [|p rest IH]; [reflexivity|].
  simpl. rewrite IH. destruct (maskPixel sens p). reflexivity.
Qed.

(** Widening the sensitivity widens the hue band. *)
Lemma isGreen_monotone (s1 s2 : Q) (p : Pixel) :
  s1 <= s2 -> isGreen s1 p = true -> isGreen s2 p = true.
Proof.
  intros Hle. unfold isGreen, hMin, hMax.
  destruct (rgbToHsl _ _ _) as [[h s] l].
  rewrite !andb_true_iff, !Qgeb_ge, !Qleb_le.
  intros [[[H1 H2] H3] H4]. repeat split; try assumption; try apply H4; lra.
Qed.

(** The test reads the three colour bytes only. *)
Lemma isGreen_colour (sens : Q) (p q : Pixel) :
  red p = red q -> green p = green q -> blue p = blue q ->
  isGreen sens p = isGreen sens q.
Proof.
  intros Hr Hg Hb. unfold isGreen. rewrite Hr, Hg, Hb. reflexivity.
Qed.

End Segmentation.

(** C7.  The classification of a pixel is a function of its colour and of
    the sensitivity alone (two pixels of the same colour, wherever they
    are and whatever their alpha, are classified alike), and it is
    monotone in the sensitivity: a pixel that is background at [s1] is
    background at every [s2 >= s1]. *)
Theorem C7_classification_deterministic_monotone :
  forall (s1 s2 : Q) (p q : Pixel),
    s1 <= s2 ->
    red p = red q -> green p = green q -> blue p = blue q ->
    isGreen s1 p = isGreen s1 q
    /\ fst (maskPixel s1 p) = fst (maskPixel s1 q)
    /\ snd (maskPixel s1 p) = snd (maskPixel s1 q)
    /\ (isGreen s1 p = true -> isGreen s2 p = true).
Proof.
  intros s1 s2 p q Hle Hr Hg Hb.
  pose proof (isGreen_colour s1 p q Hr Hg Hb) as E.
  repeat split.
  - exact E.
  - unfold maskPixel. rewrite E.
    destruct (isGreen s1 q); simpl; rewrite ?Hr, ?Hg, ?Hb; reflexivity.
  - unfold maskPixel. rewrite E.
    destruct (isGreen s1 q); reflexivity.
  - apply isGreen_monotone; exact Hle.
Qed.

Lemma C7_classification_deterministic_monotone_witness :
  isGreen 0 (mkPixel 0 255 0 255) = isGreen 0 (mkPixel 0 255 0 17)
  /\ fst (maskPixel 0 (mkPixel 0 255 0 255)) = fst (maskPixel 0 (mkPixel 0 255 0 17))
  /\ snd (maskPixel 0 (mkPixel 0 255 0 255)) = snd (maskPixel 0 (mkPixel 0 255 0 17))
  /\ (isGreen 0 (mkPixel 0 255 0 255) = true ->
      isGreen 100 (mkPixel 0 255 0 255) = true).
Proof.
  apply (C7_classification_deterministic_monotone
           0 100 (mkPixel 0 255 0 255) (mkPixel 0 255 0 17)).
  - vm_compute; discriminate.
  - reflexivity.
  - reflexivity.
  - reflexivity.
Defined.

(** The layers of the sample frame: the green pixel is removed and marked,
    the red pixel is kept. *)
Example maskLoop_sample :
  maskLoop 40 (frame sampleVideo)
  = ([mkPixel 0 0 0 0; mkPixel 255 0 0 255],
     [mkPixel 239 68 68 102; mkPixel 0 0 0 0]).
Proof. reflexivity. Qed.

(** A yellow-green pixel (hue about 70 degrees) is foreground at
    sensitivity 0 and background at sensitivity 100. *)
Example isGreen_widening :
  isGreen 0 (mkPixel 212 255 0 255) = false
  /\ isGreen 100 (mkPixel 212 255 0 255) = true.
Proof. split; reflexivity. Qed.

(** Hue, saturation and lightness of pure green: 120 degrees, 1, 1/2. *)
Example rgbToHsl_green :
  let '(h, s, l) := rgbToHsl 0 255 0 in h == 120 /\ s == 1 /\ l == 1 # 2.
Proof. vm_compute. repeat split; reflexivity. Qed.

(** ** Accuracy of [rgbToHsl] in double arithmetic *)

Section Accuracy.


(** Bounds on absolute values, as pairs of inequalities. *)
Ltac unabs_hyps :=
  unfold eps in *;
  repeat match goal with
         | H : Qabs _ <= _ |- _ => apply Qabs_Qle_condition in H; destruct H
         end.
Ltac unabs :=
  unabs_hyps;
  repeat match goal with
         | |- Qabs _ <= _ => apply Qabs_Qle_condition; split
         end.

(** Rounding a value that is within [a] of [y] gives a value within
    [a + eps] of [y]. *)
Lemma fl_step (x y a : Q) :
  Qabs (x - y) <= a -> Qabs y <= 1000 -> a <= 1 ->
  Qabs (Double.fl x - y) <= a + eps.
Proof.
  intros Hx Hy Ha.
  assert (Hb : Qabs x <= 1024) by (unabs; lra).
  pose proof (fl_close x Hb) as Hf.
  unabs; lra.
Qed.

Lemma byte_unit (z : Z) :
  (0 <= z <= 255)%Z -> 0 <= inject_Z z / 255 /\ inject_Z z / 255 <= 1.
Proof.
  intros [H0 H1]. rewrite Zle_Qle in H0, H1.
  change (inject_Z 0) with 0 in H0. change (inject_Z 255) with 255 in H1.
  split; [apply Qle_shift_div_l | apply Qle_shift_div_r]; lra.
Qed.

Lemma byte_close (z : Z) :
  (0 <= z <= 255)%Z -> Qabs (channel z - inject_Z z / 255) <= eps.
Proof.
  intros H. destruct (byte_unit z H) as [H0 H1].
  unfold channel, Double.fdiv. apply fl_close. unabs; lra.
Qed.

Lemma byte_gap (a b : Z) :
  (a < b)%Z -> inject_Z a / 255 + (1 # 255) <= inject_Z b / 255.
Proof.
  intros H. assert (H' : (a + 1 <= b)%Z) by lia.
  rewrite Zle_Qle, inject_Z_plus in H'. change (inject_Z 1) with 1 in H'.
  assert (E1 : inject_Z a / 255 == inject_Z a * (1 # 255)) by field.
  assert (E2 : inject_Z b / 255 == inject_Z b * (1 # 255)) by field.
  rewrite E1, E2. lra.
Qed.

Lemma byte_lt (a b : Z) :
  (0 <= a <= 255)%Z -> (0 <= b <= 255)%Z -> (a < b)%Z -> channel a < channel b.
Proof.
  intros Ha Hb Hlt.
  pose proof (byte_close a Ha). pose proof (byte_close b Hb).
  pose proof (byte_gap a b Hlt). unabs. lra.
Qed.

Lemma byte_compare (a b : Z) :
  (0 <= a <= 255)%Z -> (0 <= b <= 255)%Z ->
  (channel a ?= channel b) = (a ?= b)%Z.
Proof.
  intros Ha Hb. destruct (Z.compare_spec a b) as [E|E|E].
  - subst. apply Qeq_alt. reflexivity.
  - apply Qlt_alt, byte_lt; assumption.
  - apply Qgt_alt, byte_lt; assumption.
Qed.

Lemma byte_max (a b : Z) :
  (0 <= a <= 255)%Z -> (0 <= b <= 255)%Z -> Qmax (channel a) (channel b) = channel (Z.max a b).
Proof.
  intros Ha Hb. unfold Qmax, GenericMinMax.gmax, Z.max.
  rewrite (byte_compare a b Ha Hb). destruct (a ?= b)%Z; reflexivity.
Qed.

Lemma byte_min (a b : Z) :
  (0 <= a <= 255)%Z -> (0 <= b <= 255)%Z -> Qmin (channel a) (channel b) = channel (Z.min a b).
Proof.
  intros Ha Hb. unfold Qmin, GenericMinMax.gmin, Z.min.
  rewrite (byte_compare a b Ha Hb). destruct (a ?= b)%Z; reflexivity.
Qed.

Lemma byte_eqb (a b : Z) :
  (0 <= a <= 255)%Z -> (0 <= b <= 255)%Z -> Qeq_bool (channel a) (channel b) = (a =? b)%Z.
Proof.
  intros Ha Hb. pose proof (byte_compare a b Ha Hb) as E.
  destruct (Z.eqb_spec a b) as [Heq|Hne].
  - subst. apply Qeq_bool_iff. reflexivity.
  - destruct (Qeq_bool (channel a) (channel b)) eqn:Eq; [|reflexivity].
    apply Qeq_bool_iff, Qeq_alt in Eq. rewrite Eq in E.
    symmetry in E. apply Z.compare_eq in E. contradiction.
Qed.

Lemma byte_ltb (a b : Z) :
  (0 <= a <= 255)%Z -> (0 <= b <= 255)%Z -> Qltb (channel a) (channel b) = (a <? b)%Z.
Proof.
  intros Ha Hb. pose proof (byte_compare a b Ha Hb) as E.
  destruct (Z.ltb_spec a b) as [Hlt|Hge].
  - apply Qltb_lt, byte_lt; assumption.
  - apply Qltb_ge. destruct (Z.eq_dec a b) as [->|Hne]; [apply Qle_refl|].
    apply Qlt_le_weak, byte_lt; try assumption; lia.
Qed.

(** The quotient of two approximations. *)
Lemma div_close (n' d' N D a : Q) :
  Qabs (n' - N) <= a -> Qabs (d' - D) <= a -> Qabs N <= D ->
  1 # 255 <= D -> a <= 1 # 100000 ->
  Qabs (n' / d' - N / D) <= 520 * a.
Proof.
  intros Hn Hd HN HD Ha.
  assert (Ha0 : 0 <= a).
  { eapply Qle_trans; [apply Qabs_nonneg | exact Hn]. }
  unabs_hyps.
  assert (Hd' : 1 # 256 <= d') by lra.
  assert (E : n' / d' - N / D == (n' * D - N * d') / (d' * D)).
  { field. split; intros E0; rewrite E0 in *; lra. }
  rewrite E.
  assert (Hpos : 0 < d' * D) by (apply Qmult_lt_0_compat; lra).
  assert (T : n' * D - N * d' == (n' - N) * D - N * (d' - D)) by ring.
  set (u := n' - N) in *. set (v := d' - D) in *.
  assert (U1 : u * D <= a * D) by (apply Qmult_le_compat_r; lra).
  assert (U2 : - (a * D) <= u * D).
  { assert (X : (- a) * D <= u * D) by (apply Qmult_le_compat_r; lra).
    lra. }
  assert (V : - (D * a) <= N * v /\ N * v <= D * a) by nra.
  assert (W : a * D <= 256 * a * (d' * D)) by nra.
  apply Qabs_Qle_condition. split.
  - apply Qle_shift_div_l; [exact Hpos|]. rewrite T. lra.
  - apply Qle_shift_div_r; [exact Hpos|]. rewrite T. lra.
Qed.

(** Dividing by a constant, multiplying by a constant. *)
Lemma half_close (x y a : Q) :
  Qabs (x - y) <= a -> Qabs (x / 2 - y / 2) <= a * (1 # 2).
Proof.
  intros H. assert (E : x / 2 - y / 2 == (x - y) * (1 # 2)) by field.
  rewrite E. unabs; lra.
Qed.

Lemma sixth_close (x y a : Q) :
  Qabs (x - y) <= a -> Qabs (x / 6 - y / 6) <= a * (1 # 6).
Proof.
  intros H. assert (E : x / 6 - y / 6 == (x - y) * (1 # 6)) by field.
  rewrite E. unabs; lra.
Qed.

(** Bytes as rationals. *)
Lemma byte_Q (z : Z) :
  (0 <= z <= 255)%Z -> 0 <= inject_Z z /\ inject_Z z <= 255.
Proof.
  intros [H0 H1]. rewrite Zle_Qle in H0, H1. split; assumption.
Qed.

Lemma unit_mult (q : Q) : q / 255 == q * (1 # 255).
Proof. field. Qed.

(** Lightness. *)
Lemma lightness_close (M m : Z) :
  (0 <= M <= 255)%Z -> (0 <= m <= 255)%Z ->
  Qabs (Double.fdiv (Double.fadd (channel M) (channel m)) 2
        - inject_Z (M + m) / 510) <= 3 * eps.
Proof.
  intros HM Hm.
  pose proof (byte_close M HM) as CM. pose proof (byte_close m Hm) as Cm.
  destruct (byte_Q M HM) as [M0 M1]. destruct (byte_Q m Hm) as [m0 m1].
  rewrite !unit_mult in CM, Cm.
  set (y := inject_Z M * (1 # 255) + inject_Z m * (1 # 255)).
  assert (S1 : Qabs (Double.fadd (channel M) (channel m) - y) <= 2 * eps + eps).
  { apply fl_step; unfold y; unabs; lra. }
  assert (S2 : Qabs (Double.fadd (channel M) (channel m) / 2 - y / 2)
               <= (2 * eps + eps) * (1 # 2))
    by (apply half_close; exact S1).
  assert (S3 : Qabs (Double.fdiv (Double.fadd (channel M) (channel m)) 2 - y / 2)
               <= (2 * eps + eps) * (1 # 2) + eps).
  { apply fl_step; [exact S2 | | unfold eps; lra].
    assert (E : y / 2 == y * (1 # 2)) by field. rewrite E.
    unfold y. unabs; lra. }
  assert (E : inject_Z (M + m) / 510 == y / 2).
  { unfold y. rewrite inject_Z_plus. field. }
  rewrite E. unabs; lra.
Qed.

(** Chroma and the differences of two channels. *)
Lemma difference_close (x y : Z) :
  (0 <= x <= 255)%Z -> (0 <= y <= 255)%Z ->
  Qabs (Double.fsub (channel x) (channel y)
        - (inject_Z x / 255 - inject_Z y / 255)) <= 3 * eps.
Proof.
  intros Hx Hy.
  pose proof (byte_close x Hx) as Cx. pose proof (byte_close y Hy) as Cy.
  destruct (byte_Q x Hx) as [x0 x1]. destruct (byte_Q y Hy) as [y0 y1].
  rewrite !unit_mult in *.
  assert (S1 : Qabs (Double.fsub (channel x) (channel y)
                     - (inject_Z x * (1 # 255) - inject_Z y * (1 # 255)))
               <= 2 * eps + eps).
  { apply fl_step; unabs; lra. }
  unabs; lra.
Qed.

(** The quotient of a channel difference by the chroma. *)
Lemma ratio_close (M m x y : Z) :
  (0 <= m)%Z -> (m < M)%Z -> (M <= 255)%Z ->
  (m <= x <= M)%Z -> (m <= y <= M)%Z ->
  Qabs (Double.fdiv (Double.fsub (channel x) (channel y))
                    (Double.fsub (channel M) (channel m))
        - inject_Z (x - y) / inject_Z (M - m)) <= 1561 * eps.
Proof.
  intros Hm0 HmM HM Hx Hy.
  pose proof (difference_close x y ltac:(lia) ltac:(lia)) as Cn.
  pose proof (difference_close M m ltac:(lia) ltac:(lia)) as Cd.
  pose proof (byte_gap m M HmM) as Gap.
  set (N := inject_Z x / 255 - inject_Z y / 255) in *.
  set (D := inject_Z M / 255 - inject_Z m / 255) in *.
  assert (HD : 1 # 255 <= D) by (unfold D; lra).
  assert (HN : Qabs N <= D).
  { unfold N, D. rewrite !unit_mult.
    assert (A1 : (x - y <= M - m)%Z) by lia.
    assert (A2 : (y - x <= M - m)%Z) by lia.
    rewrite Zle_Qle in A1, A2. unfold Zminus in A1, A2.
    rewrite !inject_Z_plus, !inject_Z_opp in A1, A2.
    apply Qabs_Qle_condition. split; lra. }
  assert (E : inject_Z (x - y) / inject_Z (M - m) == N / D).
  { unfold N, D, Zminus. rewrite !inject_Z_plus, !inject_Z_opp. field.
    intros E0. unfold D in HD. rewrite !unit_mult in HD. lra. }
  rewrite E.
  pose proof (div_close _ _ N D (3 * eps) Cn Cd HN HD ltac:(unfold eps; lra)) as Q.
  assert (S : Qabs (Double.fdiv (Double.fsub (channel x) (channel y))
                                (Double.fsub (channel M) (channel m)) - N / D)
              <= 520 * (3 * eps) + eps).
  { apply fl_step; [exact Q | | unfold eps; lra].
    apply Qabs_Qle_condition. unabs_hyps.
    split; [apply Qle_shift_div_l | apply Qle_shift_div_r]; lra. }
  unabs; lra.
Qed.

(** Saturation. *)
Lemma saturation_close (M m : Z) :
  (0 <= m)%Z -> (m < M)%Z -> (M <= 255)%Z ->
  let l' := Double.fdiv (Double.fadd (channel M) (channel m)) 2 in
  let d' := Double.fsub (channel M) (channel m) in
  let s' :=
    if Qgtb l' 0.5
    then Double.fdiv d' (Double.fsub (Double.fsub 2 (channel M)) (channel m))
    else Double.fdiv d' (Double.fadd (channel M) (channel m)) in
  Qabs (s' - inject_Z (M - m) / 255
             / (1 - Qabs (2 * (inject_Z (M + m) / 510) - 1))) <= 2081 * eps.
Proof.
  intros Hm0 HmM HM l' d' s'.
  pose proof (lightness_close M m ltac:(lia) ltac:(lia)) as CL. fold l' in CL.
  pose proof (difference_close M m ltac:(lia) ltac:(lia)) as Cd. fold d' in Cd.
  pose proof (byte_close M ltac:(lia)) as CM.
  pose proof (byte_close m ltac:(lia)) as Cm.
  destruct (byte_Q M ltac:(lia)) as [M0 M1].
  destruct (byte_Q m ltac:(lia)) as [m0 m1].
  assert (Gap : inject_Z m + 1 <= inject_Z M).
  { assert (A : (m + 1 <= M)%Z) by lia.
    rewrite Zle_Qle, inject_Z_plus in A. exact A. }
  change (inject_Z 1) with 1 in Gap. change (inject_Z 0) with 0 in M0, m0.
  change (inject_Z 255) with 255 in M1, m1.
  assert (EL : inject_Z (M + m) / 510 == (inject_Z M + inject_Z m) * (1 # 510)).
  { rewrite inject_Z_plus. field. }
  assert (EC : inject_Z (M - m) / 255 == (inject_Z M - inject_Z m) * (1 # 255)).
  { unfold Zminus. rewrite inject_Z_plus, inject_Z_opp. field. }
  rewrite !unit_mult in *. rewrite EL in *. rewrite EC.
  set (qM := inject_Z M) in *. set (qm := inject_Z m) in *.
  set (C := (qM - qm) * (1 # 255)).
  unfold s'. destruct (Qgtb l' 0.5) eqn:Eb.
  - apply Qgtb_gt in Eb.
    assert (Hsum : 255 <= qM + qm).
    { destruct (Z_le_gt_dec (M + m) 254) as [A|A].
      - exfalso. rewrite Zle_Qle, inject_Z_plus in A. fold qM qm in A.
        change (inject_Z 254) with 254 in A. unabs_hyps. lra.
      - assert (A' : (255 <= M + m)%Z) by lia.
        rewrite Zle_Qle, inject_Z_plus in A'. exact A'. }
    change (inject_Z 255) with 255 in Hsum.
    set (Den := 2 - qM * (1 # 255) - qm * (1 # 255)).
    assert (EA : 1 - Qabs (2 * ((qM + qm) * (1 # 510)) - 1) == Den).
    { rewrite Qabs_pos by lra. unfold Den. ring. }
    rewrite EA.
    assert (S1 : Qabs (Double.fsub 2 (channel M) - (2 - qM * (1 # 255)))
                 <= eps + eps).
    { apply fl_step; unabs; lra. }
    assert (S2 : Qabs (Double.fsub (Double.fsub 2 (channel M)) (channel m) - Den)
                 <= (eps + eps + eps) + eps).
    { apply fl_step; unfold Den; unabs; lra. }
    assert (Cd' : Qabs (d' - C) <= 4 * eps) by (unfold C; unabs; lra).
    assert (S2' : Qabs (Double.fsub (Double.fsub 2 (channel M)) (channel m) - Den)
                  <= 4 * eps) by (unabs; lra).
    assert (HC : Qabs C <= Den).
    { unfold C, Den. apply Qabs_Qle_condition. split; lra. }
    assert (HD : 1 # 255 <= Den) by (unfold Den; lra).
    pose proof (div_close _ _ C Den (4 * eps) Cd' S2' HC HD
                  ltac:(unfold eps; lra)) as Q.
    assert (S : Qabs (Double.fdiv d'
                        (Double.fsub (Double.fsub 2 (channel M)) (channel m))
                      - C / Den) <= 520 * (4 * eps) + eps).
    { apply fl_step; [exact Q | | unfold eps; lra].
      apply Qabs_Qle_condition. unabs_hyps.
      split; [apply Qle_shift_div_l | apply Qle_shift_div_r]; lra. }
    unabs; lra.
  - apply Qgtb_le in Eb.
    assert (Hsum : qM + qm <= 255).
    { destruct (Z_le_gt_dec (M + m) 255) as [A|A].
      - rewrite Zle_Qle, inject_Z_plus in A. exact A.
      - exfalso. assert (A' : (256 <= M + m)%Z) by lia.
        rewrite Zle_Qle, inject_Z_plus in A'. fold qM qm in A'.
        change (inject_Z 256) with 256 in A'. unabs_hyps. lra. }
    change (inject_Z 255) with 255 in Hsum.
    set (Den := qM * (1 # 255) + qm * (1 # 255)).
    assert (EA : 1 - Qabs (2 * ((qM + qm) * (1 # 510)) - 1) == Den).
    { rewrite Qabs_neg by lra. unfold Den. ring. }
    rewrite EA.
    assert (S2 : Qabs (Double.fadd (channel M) (channel m) - Den)
                 <= (eps + eps) + eps).
    { apply fl_step; unfold Den; unabs; lra. }
    assert (Cd' : Qabs (d' - C) <= 3 * eps) by (unfold C; unabs; lra).
    assert (S2' : Qabs (Double.fadd (channel M) (channel m) - Den) <= 3 * eps)
      by (unabs; lra).
    assert (HC : Qabs C <= Den).
    { unfold C, Den. apply Qabs_Qle_condition. split; lra. }
    assert (HD : 1 # 255 <= Den) by (unfold Den; lra).
    pose proof (div_close _ _ C Den (3 * eps) Cd' S2' HC HD
                  ltac:(unfold eps; lra)) as Q.
    assert (S : Qabs (Double.fdiv d' (Double.fadd (channel M) (channel m))
                      - C / Den) <= 520 * (3 * eps) + eps).
    { apply fl_step; [exact Q | | unfold eps; lra].
      apply Qabs_Qle_condition. unabs_hyps.
      split; [apply Qle_shift_div_l | apply Qle_shift_div_r]; lra. }
    unabs; lra.
Qed.

(** Hue: the quotient, the offset of the sextant, the division by 6 and
    the multiplication by 360. *)
Lemma hue_close (M m x y : Z) (c : Q) :
  (0 <= m)%Z -> (m < M)%Z -> (M <= 255)%Z ->
  (m <= x <= M)%Z -> (m <= y <= M)%Z -> 0 <= c -> c <= 6 ->
  Qabs (Double.fmul
          (Double.fdiv
             (Double.fadd
                (Double.fdiv (Double.fsub (channel x) (channel y))
                             (Double.fsub (channel M) (channel m))) c) 6) 360
        - 60 * (inject_Z (x - y) / inject_Z (M - m) + c)) <= 94100 * eps.
Proof.
  intros Hm0 HmM HM Hx Hy Hc0 Hc6.
  pose proof (ratio_close M m x y Hm0 HmM HM Hx Hy) as R.
  set (q' := Double.fdiv (Double.fsub (channel x) (channel y))
                         (Double.fsub (channel M) (channel m))) in *.
  assert (Ht : -1 <= inject_Z (x - y) / inject_Z (M - m)
               /\ inject_Z (x - y) / inject_Z (M - m) <= 1).
  { assert (D0 : 0 < inject_Z (M - m)).
    { change 0 with (inject_Z 0). rewrite <- Zlt_Qlt. lia. }
    assert (A1 : (x - y <= M - m)%Z) by lia.
    assert (A2 : (- (M - m) <= x - y)%Z) by lia.
    rewrite Zle_Qle in A1, A2. rewrite inject_Z_opp in A2.
    split; [apply Qle_shift_div_l | apply Qle_shift_div_r]; lra. }
  set (t := inject_Z (x - y) / inject_Z (M - m)) in *.
  destruct Ht as [Ht0 Ht1].
  assert (S1 : Qabs (Double.fadd q' c - (t + c)) <= 1561 * eps + eps).
  { apply fl_step; [unabs; lra | unabs; lra | unfold eps; lra]. }
  set (a' := Double.fadd q' c) in *.
  assert (S2 : Qabs (a' / 6 - (t + c) / 6) <= (1561 * eps + eps) * (1 # 6))
    by (apply sixth_close; exact S1).
  assert (E6 : (t + c) / 6 == (t + c) * (1 # 6)) by field.
  assert (S3 : Qabs (Double.fdiv a' 6 - (t + c) / 6)
               <= (1561 * eps + eps) * (1 # 6) + eps).
  { apply fl_step; [exact S2 | rewrite E6; unabs; lra | unfold eps; lra]. }
  set (h6 := Double.fdiv a' 6) in *.
  assert (S4 : Qabs (Double.fmul h6 360 - 60 * (t + c))
               <= ((1561 * eps + eps) * (1 # 6) + eps) * 360 + eps).
  { apply fl_step; [| unabs; lra | unfold eps; lra].
    rewrite E6 in S3. unabs; lra. }
  unabs; lra.
Qed.

(** [rgbToHsl] on three bytes, with the comparisons of doubles replaced by
    the comparisons of the bytes. *)
Lemma rgbToHsl_bytes (r g b : Z) :
  (0 <= r <= 255)%Z -> (0 <= g <= 255)%Z -> (0 <= b <= 255)%Z ->
  let M := Z.max (Z.max r g) b in
  let m := Z.min (Z.min r g) b in
  let l := Double.fdiv (Double.fadd (channel M) (channel m)) 2 in
  let d := Double.fsub (channel M) (channel m) in
  Double.rgbToHsl (inject_Z r) (inject_Z g) (inject_Z b)
  = if (M =? m)%Z then (0, 0, l)
    else
      (Double.fmul
         (Double.fdiv
            (if (M =? r)%Z then
               Double.fadd (Double.fdiv (Double.fsub (channel g) (channel b)) d)
                           (if (g <? b)%Z then 6 else 0)
             else if (M =? g)%Z then
               Double.fadd (Double.fdiv (Double.fsub (channel b) (channel r)) d) 2
             else
               Double.fadd (Double.fdiv (Double.fsub (channel r) (channel g)) d) 4)
            6) 360,
       if Qgtb l 0.5
       then Double.fdiv d (Double.fsub (Double.fsub 2 (channel M)) (channel m))
       else Double.fdiv d (Double.fadd (channel M) (channel m)),
       l).
Proof.
  intros Hr Hg Hb M m l d.
  assert (HM : (0 <= M <= 255)%Z) by (unfold M; lia).
  assert (Hm : (0 <= m <= 255)%Z) by (unfold m; lia).
  unfold Double.rgbToHsl. cbv zeta.
  fold (channel r) (channel g) (channel b).
  rewrite (byte_max r g Hr Hg), (byte_max (Z.max r g) b ltac:(lia) Hb).
  rewrite (byte_min r g Hr Hg), (byte_min (Z.min r g) b ltac:(lia) Hb).
  fold M m. fold l d.
  rewrite (byte_eqb M m HM Hm), (byte_eqb M r HM Hr), (byte_eqb M g HM Hg),
    (byte_eqb M b HM Hb), (byte_ltb g b Hg Hb).
  destruct (M =? m)%Z; [reflexivity|]. cbn [negb].
  destruct (M =? r)%Z eqn:Er; [reflexivity|].
  destruct (M =? g)%Z eqn:Eg; [reflexivity|].
  assert (Eb : (M =? b)%Z = true) by (apply Z.eqb_eq; unfold M in *; lia).
  rewrite Eb. reflexivity.
Qed.

(** The hue, saturation and lightness that [rgbToHsl] computes for a
    colour of three bytes are within 1e-7 of the exact ones. *)
Lemma rgbToHsl_accurate (r g b : Z) :
  (0 <= r <= 255)%Z -> (0 <= g <= 255)%Z -> (0 <= b <= 255)%Z ->
  let computed := Double.rgbToHsl (inject_Z r) (inject_Z g) (inject_Z b) in
  let exact := hsl r g b in
  Qabs (fst (fst computed) - fst (fst exact)) <= 1 # 10000000
  /\ Qabs (snd (fst computed) - snd (fst exact)) <= 1 # 10000000
  /\ Qabs (snd computed - snd exact) <= 1 # 10000000.
Proof.
  intros Hr Hg Hb. cbv zeta.
  rewrite (rgbToHsl_bytes r g b Hr Hg Hb). unfold hsl. cbv zeta.
  set (M := Z.max (Z.max r g) b). set (m := Z.min (Z.min r g) b).
  assert (HM : (0 <= M <= 255)%Z) by (unfold M; lia).
  assert (Hm : (0 <= m <= 255)%Z) by (unfold m; lia).
  pose proof (lightness_close M m HM Hm) as CL.
  set (L := inject_Z (M + m) / 510) in *.
  set (lc := Double.fdiv (Double.fadd (channel M) (channel m)) 2) in *.
  destruct (Z.eqb_spec M m) as [E|Hne].
  - cbn [fst snd].
    repeat split; try (apply Qabs_Qle_condition; split; discriminate).
    clearbody L lc. unabs; lra.
  - assert (HmM : (m < M)%Z) by (unfold M, m in *; lia).
    pose proof (saturation_close M m ltac:(lia) HmM ltac:(lia)) as CS.
    cbv zeta in CS. fold L lc in CS.
    assert (D0 : 0 < inject_Z (M - m)).
    { change 0 with (inject_Z 0). rewrite <- Zlt_Qlt. lia. }
    cbn [fst snd].
    split; [|split; [|clearbody L lc; unabs; lra]].
    2:{ match type of CS with Qabs (?a - ?b) <= _ =>
          set (sc := a) in *; set (S := b) in * end.
        clearbody sc S. unabs; lra. }
    destruct (Z.eqb_spec M r) as [Er|Er].
    + assert (Et : Qltb (inject_Z (g - b) / inject_Z (M - m)) 0 = (g <? b)%Z).
      { destruct (Z.ltb_spec g b) as [Hlt|Hge].
        - apply Qltb_lt. apply Qlt_shift_div_r; [exact D0|].
          rewrite Qmult_0_l. change 0 with (inject_Z 0).
          rewrite <- Zlt_Qlt. lia.
        - apply Qltb_ge. apply Qle_shift_div_l; [exact D0|].
          rewrite Qmult_0_l. change 0 with (inject_Z 0).
          rewrite <- Zle_Qle. lia. }
      rewrite Et.
      pose proof (hue_close M m g b (if (g <? b)%Z then 6 else 0)
                    ltac:(lia) HmM ltac:(lia)
                    ltac:(unfold M, m; lia) ltac:(unfold M, m; lia)
                    ltac:(destruct (g <? b)%Z; discriminate)
                    ltac:(destruct (g <? b)%Z; discriminate)) as CH.
      set (t := inject_Z (g - b) / inject_Z (M - m)) in *.
      destruct (g <? b)%Z;
        match type of CH with Qabs (?a - _) <= _ => set (hc := a) in * end;
        clearbody hc t; unabs; lra.
    + destruct (Z.eqb_spec M g) as [Eg|Eg].
      * pose proof (hue_close M m b r 2 ltac:(lia) HmM ltac:(lia)
                      ltac:(unfold M, m; lia) ltac:(unfold M, m; lia)
                      ltac:(discriminate) ltac:(discriminate)) as CH.
        set (t := inject_Z (b - r) / inject_Z (M - m)) in *.
        match type of CH with Qabs (?a - _) <= _ => set (hc := a) in * end.
        clearbody hc t. unabs; lra.
      * pose proof (hue_close M m r g 4 ltac:(lia) HmM ltac:(lia)
                      ltac:(unfold M, m; lia) ltac:(unfold M, m; lia)
                      ltac:(discriminate) ltac:(discriminate)) as CH.
        set (t := inject_Z (r - g) / inject_Z (M - m)) in *.
        match type of CH with Qabs (?a - _) <= _ => set (hc := a) in * end.
        clearbody hc t. unabs; lra.
Qed.

(** The thresholds of the hue band. *)
Lemma hue_band_close (sens : Q) :
  0 <= sens -> sens <= 100 ->
  Qabs (Double.hMin sens - (75 - 0.4 * sens)) <= 3 * eps
  /\ Qabs (Double.hMax sens - (155 + 0.4 * sens)) <= 3 * eps.
Proof.
  intros H0 H1. unfold Double.hMin, Double.hMax.
  assert (E : Double.fl 0.4 = 3602879701896397 # 9007199254740992)
    by (vm_compute; reflexivity).
  rewrite E.
  assert (S1 : Qabs (Double.fmul sens (3602879701896397 # 9007199254740992)
                     - 0.4 * sens) <= eps + eps).
  { apply fl_step; unabs; lra. }
  set (x := Double.fmul sens (3602879701896397 # 9007199254740992)) in *.
  split.
  - assert (S2 : Qabs (Double.fsub 75 x - (75 - 0.4 * sens)) <= (eps + eps) + eps).
    { apply fl_step; unabs; lra. }
    unabs; lra.
  - assert (S2 : Qabs (Double.fadd 155 x - (155 + 0.4 * sens)) <= (eps + eps) + eps).
    { apply fl_step; unabs; lra. }
    unabs; lra.
Qed.

(** The exact lightness [(M + m) / 510] is never within 0.0009 of 0.15
    or of 0.85. *)
Lemma lightness_gap (k : Z) :
  (inject_Z k / 510 <= 76 # 510 \/ 77 # 510 <= inject_Z k / 510)
  /\ (inject_Z k / 510 <= 433 # 510 \/ 434 # 510 <= inject_Z k / 510).
Proof.
  assert (E : inject_Z k / 510 == inject_Z k * (1 # 510)) by field.
  rewrite E. split.
  - destruct (Z_le_gt_dec k 76) as [A|A].
    + left. rewrite Zle_Qle in A. change (inject_Z 76) with 76 in A. lra.
    + right. assert (A' : (77 <= k)%Z) by lia.
      rewrite Zle_Qle in A'. change (inject_Z 77) with 77 in A'. lra.
  - destruct (Z_le_gt_dec k 433) as [A|A].
    + left. rewrite Zle_Qle in A. change (inject_Z 433) with 433 in A. lra.
    + right. assert (A' : (434 <= k)%Z) by lia.
      rewrite Zle_Qle in A'. change (inject_Z 434) with 434 in A'. lra.
Qed.

Lemma hsl_lightness (r g b : Z) :
  snd (hsl r g b)
  = inject_Z (Z.max (Z.max r g) b + Z.min (Z.min r g) b) / 510.
Proof.
  unfold hsl. cbv zeta. destruct (_ =? _)%Z; reflexivity.
Qed.

Lemma Qabs_gt_cases (a x : Q) : a < Qabs x -> x < - a \/ a < x.
Proof.
  intros H. destruct (Qlt_le_dec x 0) as [Hx|Hx].
  - left. rewrite Qabs_neg in H by lra. lra.
  - right. rewrite Qabs_pos in H by lra. exact H.
Qed.

(** Away from the thresholds the test of the loop is the test of the
    design document. *)
Lemma isGreen_agrees (sens : Q) (p : Pixel) :
  byte_pixel p -> 0 <= sens -> sens <= 100 ->
  clear_of_thresholds (1 # 1000000) sens p ->
  (Double.isGreen sens p = true <-> spec_green sens p).
Proof.
  intros [Hr [Hg Hb]] H0 H1.
  unfold clear_of_thresholds, Double.isGreen, spec_green.
  pose proof (rgbToHsl_accurate (red p) (green p) (blue p) Hr Hg Hb) as A.
  cbv zeta in A.
  pose proof (hsl_lightness (red p) (green p) (blue p)) as EL.
  pose proof (lightness_gap (Z.max (Z.max (red p) (green p)) (blue p)
                             + Z.min (Z.min (red p) (green p)) (blue p))) as G.
  rewrite <- EL in G. clear EL.
  destruct (hue_band_close sens H0 H1) as [Cmin Cmax].
  destruct (Double.rgbToHsl _ _ _) as [[h' s'] l'].
  destruct (hsl _ _ _) as [[h s] l].
  cbn [fst snd] in A, G. destruct A as [Ah [As Al]]. destruct G as [G1 G2].
  intros [Mmin [Mmax Ms]].
  apply Qabs_gt_cases in Mmin, Mmax, Ms.
  unfold Double.sMin, Double.lMin, Double.lMax.
  assert (E15 : Double.fl 0.15 = 5404319552844595 # 36028797018963968)
    by (vm_compute; reflexivity).
  assert (E85 : Double.fl 0.85 = 7656119366529843 # 9007199254740992)
    by (vm_compute; reflexivity).
  rewrite E15, E85.
  rewrite !andb_true_iff, !Qgeb_ge, !Qleb_le.
  set (tmin := Double.hMin sens) in *. set (tmax := Double.hMax sens) in *.
  clearbody tmin tmax.
  unabs_hyps.
  split.
  - intros [[[P1 P2] P3] [P4 P5]].
    destruct Mmin, Mmax, Ms, G1, G2; repeat split; lra.
  - intros [[P1 P2] [P3 [P4 P5]]].
    destruct Mmin, Mmax, Ms, G1, G2; repeat split; lra.
Qed.

End Accuracy.

Section DoubleSegmentation.

Lemma double_maskLoop_map (sens : Q) (data : list Pixel) :
  Double.maskLoop sens data
  = (map (fun p => fst (Double.maskPixel sens p)) data,
     map (fun p => snd (Double.maskPixel sens p)) data).
Proof.
  induction data as [|p rest IH]; [reflexivity|].
  simpl. rewrite IH. destruct (Double.maskPixel sens p). reflexivity.
Qed.

Lemma double_maskLoop_nth (sens : Q) (data : list Pixel) (k : nat) (p : Pixel) :
  nth_error data k = Some p ->
  nth_error (fst (Double.maskLoop sens data)) k
  = Some (fst (Double.maskPixel sens p))
  /\ nth_error (snd (Double.maskLoop sens data)) k
     = Some (snd (Double.maskPixel sens p)).
Proof.
  intros H. rewrite double_maskLoop_map. simpl.
  split.
  - exact (map_nth_error (fun x => fst (Double.maskPixel sens x)) k data H).
  - exact (map_nth_error (fun x => snd (Double.maskPixel sens x)) k data H).
Qed.

End DoubleSegmentation.

(** C3 (as the code has it).  When [computeMaskingLayers] runs (masking
    enabled, playback paused, media size known) it stores two layers; for
    every pixel [p] of the frame, at its index [k], with colour bytes and a
    sensitivity in 0..100: a pixel that the loop classifies as background
    has foreground alpha 0 and the overlay pixel (239, 68, 68, 102), any
    other pixel is copied with alpha 255 to the foreground and has overlay
    alpha 0.  The loop classifies by the hue, saturation and lightness that
    [rgbToHsl] computes in double arithmetic; these are within 1e-7 of the
    exact HSL coordinates of the colour, so that the pixel is background
    exactly when its hue lies in [75 - 0.4 sens, 155 + 0.4 sens], its
    saturation is at least 0.15 and its lightness lies in [0.15, 0.85],
    provided its hue and its saturation are more than 1e-6 away from these
    thresholds (the lightness always is). *)
Theorem C3_segmentation_layers :
  forall (video : Video) (s : State) (k : nat) (p : Pixel),
    enabled (maskSettings s) = true ->
    isPlaying s = false ->
    videoWidth video <> 0%N ->
    videoHeight video <> 0%N ->
    nth_error (frame video) k = Some p ->
    byte_pixel p ->
    let sens := sensitivity (maskSettings s) in
    0 <= sens -> sens <= 100 ->
    let computed :=
      Double.rgbToHsl (inject_Z (red p)) (inject_Z (green p)) (inject_Z (blue p)) in
    let exact := hsl (red p) (green p) (blue p) in
    exists fgData ovData fg ov,
      Double.computeMaskingLayers (Some video) s
      = Some (mkMaskLayerCache (Some (OfImageData fgData))
                               (Some (OfImageData ovData))
                               (currentTime video))
      /\ nth_error fgData k = Some fg
      /\ nth_error ovData k = Some ov
      /\ (Double.isGreen sens p = true ->
          alpha fg = 0%Z /\ ov = mkPixel 239 68 68 102)
      /\ (Double.isGreen sens p = false ->
          fg = mkPixel (red p) (green p) (blue p) 255 /\ alpha ov = 0%Z)
      /\ (Qabs (fst (fst computed) - fst (fst exact)) <= 1 # 10000000
          /\ Qabs (snd (fst computed) - snd (fst exact)) <= 1 # 10000000
          /\ Qabs (snd computed - snd exact) <= 1 # 10000000)
      /\ (clear_of_thresholds (1 # 1000000) sens p ->
          (Double.isGreen sens p = true <-> spec_green sens p)).
Proof.
  intros video s k p He Hp Hw Hh Hk Hb sens H0 H1 computed exact.
  destruct (double_maskLoop_nth sens (frame video) k p Hk) as [Hfg Hov].
  exists (fst (Double.maskLoop sens (frame video))),
         (snd (Double.maskLoop sens (frame video))),
         (fst (Double.maskPixel sens p)), (snd (Double.maskPixel sens p)).
  split.
  { unfold Double.computeMaskingLayers. rewrite He, Hp. simpl.
    apply N.eqb_neq in Hw, Hh. rewrite Hw, Hh. simpl.
    fold sens. destruct (Double.maskLoop sens (frame video)). reflexivity. }
  split; [exact Hfg|]. split; [exact Hov|].
  split; [intros H; unfold Double.maskPixel; rewrite H; split; reflexivity|].
  split; [intros H; unfold Double.maskPixel; rewrite H; split; reflexivity|].
  split.
  - destruct Hb as [Hr [Hg Hbl]].
    exact (rgbToHsl_accurate (red p) (green p) (blue p) Hr Hg Hbl).
  - intros Hclear. apply isGreen_agrees; assumption.
Qed.

Lemma C3_segmentation_layers_witness :
  exists fgData ovData fg ov,
    Double.computeMaskingLayers (Some sampleVideo) maskingState
    = Some (mkMaskLayerCache (Some (OfImageData fgData))
                             (Some (OfImageData ovData)) 10)
    /\ nth_error fgData 0 = Some fg
    /\ nth_error ovData 0 = Some ov
    /\ alpha fg = 0%Z /\ ov = mkPixel 239 68 68 102
    /\ spec_green 40 (mkPixel 0 255 0 255).
Proof.
  assert (Hbyte : byte_pixel (mkPixel 0 255 0 255))
    by (repeat split; discriminate).
  assert (H0 : 0 <= sensitivity (maskSettings maskingState)) by discriminate.
  assert (H1 : sensitivity (maskSettings maskingState) <= 100) by discriminate.
  destruct (C3_segmentation_layers sampleVideo maskingState 0
              (mkPixel 0 255 0 255) eq_refl eq_refl
              ltac:(discriminate) ltac:(discriminate) eq_refl Hbyte H0 H1)
    as [fgData [ovData [fg [ov [E [Hfg [Hov [Hgreen [_ [_ Hagree]]]]]]]]]].
  exists fgData, ovData, fg, ov.
  assert (G : Double.isGreen 40 (mkPixel 0 255 0 255) = true)
    by (vm_compute; reflexivity).
  destruct (Hgreen G) as [Ha Ho].
  split; [exact E|]. split; [exact Hfg|]. split; [exact Hov|].
  split; [exact Ha|]. split; [exact Ho|].
  apply Hagree; [|exact G].
  vm_compute. repeat split; reflexivity.
Defined.

(** C3, the claim as worded fails for a colour whose saturation is exactly
    the threshold: (51, 69, 51) has hue 120, saturation 0.15 and lightness
    4/17, so it is background in the words of the claim, whereas the
    saturation computed in doubles is 0.14999999999999994, below the
    double 0.15, and the loop keeps the pixel as foreground. *)
Lemma C3_saturation_tie_counterexample :
  let p := mkPixel 51 69 51 255 in
  (fst (fst (hsl 51 69 51)) == 120
   /\ snd (fst (hsl 51 69 51)) == 0.15
   /\ snd (hsl 51 69 51) == 4 # 17)
  /\ spec_green 40 p
  /\ snd (fst (Double.rgbToHsl 51 69 51)) < Double.fl 0.15
  /\ Double.isGreen 40 p = false
  /\ fst (Double.maskPixel 40 p) = mkPixel 51 69 51 255.
Proof.
  cbv zeta. split; [vm_compute; repeat split; reflexivity|].
  split; [vm_compute; repeat split; discriminate|].
  split; [vm_compute; reflexivity|].
  split; vm_compute; reflexivity.
Qed.

(** The double layers of the sample frame, and the hue, saturation and
    lightness of pure green in doubles: 120 degrees, 1, 1/2. *)
Example double_maskLoop_sample :
  Double.maskLoop 40 (frame sampleVideo)
  = ([mkPixel 0 0 0 0; mkPixel 255 0 0 255],
     [mkPixel 239 68 68 102; mkPixel 0 0 0 0])
  /\ Double.rgbToHsl 0 255 0 = (120, 1, 1 # 2).
Proof. split; vm_compute; reflexivity. Qed.

(** ** Mask synchronisation in the compositor *)

Section MaskSync.

Lemma drawPersistent_no_mask (scale : Q) (shape : Shape) (op : DrawOp) :
  In op (drawPersistent scale shape) -> is_mask_draw op = false.
Proof.
  unfold drawPersistent.
  destruct (is_tool player_move shape || is_tool lens shape); [intros []|].
  destruct (is_tool curved_arrow shape); intros [<-|[]]; reflexivity.
Qed.

Lemma drawLayered_no_mask (scale : Q) (shape : Shape) (op : DrawOp) :
  In op (drawLayered scale shape) -> is_mask_draw op = false.
Proof.
  unfold drawLayered. intros H.
  apply in_app_or in H. destruct H as [H|H].
  - destruct (is_tool curved_arrow shape); [|destruct H].
    destruct H as [<-|[]]; reflexivity.
  - apply in_app_or in H. destruct H as [H|H].
    + destruct (is_tool player_move shape); [|destruct H].
      destruct H as [<-|[]]; reflexivity.
    + destruct (is_tool lens shape); [|destruct H].
      destruct (lensConfig shape); [|destruct H].
      destruct (points shape) as [|[p0|] rest]; try destruct H as [<-|[]];
        try destruct H; reflexivity.
Qed.

(** Without a synced cache a frame holds no mask layer. *)
Lemma renderCanvas_unsynced (canvasRef : option Canvas) (video : Video)
    (ctx : bool) (s : State) (op : DrawOp) :
  isMaskSynced (maskCache s) (currentTime video) = false ->
  In op (renderCanvas canvasRef (Some video) ctx s) ->
  is_mask_draw op = false.
Proof.
  intros Hs. unfold renderCanvas.
  destruct canvasRef as [canvas|]; [|intros []].
  destruct (negb ctx); [intros []|].
  rewrite Hs, !andb_false_r.
  intros H.
  repeat (apply in_app_or in H; destruct H as [H|H]).
  - destruct H as [<-|[]]; reflexivity.
  - destruct (overlay (maskCache s)); destruct H.
  - destruct H as [<-|[<-|[<-|[]]]]; reflexivity.
  - apply in_flat_map in H. destruct H as [shape [_ H]].
    exact (drawPersistent_no_mask _ _ _ H).
  - destruct H as [<-|[]]; reflexivity.
  - destruct (foreground (maskCache s)); destruct H.
  - destruct H as [<-|[<-|[<-|[]]]]; reflexivity.
  - apply in_flat_map in H. destruct H as [shape [_ H]].
    exact (drawLayered_no_mask _ _ _ H).
  - destruct H as [<-|[]]; reflexivity.
Qed.

End MaskSync.

Section DoubleMaskSync.

(** The double written [0.15]. *)
Lemma fl_0_15 : Double.fl 0.15 = 5404319552844595 # 36028797018963968.
Proof. vm_compute. reflexivity. Qed.

(** The sentinel -1 of the empty cache is never synced with a playback
    position, which is not negative. *)
Lemma double_isMaskSynced_abs (cache : MaskLayerCache) (cur : Q) :
  0 <= cur ->
  (Double.isMaskSynced cache cur = true
   <-> Qabs (Double.fsub (cache_timestamp cache) cur) < Double.fl 0.15).
Proof.
  intros Hcur. unfold Double.isMaskSynced.
  rewrite andb_true_iff, negb_true_iff, Qltb_lt.
  split; [intros [_ H]; exact H|].
  intros H. split; [|exact H].
  destruct (Qeq_bool (cache_timestamp cache) (-1)) eqn:E; [|reflexivity].
  exfalso. apply Qeq_bool_iff in E.
  set (x := cache_timestamp cache - cur) in *.
  assert (Hx : x <= -1) by (unfold x; lra).
  assert (Ha : Qabs x == - x) by (apply Qabs_neg; lra).
  assert (H8 : 1 # 8 <= Qabs x) by (rewrite Ha; lra).
  pose proof (fl_relative x H8) as R. rewrite Ha in R.
  unfold Double.fsub in H. fold x in H. rewrite fl_0_15 in H.
  apply Qabs_Qlt_condition in H. apply Qabs_Qle_condition in R.
  destruct H as [H1 H2]. destruct R as [R1 R2]. lra.
Qed.

(** Synced well inside the tolerance, not synced well outside it. *)
Lemma double_isMaskSynced_inside (cache : MaskLayerCache) (cur : Q) :
  0 <= cur ->
  Qabs (cache_timestamp cache - cur) <= 0.15 - (1 # 1000000000) ->
  Double.isMaskSynced cache cur = true.
Proof.
  intros Hcur H. apply double_isMaskSynced_abs; [exact Hcur|].
  unfold Double.fsub. set (x := cache_timestamp cache - cur) in *.
  assert (Hb : Qabs x <= 2 ^ (-2)).
  { eapply Qle_trans; [exact H|]. discriminate. }
  pose proof (fl_error x (-2) ltac:(lia) Hb) as R.
  assert (E : (2 : Q) ^ (-2 - 53) == 1 # 36028797018963968) by reflexivity.
  rewrite E in R. rewrite fl_0_15.
  apply Qabs_Qlt_condition. apply Qabs_Qle_condition in H, R.
  destruct H as [H1 H2]. destruct R as [R1 R2]. split; lra.
Qed.

Lemma double_isMaskSynced_outside (cache : MaskLayerCache) (cur : Q) :
  0.15 + (1 # 1000000000) <= Qabs (cache_timestamp cache - cur) ->
  Double.isMaskSynced cache cur = false.
Proof.
  intros H. unfold Double.isMaskSynced.
  apply andb_false_iff. right. apply Qltb_ge.
  unfold Double.fsub. set (x := cache_timestamp cache - cur) in *.
  assert (H8 : 1 # 8 <= Qabs x) by lra.
  pose proof (fl_relative x H8) as R. rewrite fl_0_15.
  apply Qabs_Qle_condition in R. destruct R as [R1 R2].
  destruct (Qlt_le_dec x 0) as [Hx|Hx].
  - rewrite Qabs_neg in H, R1, R2 by lra.
    rewrite (Qabs_neg (Double.fl x)) by lra. lra.
  - rewrite Qabs_pos in H, R1, R2 by lra.
    rewrite (Qabs_pos (Double.fl x)) by lra. lra.
Qed.

(** Without a synced cache a frame holds no mask layer. *)
Lemma double_renderCanvas_unsynced (canvasRef : option Canvas) (video : Video)
    (ctx : bool) (s : State) (op : DrawOp) :
  Double.isMaskSynced (maskCache s) (currentTime video) = false ->
  In op (Double.renderCanvas canvasRef (Some video) ctx s) ->
  is_mask_draw op = false.
Proof.
  intros Hs. unfold Double.renderCanvas.
  destruct canvasRef as [canvas|]; [|intros []].
  destruct (negb ctx); [intros []|].
  rewrite Hs, !andb_false_r.
  intros H.
  repeat (apply in_app_or in H; destruct H as [H|H]).
  - destruct H as [<-|[]]; reflexivity.
  - destruct (overlay (maskCache s)); destruct H.
  - destruct H as [<-|[<-|[<-|[]]]]; reflexivity.
  - apply in_flat_map in H. destruct H as [shape [_ H]].
    exact (drawPersistent_no_mask _ _ _ H).
  - destruct H as [<-|[]]; reflexivity.
  - destruct (foreground (maskCache s)); destruct H.
  - destruct H as [<-|[<-|[<-|[]]]]; reflexivity.
  - apply in_flat_map in H. destruct H as [shape [_ H]].
    exact (drawLayered_no_mask _ _ _ H).
  - destruct H as [<-|[]]; reflexivity.
Qed.

End DoubleMaskSync.

(** ** Frames that end at an exception *)

Section Exceptions.

Variable raises : Shape -> option Pass -> bool.

Lemma completed_In (ops : list DrawOp) (op : DrawOp) :
  In op (Double.completed raises ops) -> In op ops.
Proof.
  induction ops as [|o rest IH]; [intros []|].
  destruct o; cbn [Double.completed];
    try (intros [H|H]; [left; exact H | right; apply IH; exact H]).
  destruct (raises shape pass); [intros []|].
  intros [H|H]; [left; exact H | right; apply IH; exact H].
Qed.

(** Calls that do not raise are all made. *)
Lemma completed_app_clean (l1 l2 : list DrawOp) :
  (forall shape scale pass,
      In (DrawShapeOnCanvas shape scale pass) l1 -> raises shape pass = false) ->
  Double.completed raises (l1 ++ l2) = l1 ++ Double.completed raises l2.
Proof.
  induction l1 as [|o rest IH]; intros H; [reflexivity|].
  assert (Hrest : forall shape scale pass,
             In (DrawShapeOnCanvas shape scale pass) rest ->
             raises shape pass = false)
    by (intros shape scale pass Hin; apply (H shape scale pass); right; exact Hin).
  destruct o; cbn [Double.completed app]; try (rewrite (IH Hrest); reflexivity).
  rewrite (H shape scale pass (or_introl eq_refl)), (IH Hrest). reflexivity.
Qed.

(** After a call that raises, no call is made. *)
Lemma completed_app_raising (l1 l2 : list DrawOp) :
  (exists shape scale pass,
      In (DrawShapeOnCanvas shape scale pass) l1 /\ raises shape pass = true) ->
  Double.completed raises (l1 ++ l2) = Double.completed raises l1.
Proof.
  induction l1 as [|o rest IH]; intros [shape [scale [pass [Hin Hr]]]];
    [destruct Hin|].
  destruct Hin as [E|Hin].
  - subst o. cbn [Double.completed app]. rewrite Hr. reflexivity.
  - assert (Hrest : exists shape scale pass,
               In (DrawShapeOnCanvas shape scale pass) rest
               /\ raises shape pass = true)
      by (exists shape, scale, pass; split; assumption).
    destruct o; cbn [Double.completed app]; rewrite (IH Hrest); reflexivity.
Qed.

End Exceptions.

(** C4 (as the code has it).  For a playback position [cur >= 0] the cached
    mask is synced exactly when the difference [timestamp - cur], rounded as
    the subtraction of doubles rounds it, is smaller in magnitude than the
    double written 0.15; when it is not synced, [renderCanvas] draws neither
    the overlay nor the foreground bitmap, wherever the frame ends.  In
    exact terms the cache is
    synced whenever [|timestamp - cur| <= 0.15 - 1e-9] and not synced
    whenever [|timestamp - cur| >= 0.15 + 1e-9].  A cache sampled at 10.00
    is synced at the position written 10.149 and not synced at the positions
    written 10.151, 10.15 and 9.85 (the nearest doubles): the two end points
    are excluded. *)
Theorem C4_mask_sync_open_interval :
  forall (canvasRef : option Canvas) (video : Video) (ctx : bool) (s : State),
    0 <= currentTime video ->
    let cache := maskCache s in
    let cur := currentTime video in
    (Double.isMaskSynced cache cur = true
     <-> Qabs (Double.fsub (cache_timestamp cache) cur) < Double.fl 0.15)
    /\ (Double.isMaskSynced cache cur = false ->
        forall raises op,
          In op (Double.completed raises
                   (Double.renderCanvas canvasRef (Some video) ctx s)) ->
          is_mask_draw op = false)
    /\ (Qabs (cache_timestamp cache - cur) <= 0.15 - (1 # 1000000000) ->
        Double.isMaskSynced cache cur = true)
    /\ (0.15 + (1 # 1000000000) <= Qabs (cache_timestamp cache - cur) ->
        Double.isMaskSynced cache cur = false)
    /\ (forall fg ov,
           Double.isMaskSynced (mkMaskLayerCache fg ov 10) (Double.fl 10.149) = true
           /\ Double.isMaskSynced (mkMaskLayerCache fg ov 10) (Double.fl 10.151) = false
           /\ Double.isMaskSynced (mkMaskLayerCache fg ov 10) (Double.fl 10.15) = false
           /\ Double.isMaskSynced (mkMaskLayerCache fg ov 10) (Double.fl 9.85) = false).
Proof.
  intros canvasRef video ctx s Hcur cache cur.
  split; [apply double_isMaskSynced_abs; exact Hcur|].
  split.
  { intros Hs raises op Hin. apply completed_In in Hin.
    exact (double_renderCanvas_unsynced canvasRef video ctx s op Hs Hin). }
  split; [apply double_isMaskSynced_inside; exact Hcur|].
  split; [apply double_isMaskSynced_outside|].
  intros fg ov. repeat split; vm_compute; reflexivity.
Qed.

(** C4, the claim as worded fails: a cache sampled at 10.00 is not valid
    at every playback position from the double written 9.85 to the double
    written 10.15: it is not valid at the latter. *)
Lemma C4_closed_interval_counterexample :
  ~ (forall cur : Q,
        Double.fl 9.85 <= cur /\ cur <= Double.fl 10.15 ->
        Double.isMaskSynced (mkMaskLayerCache None None 10) cur = true).
Proof.
  intros H. specialize (H (Double.fl 10.15)).
  assert (Hin : Double.fl 9.85 <= Double.fl 10.15
                /\ Double.fl 10.15 <= Double.fl 10.15)
    by (split; vm_compute; discriminate).
  apply H in Hin. vm_compute in Hin. discriminate.
Qed.

Lemma C4_mask_sync_open_interval_witness :
  Double.isMaskSynced (mkMaskLayerCache None None 10) 10 = true
  <-> Qabs (Double.fsub 10 10) < Double.fl 0.15.
Proof.
  apply (C4_mask_sync_open_interval None hdVideo true
           (setMaskCache (mkMaskLayerCache None None 10) maskingState)).
  vm_compute; discriminate.
Defined.

(** At the boundary the rounding decides: a cache sampled at the double
    written 0.14 is synced at the position written 0.29 (the difference of
    the two doubles is below the double 0.15), and a cache sampled at 0 is
    not synced at the position written 0.15, although that double is below
    0.15. *)
Example mask_sync_rounding :
  Double.isMaskSynced (mkMaskLayerCache None None (Double.fl 0.14))
                      (Double.fl 0.29) = true
  /\ Double.isMaskSynced (mkMaskLayerCache None None 0) (Double.fl 0.15) = false
  /\ Qabs (0 - Double.fl 0.15) < 0.15.
Proof. repeat split; vm_compute; reflexivity. Qed.


(** ** Sprite capture *)

Section Capture.

(** Turns boolean comparisons in the context into inequalities. *)
Ltac qbool :=
  repeat match goal with
         | H : Qgtb _ _ = true |- _ => apply Qgtb_gt in H
         | H : Qgtb _ _ = false |- _ => apply Qgtb_le in H
         | H : Qltb _ _ = true |- _ => apply Qltb_lt in H
         | H : Qltb _ _ = false |- _ => apply Qltb_ge in H
         end.

Lemma patch_x_nonneg (x w fw : Q) : 0 <= patch_x x w fw.
Proof.
  unfold patch_x. cbv zeta.
  destruct (Qltb _ 0) eqn:E; [apply Qle_refl|].
  apply Qltb_ge in E. exact E.
Qed.

(** The words of the design document, case by case. *)
Lemma patch_x_cases (x w fw : Q) :
  (x + 1.5 * w + w <= fw -> 0 <= x + 1.5 * w ->
   patch_x x w fw == x + 1.5 * w)
  /\ (fw < x + 1.5 * w + w -> 0 <= x - 1.5 * w ->
      patch_x x w fw == x - 1.5 * w)
  /\ (fw < x + 1.5 * w + w -> x - 1.5 * w < 0 -> patch_x x w fw == 0).
Proof.
  unfold patch_x. cbv zeta. repeat split.
  - intros H1 H2. apply Qgtb_le in H1. rewrite H1.
    apply Qltb_ge in H2. rewrite H2. reflexivity.
  - intros H1 H2. apply Qgtb_gt in H1. rewrite H1.
    apply Qltb_ge in H2. rewrite H2. reflexivity.
  - intros H1 H2. apply Qgtb_gt in H1. rewrite H1.
    apply Qltb_lt in H2. rewrite H2. reflexivity.
Qed.

(** Rounding a value of magnitude at most a million that is within [a]
    of [y]. *)
Lemma fl_step_wide (x y a : Q) :
  Qabs (x - y) <= a -> Qabs y <= 1000000 -> a <= 1 ->
  Qabs (Double.fl x - y) <= a + (1 # 8589934592).
Proof.
  intros Hx Hy Ha.
  assert (Hb : Qabs x <= 1048576).
  { apply Qabs_Qle_condition in Hx, Hy. apply Qabs_Qle_condition.
    destruct Hx, Hy. split; lra. }
  pose proof (fl_close_wide x Hb) as Hf.
  apply Qabs_Qle_condition in Hx, Hy, Hf. apply Qabs_Qle_condition.
  destruct Hx, Hy, Hf. split; lra.
Qed.

Lemma double_patch_x_nonneg (x w fw : Q) : 0 <= Double.patch_x x w fw.
Proof.
  unfold Double.patch_x. cbv zeta.
  destruct (Qltb _ 0) eqn:E; [apply Qle_refl|].
  apply Qltb_ge in E. exact E.
Qed.

(** Away from the frame boundary, the position computed in doubles is the
    position of the design document, up to rounding. *)
Lemma double_patch_x_close (x w fw : Q) :
  Qabs x <= 100000 -> 0 <= w -> w <= 100000 ->
  (1 # 1000000000) < Qabs (x + 1.5 * w + w - fw) ->
  Qabs (Double.patch_x x w fw - patch_x x w fw) <= 1 # 1000000000.
Proof.
  intros Hx Hw0 Hw1 Hm.
  unfold Double.patch_x, patch_x. cbv zeta.
  assert (S1 : Qabs (Double.fmul w 1.5 - 1.5 * w) <= 0 + (1 # 8589934592)).
  { apply fl_step_wide; [| | discriminate];
      apply Qabs_Qle_condition; split; lra. }
  set (m := Double.fmul w 1.5) in *.
  apply Qabs_Qle_condition in Hx. destruct Hx as [Hx0 Hx1].
  assert (S2 : Qabs (Double.fadd x m - (x + 1.5 * w))
               <= (1 # 8589934592) + (1 # 8589934592)).
  { apply fl_step_wide; [| | discriminate];
      apply Qabs_Qle_condition in S1; destruct S1;
      apply Qabs_Qle_condition; split; lra. }
  set (r := Double.fadd x m) in *.
  assert (S3 : Qabs (Double.fadd r w - (x + 1.5 * w + w))
               <= (2 # 8589934592) + (1 # 8589934592)).
  { apply fl_step_wide; [| | discriminate];
      apply Qabs_Qle_condition in S2; destruct S2;
      apply Qabs_Qle_condition; split; lra. }
  set (t := Double.fadd r w) in *.
  assert (S4 : Qabs (Double.fsub x m - (x - 1.5 * w))
               <= (1 # 8589934592) + (1 # 8589934592)).
  { apply fl_step_wide; [| | discriminate];
      apply Qabs_Qle_condition in S1; destruct S1;
      apply Qabs_Qle_condition; split; lra. }
  set (l := Double.fsub x m) in *.
  clearbody m r t l.
  apply Qabs_gt_cases in Hm.
  apply Qabs_Qle_condition in S2, S3, S4.
  destruct S2, S3, S4.
  destruct (Qgtb t fw) eqn:E1; destruct (Qgtb (x + 1.5 * w + w) fw) eqn:E2;
    repeat match goal with
           | |- context [Qltb ?a 0] =>
               let E := fresh "E" in destruct (Qltb a 0) eqn:E
           end;
    qbool; apply Qabs_Qle_condition; destruct Hm; split; lra.
Qed.

End Capture.

(** C6 (as the code has it).  For a rectangle whose width and height round
    up to positive whole numbers [w] and [h], [captureSprite] takes the
    sprite from [(rect.x, rect.y, w, h)] and the background patch from
    [(bgX, rect.y, w, h)] of the video frame, where [bgX >= 0] is computed
    in doubles from [rect.x] and [w], the width rounded up to a whole
    pixel: [rect.x] shifted right by 1.5 times [w], or shifted left by 1.5
    times [w] when the right-shifted patch would end past the frame width,
    and then clamped to 0.  For coordinates of at most 100000 units, and
    unless the right-shifted patch ends within 1e-9 of the frame width,
    [bgX] is that position up to a rounding error of at most 1e-9. *)
Theorem C6_background_patch_position :
  forall (video : Video) (s : State) (rect : Rect),
    let w := Qceiling (rw rect) in
    let h := Qceiling (rh rect) in
    (0 < w)%Z -> (0 < h)%Z ->
    exists (bgX : Q) (source : ImageSource),
      Double.captureSprite (Some video) true s rect
      = Some (mkCaptured (OfCrop source (rx rect) (ry rect) w h)
                         (OfCrop FromVideo bgX (ry rect) w h)
                         rect)
      /\ bgX = Double.patch_x (rx rect) (inject_Z w) (NQ (videoWidth video))
      /\ 0 <= bgX
      /\ (Qabs (rx rect) <= 100000 -> inject_Z w <= 100000 ->
          (1 # 1000000000)
          < Qabs (rx rect + 1.5 * inject_Z w + inject_Z w
                  - NQ (videoWidth video)) ->
          Qabs (bgX - patch_x (rx rect) (inject_Z w) (NQ (videoWidth video)))
          <= 1 # 1000000000).
Proof.
  intros video s rect w h Hw Hh.
  unfold Double.captureSprite. fold w h.
  assert (Ew : (w <=? 0)%Z = false) by (apply Z.leb_gt; exact Hw).
  assert (Eh : (h <=? 0)%Z = false) by (apply Z.leb_gt; exact Hh).
  rewrite Ew, Eh. simpl orb. cbv iota. simpl negb. cbv iota.
  assert (Hw0 : 0 <= inject_Z w).
  { change 0 with (inject_Z 0). rewrite <- Zle_Qle. lia. }
  exists (Double.patch_x (rx rect) (inject_Z w) (NQ (videoWidth video))).
  destruct (enabled (maskSettings s)); [destruct (foreground (maskCache s))|];
    eexists; (split; [reflexivity|]); (split; [reflexivity|]);
    (split; [apply double_patch_x_nonneg|]);
    intros Hx Hw1 Hm; apply double_patch_x_close; assumption.
Qed.

Lemma C6_background_patch_position_witness :
  exists (bgX : Q) (source : ImageSource),
    Double.captureSprite (Some hdVideo) true initialState (mkRect 100 50 40 80)
    = Some (mkCaptured (OfCrop source 100 50 40 80)
                       (OfCrop FromVideo bgX 50 40 80)
                       (mkRect 100 50 40 80))
    /\ bgX = Double.patch_x 100 40 1920
    /\ 0 <= bgX
    /\ (Qabs 100 <= 100000 -> 40 <= 100000 ->
        (1 # 1000000000) < Qabs (100 + 1.5 * 40 + 40 - 1920) ->
        Qabs (bgX - patch_x 100 40 1920) <= 1 # 1000000000).
Proof.
  apply (C6_background_patch_position hdVideo initialState (mkRect 100 50 40 80));
    reflexivity.
Defined.

(** C6, the claim as worded fails for a width that is not a whole number:
    for the rectangle (100, 50, 10.5, 20) in a 1920-wide frame the patch is
    read at x = 116.5 (100 + 1.5 * 11), not at 100 + 1.5 * 10.5 = 115.75. *)
Lemma C6_rectangle_width_counterexample :
  exists (bgX : Q) (source : ImageSource),
    Double.captureSprite (Some hdVideo) true initialState (mkRect 100 50 10.5 20)
    = Some (mkCaptured (OfCrop source 100 50 11 20)
                       (OfCrop FromVideo bgX 50 11 20)
                       (mkRect 100 50 10.5 20))
    /\ bgX == 116.5
    /\ ~ bgX == patch_x 100 10.5 1920
    /\ patch_x 100 10.5 1920 == 115.75.
Proof.
  eexists. eexists. split; [vm_compute; reflexivity|].
  split; [reflexivity|]. split; [|reflexivity].
  vm_compute. discriminate.
Qed.

(** At the frame boundary the rounding decides.  The rectangle dragged
    from client x = 168 to x = 638 on a 1344-wide canvas showing a
    1920-wide video starts at x = 240.00000000000003 and is 672 wide after
    rounding up; the right-shifted patch ends, in doubles, at 1920 exactly
    and is kept (x = 1248), whereas in exact arithmetic it ends past the
    frame and the position of the design document is 0. *)
Example patch_at_the_frame_boundary :
  let x := Double.fdiv 168 (Double.fdiv 1344 1920) in
  Double.patch_x x 672 1920 == 1248
  /\ 1920 < x + 1.5 * 672 + 672
  /\ patch_x x 672 1920 == 0.
Proof. cbv zeta. repeat split; vm_compute; reflexivity. Qed.

(** Near the right edge the patch comes from the left of the rectangle,
    and near both edges it is clamped to 0. *)
Example patch_left_and_clamped :
  patch_x 1850 40 1920 == 1790 /\ patch_x 30 1000 1920 == 0.
Proof. split; reflexivity. Qed.
(** ** Pointer state machine *)

Section Chain.




(** The other branch: a node is accepted when the drag is longer than 5,
    and no shape is made. *)
Lemma double_finishChain_open (cur : Point) (now : Z) (s : State)
    (dragStart : Point) :
  isDrawing s = true ->
  currentDragStart s = Some dragStart ->
  match activePoints s with
  | first :: _ :: _ => 40 <= Double.getDistance cur first
  | _ => True
  end ->
  shapes (Double.finishChain cur now s) = shapes s
  /\ isDrawing (Double.finishChain cur now s) = false
  /\ currentDragStart (Double.finishChain cur now s) = None
  /\ activePoints (Double.finishChain cur now s)
     = if Qgtb (Double.getDistance dragStart cur) 5
       then activePoints s
            ++ [mkPoint (px dragStart) (py dragStart)
                  (Some (Double.radius_value (Double.getDistance dragStart cur)))
                  (Some now)]
       else activePoints s.
Proof.
  intros Hd Hs Ha. unfold Double.finishChain. rewrite Hd, Hs.
  assert (E : match activePoints s with
              | first :: _ :: _ => Qltb (Double.getDistance cur first) 40
              | _ => false
              end = false).
  { destruct (activePoints s) as [|first [|second rest]];
      try reflexivity. apply Qltb_ge. exact Ha. }
  rewrite E.
  destruct (Qgtb (Double.getDistance dragStart cur) 5); repeat split.
Qed.

(** A pointer-down with the chain tool arms the drag and keeps the
    accepted nodes. *)
Lemma double_startDrawing_chain (env : Env) (e : MouseEvent) (now : Z)
    (particles : list Particle) (s : State) :
  button e = 0%Z ->
  tool s = Some connected_circle ->
  let s1 := fst (Double.startDrawing env e now particles s) in
  tool s1 = Some connected_circle
  /\ isDrawing s1 = true
  /\ currentDragStart s1 = Some (Double.eventPoint env e)
  /\ activePoints s1 = activePoints s
  /\ shapes s1 = shapes s.
Proof.
  intros Hb Ht. unfold Double.startDrawing. rewrite Hb, Ht. simpl.
  destruct (isPlaying s); unfold togglePlay;
    destruct (videoRef env) as [video|]; simpl;
    try destruct (paused video); simpl; repeat split; exact Ht.
Qed.

End Chain.



(** The sample chain on the 1344-wide canvas: two nodes are accepted, the
    first at x = 1.4285714285714286 (client x = 1).  A click at client
    x = 28 closes the chain into one shape of two points.  A click at
    client x = 29 lands at x = 41.42857142857143; the distance computed in
    doubles is 40 exactly, which is not below the threshold, and no shape
    is made. *)
Example chain_sample_run :
  List.length (activePoints Double.chainTwoNodes) = 2%nat
  /\ shapes Double.chainTwoNodes = []
  /\ map (fun shape => (isClosed shape, List.length (points shape)))
         (shapes (Double.drag Double.pixelEnv (mouse 28 100) (mouse 28 100) 3000
                    Double.chainTwoNodes))
     = [(Some true, 2%nat)]
  /\ Double.getDistance (Double.eventPoint Double.pixelEnv (mouse 29 100))
                        (nth 0 (activePoints Double.chainTwoNodes) (point 0 0))
     = 40
  /\ shapes (Double.drag Double.pixelEnv (mouse 29 100) (mouse 29 100) 3000
               Double.chainTwoNodes) = [].
Proof. vm_compute. repeat split; reflexivity. Qed.

(** On the 336-wide canvas, with the first node pressed at client x = 17
    (stored as 97.14285714285715), a click at client x = 24 lands at
    137.14285714285714; the distance computed in doubles is
    39.999999999999986 and the chain is closed. *)
Example chain_closes_below_forty :
  let nodes :=
    Double.drag Double.tinyEnv (mouse 100 100) (mouse 110 100) 2000
      (Double.drag Double.tinyEnv (mouse 17 50) (mouse 20 50) 1000
         (setTool (Some connected_circle) initialState)) in
  List.length (activePoints nodes) = 2%nat
  /\ Double.getDistance (Double.eventPoint Double.tinyEnv (mouse 24 50))
                        (nth 0 (activePoints nodes) (point 0 0))
     < 40
  /\ map (fun shape => (isClosed shape, List.length (points shape)))
         (shapes (Double.drag Double.tinyEnv (mouse 24 50) (mouse 24 50) 3000
                    nodes))
     = [(Some true, 2%nat)].
Proof. vm_compute. repeat split; reflexivity. Qed.
Section PlayerMove.





End PlayerMove.



(** The sample selection on the 1344-wide canvas starts at x = 40 (client
    x = 28).  A release at client x = 150 reaches the moving phase.  A
    release at client x = 21 lands at x = 30.000000000000004, the width
    computed in doubles is 9.999999999999996 and the selection is
    cancelled; a release at client x = 20 is 11.43 units away and reaches
    the moving phase. *)
Example player_move_sample_run :
  playerMoveState (Double.pointerUp Double.pixelEnv (mouse 150 260) 2000 []
                     Double.playerSelecting) = moving
  /\ Qabs (Double.fsub (px (Double.eventPoint Double.pixelEnv (mouse 21 260))) 40)
     < 10
  /\ playerMoveState (Double.pointerUp Double.pixelEnv (mouse 21 260) 2000 []
                        Double.playerSelecting) = idle
  /\ shapes (Double.pointerUp Double.pixelEnv (mouse 21 260) 2000 []
               Double.playerSelecting) = []
  /\ playerMoveState (Double.pointerUp Double.pixelEnv (mouse 20 260) 2000 []
                        Double.playerSelecting) = moving.
Proof. vm_compute. repeat split; reflexivity. Qed.

(** ** Resetting the transient interaction state *)

Section Reset.

Lemma toolButton_onClick_transient (slides : bool) (item : Tool) (s : State) :
  let s' := toolButton_onClick slides item s in
  activePoints s' = activePoints s
  /\ isDrawing s' = isDrawing s
  /\ currentDragStart s' = currentDragStart s
  /\ playerMoveState s' = playerMoveState s
  /\ playerSelectionRect s' = playerSelectionRect s
  /\ capturedSprite s' = capturedSprite s.
Proof.
  unfold toolButton_onClick.
  destruct slides; [repeat split|].
  destruct item; repeat split.
Qed.

(** The button selects its tool, or deselects it when it is active. *)
Lemma toolButton_onClick_tool (item : Tool) (s : State) :
  tool (toolButton_onClick false item s)
  = if match tool s with Some t => Tool_eqb t item | None => false end
    then None else Some item.
Proof.
  unfold toolButton_onClick.
  destruct item; destruct (tool s) as [[]|]; reflexivity.
Qed.

End Reset.

(** C9 (as the code has it).  After playback is enabled and after a global
    clear the transient interaction state is idle: no in-progress points,
    no drawing in progress, player-move phase idle, no selection rectangle
    and no captured sprite (and no drag start).  A click on a tool button
    changes the active tool only and leaves all of these as they were. *)
Theorem C9_transient_reset :
  forall s : State,
    (transient_idle (enablePlayback s)
     /\ currentDragStart (enablePlayback s) = None)
    /\ (transient_idle (clearAll s)
        /\ currentDragStart (clearAll s) = None)
    /\ (forall (slides : bool) (item : Tool),
           let s' := toolButton_onClick slides item s in
           activePoints s' = activePoints s
           /\ isDrawing s' = isDrawing s
           /\ currentDragStart s' = currentDragStart s
           /\ playerMoveState s' = playerMoveState s
           /\ playerSelectionRect s' = playerSelectionRect s
           /\ capturedSprite s' = capturedSprite s).
Proof.
  intros s. split; [|split].
  - unfold transient_idle, enablePlayback, effect_isPlaying. simpl.
    repeat split.
  - unfold transient_idle, clearAll. simpl. repeat split.
  - intros slides item. apply toolButton_onClick_transient.
Qed.

(** C9, the claim as worded fails for a tool switch: with one polygon
    vertex placed, a click on the pen button makes the pen the active tool
    and the vertex is still among the in-progress points. *)
Lemma C9_tool_switch_counterexample :
  tool polygonInProgress = Some polygon
  /\ tool (toolButton_onClick false pen polygonInProgress) = Some pen
  /\ activePoints (toolButton_onClick false pen polygonInProgress) <> []
  /\ ~ transient_idle (toolButton_onClick false pen polygonInProgress).
Proof.
  split; [reflexivity|]. split; [reflexivity|]. split.
  - vm_compute. discriminate.
  - intros [H _]. vm_compute in H. discriminate.
Qed.

(** * Further properties *)

(** ** Coordinate mapper: round trip and containment *)

Section MapperFacts.

Lemma contain_fit_scale_pos (cw ch vw vh : N) :
  cw <> 0%N -> ch <> 0%N -> 0 < layout_scale (contain_fit cw ch vw vh).
Proof.
  intros Hc Hh. unfold contain_fit.
  destruct ((vw =? 0)%N || (vh =? 0)%N) eqn:E; [reflexivity|].
  apply orb_false_iff in E. destruct E as [Ew Eh].
  apply N.eqb_neq in Ew, Eh. cbn [layout_scale].
  pose proof (NQ_pos _ Hc). pose proof (NQ_pos _ Hh).
  pose proof (NQ_pos _ Ew). pose proof (NQ_pos _ Eh).
  apply Q.min_glb_lt; apply Qlt_shift_div_l; lra.
Qed.

Lemma getVideoLayout_scale_pos (canvas : Canvas) (video : Video) :
  canvas_width canvas <> 0%N -> canvas_height canvas <> 0%N ->
  0 < layout_scale (getVideoLayout canvas video).
Proof.
  intros Hc Hh.
  destruct (getVideoLayout_is_contain_fit canvas video) as [_ [_ [_ [_ E]]]].
  rewrite E. apply contain_fit_scale_pos; assumption.
Qed.


End MapperFacts.

(** X1.  On a canvas of non-zero size, mapping a video-space point to the
    canvas with the transform the compositor installs and back with
    [getVideoSpacePoint] returns the point, and mapping a pointer position
    to video space and forward again returns the pointer position
    (relative to the canvas). *)
Theorem X1_mapping_round_trip :
  forall (canvas : Canvas) (video : Video) (p : Point) (clientX clientY : Q),
    canvas_width canvas <> 0%N ->
    canvas_height canvas <> 0%N ->
    let layout := getVideoLayout canvas video in
    let back :=
      getVideoSpacePoint (Some canvas) (Some video)
        (rect_left canvas + fst (toCanvas layout p))
        (rect_top canvas + snd (toCanvas layout p)) in
    let there :=
      toCanvas layout
        (getVideoSpacePoint (Some canvas) (Some video) clientX clientY) in
    (px back == px p /\ py back == py p)
    /\ (fst there == clientX - rect_left canvas
        /\ snd there == clientY - rect_top canvas).
Proof.
  intros canvas video p clientX clientY Hw Hh layout back there.
  pose proof (getVideoLayout_scale_pos canvas video Hw Hh) as Hs.
  fold layout in Hs.
  unfold back, there, getVideoSpacePoint, toCanvas, point.
  fold layout. cbn [px py fst snd].
  repeat split; field; lra.
Qed.

Lemma X1_mapping_round_trip_witness :
  let canvas := mkCanvas 800 600 0 0 in
  let layout := getVideoLayout canvas hdVideo in
  px (getVideoSpacePoint (Some canvas) (Some hdVideo)
        (0 + fst (toCanvas layout (point 960 540)))
        (0 + snd (toCanvas layout (point 960 540)))) == 960.
Proof.
  exact (proj1 (proj1 (X1_mapping_round_trip (mkCanvas 800 600 0 0) hdVideo
                         (point 960 540) 0 0
                         ltac:(simpl; lia) ltac:(simpl; lia)))).
Defined.



(** ** Shape history: round trips and what undo and redo preserve *)

Section HistoryFacts.

Lemma removelast_cons_last {A : Type} (first : A) (rest : list A) :
  removelast (first :: rest) ++ [List.last rest first] = first :: rest.
Proof.
  rewrite <- (last_cons rest first first).
  symmetry. apply app_removelast_last. discriminate.
Qed.

Lemma timeline_snoc (xs : list Shape) (x : Shape) (groups : list (list Shape)) :
  xs ++ rev (List.concat (groups ++ [[x]]))
  = (xs ++ [x]) ++ rev (List.concat groups).
Proof.
  rewrite concat_app. cbn [List.concat]. rewrite app_nil_r, rev_app_distr.
  rewrite <- app_assoc. reflexivity.
Qed.

(** A non-empty history ends with a shape; a non-empty stack of
    one-shape groups ends with such a group. *)
Lemma shapes_snoc (s : State) :
  shapes s <> [] -> exists xs x, shapes s = xs ++ [x].
Proof.
  intros H. destruct (exists_last H) as [xs [x E]]. exists xs, x. exact E.
Qed.

Lemma redoStack_snoc (s : State) :
  singleton_groups s -> redoStack s <> [] ->
  exists groups x, redoStack s = groups ++ [[x]].
Proof.
  unfold singleton_groups. intros Hs H.
  destruct (exists_last H) as [groups [g E]]. rewrite E in Hs.
  apply Forall_app in Hs. destruct Hs as [_ Hg].
  inversion Hg as [|g' l' Hlen _]; subst.
  destruct g as [|x [|y more]]; try discriminate.
  exists groups, x. exact E.
Qed.

Lemma undo_timeline (s : State) : timeline (undo s) = timeline s.
Proof.
  destruct (shapes s) as [|first rest] eqn:E.
  - unfold undo. rewrite E. reflexivity.
  - assert (Hne : shapes s <> []) by (rewrite E; discriminate).
    destruct (shapes_snoc s Hne) as [xs [x Ex]].
    destruct (undo_snoc s xs x Ex) as [H1 H2].
    unfold timeline. rewrite H1, H2, Ex. apply timeline_snoc.
Qed.

Lemma redo_timeline (s : State) :
  singleton_groups s -> timeline (redo s) = timeline s.
Proof.
  intros Hs. destruct (redoStack s) as [|first rest] eqn:E.
  - unfold redo. rewrite E. reflexivity.
  - assert (Hne : redoStack s <> []) by (rewrite E; discriminate).
    destruct (redoStack_snoc s Hs Hne) as [groups [x Ex]].
    destruct (redo_snoc s groups x [] Ex) as [H1 H2].
    unfold timeline. rewrite H1, H2, Ex. symmetry. apply timeline_snoc.
Qed.

Lemma undo_redo_size (op : HistoryOp) (s : State) :
  singleton_groups s ->
  (List.length (shapes (applyOp op s)) + List.length (redoStack (applyOp op s))
   = List.length (shapes s) + List.length (redoStack s))%nat.
Proof.
  intros Hs. destruct op; unfold applyOp.
  - destruct (shapes s) as [|first rest] eqn:E.
    + unfold undo. rewrite E. cbv iota. rewrite E. reflexivity.
    + assert (Hne : shapes s <> []) by (rewrite E; discriminate).
      destruct (shapes_snoc s Hne) as [xs [x Ex]].
      destruct (undo_snoc s xs x Ex) as [H1 H2].
      rewrite H1, H2, <- E, Ex, !length_app. cbn [List.length]. lia.
  - destruct (redoStack s) as [|first rest] eqn:E.
    + unfold redo. rewrite E. cbv iota. rewrite E. reflexivity.
    + assert (Hne : redoStack s <> []) by (rewrite E; discriminate).
      destruct (redoStack_snoc s Hs Hne) as [groups [x Ex]].
      destruct (redo_snoc s groups x [] Ex) as [H1 H2].
      rewrite H1, H2, <- E, Ex, !length_app. cbn [List.length]. lia.
Qed.

Lemma applyOp_singleton_groups (op : HistoryOp) (s : State) :
  singleton_groups s -> singleton_groups (applyOp op s).
Proof.
  destruct op; [apply singleton_groups_undo | apply singleton_groups_redo].
Qed.

(** [undo] and [redo] write the two history cells only. *)
Lemma history_eta (s : State) (a : list Shape) (b : list (list Shape)) :
  setShapes (shapes s) (setRedoStack (redoStack s)
    (setShapes a (setRedoStack b s))) = s.
Proof. destruct s; reflexivity. Qed.

Lemma undo_frame (s : State) :
  undo s = setShapes (shapes (undo s)) (setRedoStack (redoStack (undo s)) s).
Proof.
  unfold undo. destruct (shapes s) eqn:E; [|reflexivity].
  destruct s; cbn in *; subst; reflexivity.
Qed.

Lemma redo_frame (s : State) :
  redo s = setShapes (shapes (redo s)) (setRedoStack (redoStack (redo s)) s).
Proof.
  unfold redo. destruct (redoStack s) eqn:E.
  - destruct s; cbn in *; subst; reflexivity.
  - destruct (List.last _ _); [|reflexivity].
    destruct s; cbn in *; subst; reflexivity.
Qed.

Lemma undo_shapes_empty (s : State) :
  shapes s = [] -> redoStack s = [] ->
  forall op, shapes (applyOp op s) = [] /\ redoStack (applyOp op s) = [].
Proof.
  intros Hs Hr [|]; unfold applyOp, undo, redo; [rewrite Hs | rewrite Hr];
    split; assumption.
Qed.

End HistoryFacts.

(** X3.  [redo] after [undo] gives back the state when the history is not
    empty, and [undo] after [redo] gives back the state when the last
    group of the redo stack holds one shape (as every group pushed by
    [undo] does). *)
Theorem X3_undo_redo_round_trip :
  forall s : State,
    (shapes s <> [] -> redo (undo s) = s)
    /\ (forall (groups : list (list Shape)) (x : Shape),
           redoStack s = groups ++ [[x]] -> undo (redo s) = s).
Proof.
  intros s. split.
  - intros Hne. destruct (shapes_snoc s Hne) as [xs [x Ex]].
    destruct (undo_snoc s xs x Ex) as [H1 H2].
    destruct (redo_snoc (undo s) (redoStack s) x [] H2) as [H3 H4].
    rewrite (redo_frame (undo s)), H3, H4, H1, <- Ex.
    rewrite (undo_frame s). apply history_eta.
  - intros groups x Hr.
    destruct (redo_snoc s groups x [] Hr) as [H1 H2].
    destruct (undo_snoc (redo s) (shapes s) x H1) as [H3 H4].
    rewrite (undo_frame (redo s)), H3, H4, H2, <- Hr.
    rewrite (redo_frame s). apply history_eta.
Qed.

Lemma X3_undo_redo_round_trip_witness :
  redo (undo chainClosed) = chainClosed.
Proof.
  apply (proj1 (X3_undo_redo_round_trip chainClosed)).
  vm_compute. discriminate.
Defined.

(** X4.  Any sequence of undos and redos, from a state whose redo groups
    hold one shape each, neither loses nor duplicates nor reorders a
    shape: the history followed by the undone shapes in reverse stack
    order stays the same list, and the groups keep holding one shape. *)
Theorem X4_undo_redo_preserve_timeline :
  forall (ops : list HistoryOp) (s : State),
    singleton_groups s ->
    timeline (applyOps ops s) = timeline s
    /\ singleton_groups (applyOps ops s)
    /\ (List.length (shapes (applyOps ops s))
        + List.length (redoStack (applyOps ops s))
        = List.length (shapes s) + List.length (redoStack s))%nat.
Proof.
  induction ops as [|op ops IH]; intros s Hs; [repeat split; assumption|].
  unfold applyOps in *. cbn [fold_left].
  destruct (IH (applyOp op s) (applyOp_singleton_groups op s Hs)) as [H1 [H2 H3]].
  split; [|split; [exact H2|]].
  - rewrite H1. destruct op; [apply undo_timeline | apply redo_timeline; exact Hs].
  - rewrite H3. apply undo_redo_size. exact Hs.
Qed.

Lemma X4_undo_redo_preserve_timeline_witness :
  timeline (applyOps [OpUndo; OpRedo; OpUndo; OpUndo; OpRedo] chainClosed)
  = timeline chainClosed.
Proof.
  apply (X4_undo_redo_preserve_timeline
           [OpUndo; OpRedo; OpUndo; OpUndo; OpRedo] chainClosed).
  constructor.
Defined.

(** X5.  After a global clear or after playback is enabled the history
    and the redo stack are empty and stay empty under any sequence of
    undos and redos: neither operation can be undone. *)
Theorem X5_clear_is_final :
  forall (ops : list HistoryOp) (s : State),
    (shapes (applyOps ops (clearAll s)) = []
     /\ redoStack (applyOps ops (clearAll s)) = [])
    /\ (shapes (applyOps ops (enablePlayback s)) = []
        /\ redoStack (applyOps ops (enablePlayback s)) = []).
Proof.
  assert (H : forall ops st, shapes st = [] -> redoStack st = [] ->
                shapes (applyOps ops st) = [] /\ redoStack (applyOps ops st) = []).
  { induction ops as [|op ops IH]; intros st Hs Hr; [split; assumption|].
    unfold applyOps in *. cbn [fold_left].
    destruct (undo_shapes_empty st Hs Hr op) as [H1 H2].
    apply IH; assumption. }
  intros ops s. split; apply H; reflexivity.
Qed.

(** ** Pointer handlers: what a gesture leaves behind *)

Section Gestures.

(** Setting a cell to the value it holds changes nothing. *)
Lemma setIsPlaying_eta (s : State) : setIsPlaying (isPlaying s) s = s.
Proof. destruct s; reflexivity. Qed.

(** The part of [startDrawing] before the tool is looked at: only the
    playback flag may change, and it is off when a video is mounted. *)
Lemma startDrawing_cases (env : Env) (e : MouseEvent) (now : Z)
    (particles : list Particle) (s : State) (t : Tool) :
  button e = 0%Z ->
  tool s = Some t ->
  t <> masking ->
  exists b : bool,
    (videoRef env <> None -> b = false)
    /\ startDrawing env e now particles s
       = let s2 := setIsPlaying b s in
         let startPoint := eventPoint env e in
         match t with
         | player_move =>
             match playerMoveState s with
             | idle =>
                 (setPlayerMoveState selecting
                    (setPlayerSelectionRect
                       (Some (mkRect (px startPoint) (py startPoint) 0 0)) s2), None)
             | moving =>
                 (setIsPlaying b (fst (finishDrawing env e now particles s)),
                  snd (finishDrawing env e now particles s))
             | selecting => (s2, None)
             end
         | spotlight | lens => (setIsDrawing true s2, None)
         | connected_circle =>
             (setIsDrawing true (setCurrentDragStart (Some startPoint) s2), None)
         | circle =>
             (setActivePoints [startPoint]
                (setIsDrawing true (setCurrentDragStart (Some startPoint) s2)), None)
         | polygon => (setActivePoints (activePoints s ++ [startPoint]) s2, None)
         | _ => (setActivePoints [startPoint] (setIsDrawing true s2), None)
         end.
Proof.
  intros Hb Ht Hm. unfold startDrawing. rewrite Hb, Ht. cbn [Z.eqb negb].
  destruct (videoRef env) as [video|] eqn:Hv.
  - exists false. split; [reflexivity|].
    assert (E : (if negb (if isPlaying s then true else paused video)
                 then setIsPlaying false (if isPlaying s then togglePlay env s else s)
                 else (if isPlaying s then togglePlay env s else s))
                = setIsPlaying false s).
    { unfold togglePlay. rewrite Hv.
      destruct (isPlaying s) eqn:Ep; cbn [negb].
      - reflexivity.
      - destruct (paused video); cbn [negb]; [|reflexivity].
        rewrite <- Ep. symmetry. apply setIsPlaying_eta. }
    destruct t; try contradiction; cbv zeta; rewrite E; try reflexivity.
    destruct (playerMoveState s); try reflexivity.
    destruct (finishDrawing env e now particles s). reflexivity.
  - exists (isPlaying s). split; [intros H; contradiction|].
    assert (E : (if isPlaying s then togglePlay env s else s) = s).
    { unfold togglePlay. rewrite Hv. destruct (isPlaying s); reflexivity. }
    rewrite setIsPlaying_eta.
    destruct t; try contradiction; cbv zeta; rewrite E; try reflexivity.
    destruct (playerMoveState s); try reflexivity.
    destruct (finishDrawing env e now particles s). reflexivity.
Qed.

(** Pointer moves of a freehand stroke append their points. *)
Lemma drawPreview_freehand (env : Env) (moves : list MouseEvent) (s : State) (t : Tool) :
  tool s = Some t ->
  isDrawing s = true ->
  match t with pen => true | arrow => arrow_isFreehand (settings s) | _ => false end
  = true ->
  fold_left (fun st e => drawPreview env e st) moves s
  = setActivePoints (activePoints s ++ map (eventPoint env) moves) s.
Proof.
  revert s. induction moves as [|m moves IH]; intros s Ht Hd Hf.
  - cbn [fold_left map]. rewrite app_nil_r. destruct s; reflexivity.
  - cbn [fold_left map].
    assert (E : drawPreview env m s
                = setActivePoints (activePoints s ++ [eventPoint env m]) s).
    { unfold drawPreview. rewrite Ht, Hd.
      destruct t; try discriminate; cbn [negb andb Tool_eqb];
        try rewrite Hf; reflexivity. }
    rewrite E, IH; [|exact Ht|exact Hd|exact Hf].
    cbn [activePoints setActivePoints]. rewrite <- app_assoc. reflexivity.
Qed.

(** Pointer moves of the other drawing tools leave the state alone. *)
Lemma drawPreview_other (env : Env) (moves : list MouseEvent) (s : State) (t : Tool) :
  tool s = Some t ->
  match t with pen => true | arrow => arrow_isFreehand (settings s) | _ => false end
  = false ->
  fold_left (fun st e => drawPreview env e st) moves s = s.
Proof.
  intros Ht Hf. induction moves as [|m moves IH]; [reflexivity|].
  cbn [fold_left].
  assert (E : drawPreview env m s = s).
  { unfold drawPreview. rewrite Ht.
    destruct t; try reflexivity; try discriminate;
      destruct (isDrawing s); cbn [negb andb Tool_eqb]; try rewrite Hf;
      reflexivity. }
  rewrite E. exact IH.
Qed.

End Gestures.

Section RightClick.

(** A release with nothing in progress changes nothing, whatever the tool:
    every branch of [finishDrawing] needs a drawing in progress or a
    player-move phase other than idle. *)
Lemma idle_release (env : Env) (e : MouseEvent) (now : Z)
    (particles : list Particle) (s : State) :
  isDrawing s = false -> playerMoveState s = idle ->
  Double.finishDrawing env e now particles s = (s, None).
Proof.
  intros Hd Hp. unfold Double.finishDrawing, Double.finishPlayerMove,
    Double.finishChain, finishStroke.
  rewrite Hd, Hp. destruct (tool s) as [[]|]; reflexivity.
Qed.

(** What [handleContextMenu] leaves. *)
Lemma handleContextMenu_resets (s : State) :
  let s' := handleContextMenu s in
  shapes s' = shapes s /\ redoStack s' = redoStack s /\ tool s' = tool s
  /\ activePoints s' = [] /\ isDrawing s' = false /\ playerMoveState s' = idle
  /\ ((activePoints s <> [] \/ isDrawing s = true \/ playerMoveState s <> idle) ->
      transient_idle s' /\ currentDragStart s' = None).
Proof.
  unfold handleContextMenu, transient_idle.
  destruct (activePoints s) as [|p ps] eqn:Ea;
    destruct (isDrawing s) eqn:Ed;
    destruct (playerMoveState s) eqn:Ep;
    cbn [List.length Nat.ltb Nat.leb orb];
    (split; [try assumption; reflexivity|]);
    (split; [try assumption; reflexivity|]);
    (split; [try assumption; reflexivity|]);
    (split; [try assumption; reflexivity|]);
    (split; [try assumption; reflexivity|]);
    (split; [try assumption; reflexivity|]);
    try (intros _; repeat split; reflexivity).
  intros [Hc|[Hc|Hc]]; try discriminate; exfalso; apply Hc; reflexivity.
Qed.

End RightClick.

(** X6.  The handler of the [contextmenu] event never touches the history,
    the redo stack or the active tool; afterwards no points are
    accumulated, no drawing is in progress and the player-move phase is
    idle; and when anything was in progress, the drag start, the selection
    rectangle and the captured sprite are dropped too.  The other two
    events of a click with another button than the left one (on a canvas
    with an area, so that the pointer coordinates are finite): the press is
    ignored by [startDrawing]; the release is handled by [finishDrawing],
    which does not look at the button.  When the [contextmenu] event comes
    before the release, the release finds nothing in progress and changes
    nothing, so the click makes no shape and starts no capture.  When the
    release comes first it acts as any release: in the moving phase of the
    player-move tool it appends the player-move shape, which the handler
    then leaves in the history. *)
Theorem X6_context_menu_cancels :
  forall (env : Env) (e : MouseEvent) (now : Z) (particles : list Particle)
         (s : State),
    Double.pointerFinite env = true ->
    button e <> 0%Z ->
    let menu := handleContextMenu s in
    let released := fst (Double.finishDrawing env e now particles s) in
    (shapes menu = shapes s /\ redoStack menu = redoStack s /\ tool menu = tool s
     /\ activePoints menu = [] /\ isDrawing menu = false
     /\ playerMoveState menu = idle
     /\ ((activePoints s <> [] \/ isDrawing s = true \/ playerMoveState s <> idle) ->
         transient_idle menu /\ currentDragStart menu = None))
    /\ Double.startDrawing env e now particles s = (s, None)
    /\ Double.finishDrawing env e now particles menu = (menu, None)
    /\ (tool s = Some player_move -> playerMoveState s = moving ->
        capturedSprite s <> None ->
        exists shape,
          shapes released = shapes s ++ [shape]
          /\ shape_type shape = Some player_move
          /\ shapes (handleContextMenu released) = shapes s ++ [shape]
          /\ playerMoveState (handleContextMenu released) = idle
          /\ capturedSprite (handleContextMenu released) = None).
Proof.
  intros env e now particles s _ Hb menu released.
  pose proof (handleContextMenu_resets s) as R. cbv zeta in R. fold menu in R.
  split; [exact R|].
  split.
  { unfold Double.startDrawing. apply Z.eqb_neq in Hb. rewrite Hb. reflexivity. }
  split.
  { destruct R as [_ [_ [_ [_ [Rd [Rp _]]]]]].
    apply idle_release; assumption. }
  intros Ht Hp Hc.
  destruct (capturedSprite s) as [captured|] eqn:Ec; [|contradiction].
  unfold released, Double.finishDrawing, Double.finishPlayerMove.
  rewrite Ht, Hp, Ec. cbn [fst].
  eexists. split; [reflexivity|]. split; [reflexivity|].
  unfold handleContextMenu.
  match goal with |- context [if ?c then _ else _] => destruct c end;
    repeat split.
Qed.

Lemma X6_context_menu_cancels_witness :
  exists shape,
    shapes (fst (Double.finishDrawing Double.pixelEnv (mkMouseEvent 2 150 260)
                   3000 [] Double.playerMoving))
    = shapes Double.playerMoving ++ [shape]
    /\ shape_type shape = Some player_move
    /\ shapes (handleContextMenu
                 (fst (Double.finishDrawing Double.pixelEnv
                         (mkMouseEvent 2 150 260) 3000 [] Double.playerMoving)))
       = shapes Double.playerMoving ++ [shape]
    /\ playerMoveState
         (handleContextMenu
            (fst (Double.finishDrawing Double.pixelEnv
                    (mkMouseEvent 2 150 260) 3000 [] Double.playerMoving)))
       = idle
    /\ capturedSprite
         (handleContextMenu
            (fst (Double.finishDrawing Double.pixelEnv
                    (mkMouseEvent 2 150 260) 3000 [] Double.playerMoving)))
       = None.
Proof.
  apply (X6_context_menu_cancels Double.pixelEnv (mkMouseEvent 2 150 260)
           3000 [] Double.playerMoving).
  - vm_compute. reflexivity.
  - discriminate.
  - reflexivity.
  - vm_compute. reflexivity.
  - vm_compute. discriminate.
Defined.

(** X7.  [handleDoubleClick]: with the polygon tool and more than two
    vertices it appends one closed polygon made of the vertices and clears
    them; with two or fewer it changes nothing (the vertices stay).  With
    the chain tool it always clears the nodes and the drag, and appends one
    open chain with timestamp 0 made of the nodes when there is at least
    one.  With any other tool it changes nothing. *)
Theorem X7_double_click_finalizes :
  forall (now : Z) (s : State),
    let s' := handleDoubleClick now s in
    (tool s = Some polygon ->
     ((2 < List.length (activePoints s))%nat ->
      exists shape,
        shapes s' = shapes s ++ [shape]
        /\ shape_type shape = Some polygon
        /\ isClosed shape = Some true
        /\ points shape = map Some (activePoints s)
        /\ activePoints s' = [] /\ redoStack s' = [])
     /\ ((List.length (activePoints s) <= 2)%nat -> s' = s))
    /\ (tool s = Some connected_circle ->
        activePoints s' = [] /\ isDrawing s' = false /\ currentDragStart s' = None
        /\ (activePoints s = [] -> shapes s' = shapes s /\ redoStack s' = redoStack s)
        /\ (activePoints s <> [] ->
            exists shape,
              shapes s' = shapes s ++ [shape]
              /\ shape_type shape = Some connected_circle
              /\ isClosed shape = Some false
              /\ shape_timestamp shape = 0%Z
              /\ points shape = map Some (activePoints s)))
    /\ (tool s <> Some polygon -> tool s <> Some connected_circle -> s' = s).
Proof.
  intros now s. unfold handleDoubleClick. split; [|split].
  - intros Ht. rewrite Ht. split.
    + intros Hlen. apply Nat.ltb_lt in Hlen. rewrite Hlen.
      eexists. repeat split.
    + intros Hlen. apply Nat.ltb_ge in Hlen. rewrite Hlen. reflexivity.
  - intros Ht. rewrite Ht.
    split; [reflexivity|]. split; [reflexivity|]. split; [reflexivity|].
    split.
    + intros Ha. rewrite Ha. split; reflexivity.
    + intros Ha. destruct (activePoints s) as [|p ps] eqn:E; [contradiction|].
      cbn [List.length Nat.ltb Nat.leb]. eexists. repeat split.
  - intros Hp Hc. destruct (tool s) as [[]|]; try reflexivity; contradiction.
Qed.

Lemma X7_double_click_finalizes_witness :
  exists shape,
    shapes (handleDoubleClick 4000 chainTwoNodes) = shapes chainTwoNodes ++ [shape]
    /\ shape_type shape = Some connected_circle
    /\ isClosed shape = Some false
    /\ shape_timestamp shape = 0%Z
    /\ points shape = map Some (activePoints chainTwoNodes).
Proof.
  destruct (X7_double_click_finalizes 4000 chainTwoNodes) as [_ [Hchain _]].
  destruct (Hchain eq_refl) as [_ [_ [_ [_ H]]]].
  apply H. vm_compute. discriminate.
Defined.

Section GestureFacts.

(** One click with the polygon tool adds its position as a vertex. *)
Lemma polygon_click (env : Env) (e : MouseEvent) (now : Z) (s : State) :
  button e = 0%Z ->
  tool s = Some polygon ->
  let s' := drag env e e now s in
  tool s' = Some polygon
  /\ activePoints s' = activePoints s ++ [eventPoint env e]
  /\ shapes s' = shapes s /\ redoStack s' = redoStack s.
Proof.
  intros Hb Ht.
  destruct (startDrawing_cases env e now [] s polygon Hb Ht ltac:(discriminate))
    as [b [_ E]].
  unfold drag, pointerUp, finishDrawing. rewrite E.
  cbn [fst tool setActivePoints setIsPlaying]. rewrite Ht.
  repeat split; assumption.
Qed.

Lemma polygon_clicks (env : Env) (events : list MouseEvent) (now : Z) :
  Forall (fun e => button e = 0%Z) events ->
  forall s, tool s = Some polygon ->
    let s' := clicks env events now s in
    tool s' = Some polygon
    /\ activePoints s' = activePoints s ++ map (eventPoint env) events
    /\ shapes s' = shapes s /\ redoStack s' = redoStack s.
Proof.
  induction 1 as [|e events Hb _ IH]; intros s Ht.
  - cbn. rewrite app_nil_r. repeat split; assumption.
  - destruct (polygon_click env e now s Hb Ht) as [H1 [H2 [H3 H4]]].
    destruct (IH _ H1) as [G1 [G2 [G3 G4]]].
    unfold clicks in *. cbn [fold_left map].
    rewrite G2, G3, G4, H2, H3, H4, <- app_assoc.
    repeat split; assumption.
Qed.

End GestureFacts.

(** X8.  With the polygon tool and no vertex placed, left clicks place one
    vertex each, in order, and make no shape.  A double click then closes
    them into one polygon when there are more than two; with two or fewer
    it makes no shape and the vertices stay in progress. *)
Theorem X8_polygon_gesture :
  forall (env : Env) (events : list MouseEvent) (now : Z) (s : State),
    Forall (fun e => button e = 0%Z) events ->
    tool s = Some polygon ->
    activePoints s = [] ->
    let vertices := map (eventPoint env) events in
    let placed := clicks env events now s in
    let s' := handleDoubleClick now placed in
    (activePoints placed = vertices /\ shapes placed = shapes s)
    /\ ((2 < List.length events)%nat ->
        exists shape,
          shapes s' = shapes s ++ [shape]
          /\ isClosed shape = Some true
          /\ points shape = map Some vertices
          /\ activePoints s' = [])
    /\ ((List.length events <= 2)%nat ->
        shapes s' = shapes s /\ activePoints s' = vertices).
Proof.
  intros env events now s Hb Ht Ha vertices placed s'.
  destruct (polygon_clicks env events now Hb s Ht) as [H1 [H2 [H3 H4]]].
  fold placed in H1, H2, H3, H4. rewrite Ha in H2. cbn [app] in H2.
  fold vertices in H2.
  assert (Hlen : List.length (activePoints placed) = List.length events)
    by (rewrite H2; apply length_map).
  split; [split; assumption|].
  unfold s', handleDoubleClick. rewrite H1, Hlen. split.
  - intros Hn. apply Nat.ltb_lt in Hn. rewrite Hn.
    eexists. cbn [shapes activePoints setActivePoints addShape setRedoStack
                  setShapes points isClosed].
    rewrite H3, H2. repeat split.
  - intros Hn. apply Nat.ltb_ge in Hn. rewrite Hn. split; assumption.
Qed.

Lemma X8_polygon_gesture_witness :
  exists shape,
    shapes (handleDoubleClick 5000
              (clicks sampleEnv [mouse 100 100; mouse 200 100; mouse 150 200] 5000
                 (setTool (Some polygon) initialState)))
    = shapes (setTool (Some polygon) initialState) ++ [shape]
    /\ isClosed shape = Some true
    /\ points shape
       = map Some (map (eventPoint sampleEnv)
                       [mouse 100 100; mouse 200 100; mouse 150 200])
    /\ activePoints (handleDoubleClick 5000
              (clicks sampleEnv [mouse 100 100; mouse 200 100; mouse 150 200] 5000
                 (setTool (Some polygon) initialState))) = [].
Proof.
  destruct (X8_polygon_gesture sampleEnv
              [mouse 100 100; mouse 200 100; mouse 150 200] 5000
              (setTool (Some polygon) initialState)
              ltac:(repeat constructor) eq_refl eq_refl) as [_ [H _]].
  apply H. cbn. lia.
Defined.

(** X9.  With the chain tool, a left-button drag (on a canvas with an
    area, so that the pointer coordinates are finite) that does not close the
    chain (fewer than two nodes so far, or the release at a distance of at
    least 40 units from the first node, as [getDistance] computes it in
    doubles) accepts a node exactly when the computed length of the drag is
    more than 5 units: the node sits at the press position, its radius is
    the drag length and its timestamp the time of the release.  No shape is
    made either way. *)
Theorem X9_chain_node_acceptance :
  forall (env : Env) (down up : MouseEvent) (now : Z) (s : State),
    Double.pointerFinite env = true ->
    button down = 0%Z ->
    tool s = Some connected_circle ->
    match activePoints s with
    | first :: _ :: _ => 40 <= Double.getDistance (Double.eventPoint env up) first
    | _ => True
    end ->
    let s' := Double.drag env down up now s in
    let start := Double.eventPoint env down in
    let radius := Double.getDistance start (Double.eventPoint env up) in
    shapes s' = shapes s
    /\ isDrawing s' = false /\ currentDragStart s' = None
    /\ (5 < radius ->
        activePoints s'
        = activePoints s
          ++ [mkPoint (px start) (py start)
                      (Some (Double.radius_value radius)) (Some now)])
    /\ (radius <= 5 -> activePoints s' = activePoints s).
Proof.
  intros env down up now s _ Hb Ht Hopen s' start radius.
  destruct (double_startDrawing_chain env down now [] s Hb Ht)
    as [H1 [H2 [H3 [H4 H5]]]].
  set (s1 := fst (Double.startDrawing env down now [] s)) in *.
  assert (Hopen1 : match activePoints s1 with
                   | first :: _ :: _ =>
                       40 <= Double.getDistance (Double.eventPoint env up) first
                   | _ => True
                   end) by (rewrite H4; exact Hopen).
  destruct (double_finishChain_open (Double.eventPoint env up) now s1 start
              H2 H3 Hopen1) as [G1 [G2 [G3 G4]]].
  assert (E : s' = Double.finishChain (Double.eventPoint env up) now s1).
  { unfold s', Double.drag, Double.pointerUp, Double.finishDrawing.
    fold s1. rewrite H1. reflexivity. }
  rewrite E. fold radius in G4.
  split; [rewrite G1; exact H5|].
  split; [exact G2|]. split; [exact G3|].
  rewrite G4, H4. split; intros Hr.
  - apply Qgtb_gt in Hr. rewrite Hr. reflexivity.
  - apply Qgtb_le in Hr. rewrite Hr. reflexivity.
Qed.

Lemma X9_chain_node_acceptance_witness :
  activePoints (Double.drag Double.pixelEnv (mouse 1 100) (mouse 15 100) 1000
                  (setTool (Some connected_circle) initialState))
  = [mkPoint (px (Double.eventPoint Double.pixelEnv (mouse 1 100)))
             (py (Double.eventPoint Double.pixelEnv (mouse 1 100)))
             (Some (Double.radius_value
                      (Double.getDistance
                         (Double.eventPoint Double.pixelEnv (mouse 1 100))
                         (Double.eventPoint Double.pixelEnv (mouse 15 100)))))
             (Some 1000%Z)].
Proof.
  pose proof (X9_chain_node_acceptance Double.pixelEnv (mouse 1 100)
                (mouse 15 100) 1000 (setTool (Some connected_circle) initialState)
                ltac:(vm_compute; reflexivity) eq_refl eq_refl I) as H.
  cbv zeta in H. destruct H as [_ [_ [_ [H _]]]].
  apply H. vm_compute. reflexivity.
Defined.

(** At the threshold the rounding decides.  On a 1152-wide canvas (scale
    0.6) a drag from client x = 4 to x = 7 is 5.000000000000001 units long
    in doubles, more than 5, and the node is accepted; on the 1344-wide
    canvas (scale 0.7) a drag from client x = 7 to x = 14 is 10 units long
    and a drag from x = 0 to x = 3.5 is 5 units long, not more than 5, and
    makes no node. *)
Example chain_radius_boundary :
  5 < Double.getDistance (Double.eventPoint Double.smallEnv (mouse 4 100))
                         (Double.eventPoint Double.smallEnv (mouse 7 100))
  /\ List.length
       (activePoints (Double.drag Double.smallEnv (mouse 4 100) (mouse 7 100) 1000
                        (setTool (Some connected_circle) initialState))) = 1%nat
  /\ Double.getDistance (Double.eventPoint Double.pixelEnv (mouse 0 100))
                        (Double.eventPoint Double.pixelEnv (mouse 3.5 100)) == 5
  /\ activePoints (Double.drag Double.pixelEnv (mouse 0 100) (mouse 3.5 100) 1000
                     (setTool (Some connected_circle) initialState)) = [].
Proof. vm_compute. repeat split; reflexivity. Qed.

(** X10.  A left-button press, any pointer moves and a release with the
    pen, line, arrow, curved-arrow or ring tool append exactly one shape of
    that tool and clear the redo stack and the transient state.  For the
    pen and the freehand arrow its points are the press position, every
    move and the release position, in order; for the other tools they are
    the press and the release position only, also when the two coincide
    (a click without movement still makes a shape). *)
Theorem X10_stroke_makes_one_shape :
  forall (env : Env) (down : MouseEvent) (moves : list MouseEvent)
         (up : MouseEvent) (now : Z) (s : State) (t : Tool),
    button down = 0%Z ->
    tool s = Some t ->
    In t [pen; line; arrow; curved_arrow; circle] ->
    let freehand :=
      match t with
      | pen => true
      | arrow => arrow_isFreehand (settings s)
      | _ => false
      end in
    let s' := stroke env down moves up now s in
    exists shape,
      shapes s' = shapes s ++ [shape]
      /\ shape_type shape = Some t
      /\ points shape
         = (if freehand
            then map Some (eventPoint env down
                           :: map (eventPoint env) moves ++ [eventPoint env up])
            else [Some (eventPoint env down); Some (eventPoint env up)])
      /\ redoStack s' = [] /\ activePoints s' = []
      /\ isDrawing s' = false /\ currentDragStart s' = None.
Proof.
  intros env down moves up now s t Hb Ht Hin freehand s'.
  assert (Hm : t <> masking)
    by (intros ->; cbn in Hin; intuition discriminate).
  destruct (startDrawing_cases env down now [] s t Hb Ht Hm) as [b [_ E]].
  unfold s', stroke. rewrite E. clear E. cbv zeta.
  destruct freehand eqn:Ef; unfold freehand in Ef.
  - (* freehand: pen, or arrow with the freehand setting *)
    destruct t; try discriminate; cbn [fst];
      rewrite (drawPreview_freehand env moves
                 (setActivePoints [eventPoint env down]
                    (setIsDrawing true (setIsPlaying b s))) _ Ht eq_refl Ef);
      unfold pointerUp, finishDrawing;
      cbn [tool setActivePoints setIsDrawing setIsPlaying activePoints];
      rewrite Ht; unfold finishStroke;
      cbn [isDrawing setActivePoints setIsDrawing setIsPlaying activePoints
           settings currentDragStart];
      rewrite ?Ef; eexists; cbn [fst app map];
      rewrite map_app; repeat split.
  - (* two-point tools *)
    destruct t; try discriminate;
      try (cbn in Hin; exfalso; intuition discriminate);
      cbn [fst];
      match goal with
      | |- context [fold_left _ moves ?st] =>
          rewrite (drawPreview_other env moves st _ Ht Ef)
      end;
      unfold pointerUp, finishDrawing;
      cbn [tool setActivePoints setIsDrawing setIsPlaying setCurrentDragStart
           activePoints];
      rewrite Ht; unfold finishStroke;
      cbn [isDrawing setActivePoints setIsDrawing setIsPlaying setCurrentDragStart
           activePoints settings currentDragStart hd_error];
      rewrite ?Ef; eexists; cbn [fst]; repeat split.
Qed.

Lemma X10_stroke_makes_one_shape_witness :
  exists shape,
    shapes (stroke sampleEnv (mouse 100 100) [] (mouse 100 100) 1000
              (setTool (Some line) initialState))
    = shapes (setTool (Some line) initialState) ++ [shape]
    /\ shape_type shape = Some line
    /\ points shape = [Some (eventPoint sampleEnv (mouse 100 100));
                       Some (eventPoint sampleEnv (mouse 100 100))].
Proof.
  destruct (X10_stroke_makes_one_shape sampleEnv (mouse 100 100) []
              (mouse 100 100) 1000 (setTool (Some line) initialState) line
              eq_refl eq_refl ltac:(cbn; tauto)) as [shape [H1 [H2 [H3 _]]]].
  exists shape. repeat split; assumption.
Defined.

(** X11.  With the spotlight or the lens tool a left-button press and a
    release append one shape whose only point is the release position (not
    the press position), white, with stroke width 1 and the tool's current
    settings: size, intensity, rotation and the particles for a spotlight,
    radius and zoom for a lens. *)
Theorem X11_spotlight_and_lens_anchor :
  forall (env : Env) (down up : MouseEvent) (now : Z)
         (particles : list Particle) (s : State) (t : Tool),
    button down = 0%Z ->
    tool s = Some t ->
    t = spotlight \/ t = lens ->
    let s' := pointerUp env up now particles
                (fst (startDrawing env down now particles s)) in
    exists shape,
      shapes s' = shapes s ++ [shape]
      /\ shape_type shape = Some t
      /\ points shape = [Some (eventPoint env up)]
      /\ color shape = "#ffffff"%string /\ shape_strokeWidth shape = 1
      /\ (t = spotlight ->
          spotlightConfig shape
          = Some (mkSpotlightConfig (fst (fst (spotlightSettings (settings s))))
                                    (snd (fst (spotlightSettings (settings s))))
                                    (snd (spotlightSettings (settings s)))
                                    particles))
      /\ (t = lens ->
          lensConfig shape
          = Some (mkLensConfig (fst (lensSettings (settings s)))
                               (snd (lensSettings (settings s)))))
      /\ isDrawing s' = false.
Proof.
  intros env down up now particles s t Hb Ht Hsl s'.
  assert (Hm : t <> masking) by (destruct Hsl; subst; discriminate).
  destruct (startDrawing_cases env down now particles s t Hb Ht Hm) as [b [_ E]].
  unfold s'. rewrite E. clear E. cbv zeta.
  destruct Hsl; subst t; cbn [fst]; unfold pointerUp, finishDrawing;
    cbn [tool setIsDrawing setIsPlaying isDrawing settings]; rewrite Ht.
  - destruct (spotlightSettings (settings s)) as [[size intensity] rotation].
    eexists. cbn [fst snd]. repeat split; intros; discriminate.
  - destruct (lensSettings (settings s)) as [size zoom].
    eexists. cbn [fst snd]. repeat split; intros; discriminate.
Qed.

Lemma X11_spotlight_and_lens_anchor_witness :
  exists shape,
    shapes (pointerUp sampleEnv (mouse 300 300) 1000 []
              (fst (startDrawing sampleEnv (mouse 100 100) 1000 []
                      (setTool (Some lens) initialState))))
    = shapes (setTool (Some lens) initialState) ++ [shape]
    /\ points shape = [Some (eventPoint sampleEnv (mouse 300 300))]
    /\ lensConfig shape = Some (mkLensConfig 75 2.0).
Proof.
  destruct (X11_spotlight_and_lens_anchor sampleEnv (mouse 100 100) (mouse 300 300)
              1000 [] (setTool (Some lens) initialState) lens
              eq_refl eq_refl (or_intror eq_refl))
    as [shape [H1 [_ [H3 [_ [_ [_ [H7 _]]]]]]]].
  exists shape. split; [exact H1|]. split; [exact H3|]. exact (H7 eq_refl).
Defined.

(** X12.  In the moving phase of the player-move tool a left-button press
    commits the move: one shape is appended whose first point is the
    centre of the captured box and whose second point is the press
    position, with the captured sprite, background patch and box attached;
    the phase is idle again and the captured sprite is dropped.  The
    release that follows changes nothing. *)
Theorem X12_player_move_commit :
  forall (env : Env) (e up : MouseEvent) (now now' : Z)
         (particles : list Particle) (s : State) (captured : Captured),
    button e = 0%Z ->
    tool s = Some player_move ->
    playerMoveState s = moving ->
    capturedSprite s = Some captured ->
    let s1 := fst (startDrawing env e now particles s) in
    let source := captured_box captured in
    snd (startDrawing env e now particles s) = None
    /\ (exists shape,
          shapes s1 = shapes s ++ [shape]
          /\ shape_type shape = Some player_move
          /\ points shape
             = [Some (point (rx source + rw source / 2) (ry source + rh source / 2));
                Some (eventPoint env e)]
          /\ img shape = Some (sprite captured)
          /\ bgImg shape = Some (patch captured)
          /\ box shape = Some source)
    /\ playerMoveState s1 = idle /\ capturedSprite s1 = None
    /\ redoStack s1 = []
    /\ pointerUp env up now' particles s1 = s1.
Proof.
  intros env e up now now' particles s captured Hb Ht Hm Hc s1 source.
  destruct (startDrawing_cases env e now particles s player_move Hb Ht
              ltac:(discriminate)) as [b [_ E]].
  unfold s1. rewrite E. clear E. cbv zeta. rewrite Hm.
  unfold finishDrawing. rewrite Ht. unfold finishPlayerMove. rewrite Hm, Hc.
  destruct (playerSelectionRect s); cbn [fst snd];
    (split; [reflexivity|]);
    (split; [eexists; repeat split|]);
    (split; [reflexivity|]); (split; [reflexivity|]); (split; [reflexivity|]);
    unfold pointerUp, finishDrawing;
    cbn [tool setIsPlaying setCapturedSprite setPlayerMoveState addShape
         setRedoStack setShapes];
    rewrite Ht; reflexivity.
Qed.

Lemma X12_player_move_commit_witness :
  playerMoveState (fst (startDrawing sampleEnv (mouse 400 300) 3000 [] playerMoving))
  = idle
  /\ capturedSprite (fst (startDrawing sampleEnv (mouse 400 300) 3000 [] playerMoving))
     = None.
Proof.
  destruct (capturedSprite playerMoving) as [captured|] eqn:Ec;
    [|vm_compute in Ec; discriminate].
  destruct (X12_player_move_commit sampleEnv (mouse 400 300) (mouse 400 300)
              3000 3001 [] playerMoving captured eq_refl eq_refl eq_refl Ec)
    as [_ [_ [H1 [H2 _]]]].
  split; assumption.
Defined.

(** The sample player-move gesture: selection drag, then a press at the
    destination; one shape with two points results. *)
Example player_move_gesture_run :
  map (fun shape => (shape_type shape, List.length (points shape)))
      (shapes (fst (startDrawing sampleEnv (mouse 400 300) 3000 [] playerMoving)))
  = [(Some player_move, 2%nat)].
Proof. vm_compute. reflexivity. Qed.

(** X13.  [startDrawing] ignores a press of another button than the left
    one and a press while no tool or the masking tool is active: the state
    is returned as it is.  Every other press switches the playback flag
    off when the video element is mounted. *)
Theorem X13_press_pauses_playback :
  forall (env : Env) (e : MouseEvent) (now : Z) (particles : list Particle)
         (s : State),
    (button e <> 0%Z -> startDrawing env e now particles s = (s, None))
    /\ (tool s = None \/ tool s = Some masking ->
        startDrawing env e now particles s = (s, None))
    /\ (forall t, button e = 0%Z -> tool s = Some t -> t <> masking ->
                  videoRef env <> None ->
                  isPlaying (fst (startDrawing env e now particles s)) = false).
Proof.
  intros env e now particles s. split; [|split].
  - intros Hb. unfold startDrawing. apply Z.eqb_neq in Hb. rewrite Hb.
    reflexivity.
  - intros [Ht|Ht]; unfold startDrawing; rewrite Ht;
      destruct (negb (button e =? 0)%Z); reflexivity.
  - intros t Hb Ht Hm Hv.
    destruct (startDrawing_cases env e now particles s t Hb Ht Hm) as [b [Hbf E]].
    rewrite E. rewrite (Hbf Hv). cbv zeta.
    destruct t; try contradiction; try reflexivity.
    destruct (playerMoveState s); reflexivity.
Qed.

Lemma X13_press_pauses_playback_witness :
  isPlaying (fst (startDrawing sampleEnv (mouse 100 100) 1000 []
                    (setIsPlaying true (setTool (Some pen) initialState))))
  = false.
Proof.
  apply (proj2 (proj2 (X13_press_pauses_playback sampleEnv (mouse 100 100) 1000 []
                         (setIsPlaying true (setTool (Some pen) initialState))))
           pen eq_refl eq_refl); discriminate.
Defined.

(** X14.  When the pointer leaves the canvas during a gesture, the release
    that follows makes no shape with any tool but player-move (whose
    phases do not depend on the drawing flag); points accumulated so far
    are not cleared by leaving. *)
Theorem X14_leave_abandons_gesture :
  forall (env : Env) (e : MouseEvent) (now : Z) (particles : list Particle)
         (s : State),
    tool s <> Some player_move ->
    let left := canvas_onMouseLeave s in
    activePoints left = activePoints s
    /\ shapes (pointerUp env e now particles left) = shapes s
    /\ redoStack (pointerUp env e now particles left) = redoStack s.
Proof.
  intros env e now particles s Ht left.
  split; [reflexivity|].
  unfold pointerUp, finishDrawing, left, canvas_onMouseLeave.
  cbn [tool setIsDrawing].
  destruct (tool s) as [[]|]; try contradiction;
    unfold finishStroke, finishChain;
    cbn [isDrawing setIsDrawing]; split; reflexivity.
Qed.

Lemma X14_leave_abandons_gesture_witness :
  shapes (pointerUp sampleEnv (mouse 105 205) 3000 []
            (canvas_onMouseLeave chainClosing))
  = shapes chainClosing.
Proof.
  apply (X14_leave_abandons_gesture sampleEnv (mouse 105 205) 3000 [] chainClosing).
  vm_compute. discriminate.
Defined.

(** ** Chroma-key segmentation: what the layers and the test never do *)

Section SegmentationFacts.

Lemma maskPixel_complementary (sens : Q) (p : Pixel) :
  layers_complementary (fst (maskPixel sens p)) (snd (maskPixel sens p)).
Proof.
  unfold maskPixel, layers_complementary.
  destruct (isGreen sens p); [right | left]; split; reflexivity.
Qed.

(** The three channels equal: no hue, saturation 0. *)
Lemma rgbToHsl_grey (c : Q) :
  exists l, rgbToHsl c c c = (0 * 360, 0, l).
Proof.
  unfold rgbToHsl.
  assert (E : Qeq_bool (Qmax (Qmax (c / 255) (c / 255)) (c / 255))
                       (Qmin (Qmin (c / 255) (c / 255)) (c / 255)) = true).
  { apply Qeq_bool_iff. rewrite !Q.max_id, !Q.min_id. reflexivity. }
  rewrite E. cbn [negb]. eexists. reflexivity.
Qed.

End SegmentationFacts.

(** X15.  The two layers computed from a frame have one pixel per pixel of
    the frame, and at every position exactly one of them is set: either
    the foreground pixel is opaque (alpha 255) and the overlay pixel is
    blank, or the foreground pixel is blank and the overlay pixel is the
    marker (239, 68, 68, 102). *)
Theorem X15_layers_partition_the_frame :
  forall (sens : Q) (data : list Pixel),
    List.length (fst (maskLoop sens data)) = List.length data
    /\ List.length (snd (maskLoop sens data)) = List.length data
    /\ Forall2 layers_complementary
               (fst (maskLoop sens data)) (snd (maskLoop sens data)).
Proof.
  intros sens data. rewrite maskLoop_map. cbn [fst snd].
  rewrite !length_map. split; [reflexivity|]. split; [reflexivity|].
  induction data as [|p rest IH]; cbn [map]; constructor;
    [apply maskPixel_complementary | exact IH].
Qed.

(** X16.  A grey pixel (three equal channels: black, white and every grey
    between) is foreground at every sensitivity, whatever the value: it is
    copied opaque and never marked. *)
Theorem X16_grey_is_never_background :
  forall (sens : Q) (c a : Z),
    isGreen sens (mkPixel c c c a) = false
    /\ maskPixel sens (mkPixel c c c a) = (mkPixel c c c 255, blank).
Proof.
  intros sens c a.
  assert (E : isGreen sens (mkPixel c c c a) = false).
  { unfold isGreen. cbn [red green blue].
    destruct (rgbToHsl_grey (inject_Z c)) as [l El]. rewrite El.
    assert (Es : Qgeb 0 sMin = false) by reflexivity.
    rewrite Es, andb_false_r. reflexivity. }
  split; [exact E|]. unfold maskPixel. rewrite E. reflexivity.
Qed.

Section HslRange.

Variables R G B : Q.
Hypothesis HR : 0 <= R /\ R <= 1.
Hypothesis HG : 0 <= G /\ G <= 1.
Hypothesis HB : 0 <= B /\ B <= 1.

Let M : Q := Qmax (Qmax R G) B.
Let m : Q := Qmin (Qmin R G) B.

Lemma max3_bounds : R <= M /\ G <= M /\ B <= M /\ M <= 1.
Proof.
  unfold M. pose proof (Q.le_max_l (Qmax R G) B). pose proof (Q.le_max_r (Qmax R G) B).
  pose proof (Q.le_max_l R G). pose proof (Q.le_max_r R G).
  repeat split; try lra.
  apply Q.max_lub; [apply Q.max_lub|]; lra.
Qed.

Lemma min3_bounds : m <= R /\ m <= G /\ m <= B /\ 0 <= m.
Proof.
  unfold m. pose proof (Q.le_min_l (Qmin R G) B). pose proof (Q.le_min_r (Qmin R G) B).
  pose proof (Q.le_min_l R G). pose proof (Q.le_min_r R G).
  repeat split; try lra.
  apply Q.min_glb; [apply Q.min_glb|]; lra.
Qed.

(** A difference of two channels over the spread lies in [-1, 1]. *)
Lemma channel_ratio (x y : Q) :
  m <= x /\ x <= M -> m <= y /\ y <= M -> m < M ->
  -1 <= (x - y) / (M - m) /\ (x - y) / (M - m) <= 1
  /\ (x < y -> (x - y) / (M - m) < 0)
  /\ (y <= x -> 0 <= (x - y) / (M - m)).
Proof.
  intros Hx Hy Hd.
  assert (Hpos : 0 < M - m) by lra.
  repeat split.
  - apply Qle_shift_div_l; lra.
  - apply Qle_shift_div_r; lra.
  - intros Hlt. apply Qlt_shift_div_r; lra.
  - intros Hle. apply Qle_shift_div_l; lra.
Qed.

End HslRange.

Section HslFacts.

Lemma hue_scale (x : Q) :
  0 <= x -> x < 6 -> 0 <= x / 6 * 360 /\ x / 6 * 360 < 360.
Proof.
  intros H0 H6. assert (E : x / 6 * 360 == x * 60) by field.
  rewrite E. split; lra.
Qed.

Lemma rgbToHsl_ranges (r g b : Q) :
  0 <= r /\ r <= 255 -> 0 <= g /\ g <= 255 -> 0 <= b /\ b <= 255 ->
  let '(h, s, l) := rgbToHsl r g b in
  (0 <= h /\ h < 360) /\ (0 <= s /\ s <= 1) /\ (0 <= l /\ l <= 1).
Proof.
  intros Hr Hg Hb. unfold rgbToHsl. cbv zeta.
  set (R := r / 255). set (G := g / 255). set (B := b / 255).
  assert (HR : 0 <= R /\ R <= 1)
    by (unfold R; split; [apply Qle_shift_div_l | apply Qle_shift_div_r]; lra).
  assert (HG : 0 <= G /\ G <= 1)
    by (unfold G; split; [apply Qle_shift_div_l | apply Qle_shift_div_r]; lra).
  assert (HB : 0 <= B /\ B <= 1)
    by (unfold B; split; [apply Qle_shift_div_l | apply Qle_shift_div_r]; lra).
  pose proof (max3_bounds R G B HR HG HB) as HM.
  pose proof (min3_bounds R G B HR HG HB) as Hm.
  pose proof (channel_ratio R G B) as Hratio. cbv zeta in Hratio.
  set (M := Qmax (Qmax R G) B) in *. set (m := Qmin (Qmin R G) B) in *.
  assert (Hl : 0 <= (M + m) / 2 /\ (M + m) / 2 <= 1)
    by (split; [apply Qle_shift_div_l | apply Qle_shift_div_r]; lra).
  destruct (Qeq_bool M m) eqn:E; cbn [negb].
  - repeat split; try apply Hl; try lra; reflexivity.
  - assert (Hd : m < M).
    { apply Qeq_bool_neq in E. destruct (Qlt_le_dec m M) as [H|H]; [exact H|].
      exfalso. apply E. lra. }
    split; [|split; [|exact Hl]].
    + (* hue *)
      destruct (Qeq_bool M R) eqn:E1.
      * destruct (Hratio G B ltac:(lra) ltac:(lra) Hd) as [H1 [H2 [H3 H4]]].
        set (q := (G - B) / (M - m)) in *. clearbody q.
        destruct (Qltb G B) eqn:E2.
        -- apply Qltb_lt in E2. specialize (H3 E2). apply hue_scale; lra.
        -- apply Qltb_ge in E2. specialize (H4 E2). apply hue_scale; lra.
      * destruct (Qeq_bool M G) eqn:E2.
        -- destruct (Hratio B R ltac:(lra) ltac:(lra) Hd) as [H1 [H2 _]].
           set (q := (B - R) / (M - m)) in *. clearbody q. apply hue_scale; lra.
        -- destruct (Qeq_bool M B) eqn:E3.
           ++ destruct (Hratio R G ltac:(lra) ltac:(lra) Hd) as [H1 [H2 _]].
              set (q := (R - G) / (M - m)) in *. clearbody q. apply hue_scale; lra.
           ++ apply hue_scale; lra.
    + (* saturation *)
      destruct (Qgtb ((M + m) / 2) 0.5) eqn:E1.
      * apply Qgtb_gt in E1.
        assert (Hden : 0 < 2 - M - m) by lra.
        split; [apply Qle_shift_div_l | apply Qle_shift_div_r]; lra.
      * assert (Hden : 0 < M + m) by lra.
        split; [apply Qle_shift_div_l | apply Qle_shift_div_r]; lra.
Qed.

End HslFacts.

(** X17.  For the bytes of a pixel [rgbToHsl] yields a hue in [0, 360), a
    saturation in [0, 1] and a lightness in [0, 1]. *)
Theorem X17_hsl_ranges :
  forall r g b : Z,
    (0 <= r <= 255)%Z -> (0 <= g <= 255)%Z -> (0 <= b <= 255)%Z ->
    let '(h, s, l) := rgbToHsl (inject_Z r) (inject_Z g) (inject_Z b) in
    (0 <= h /\ h < 360) /\ (0 <= s /\ s <= 1) /\ (0 <= l /\ l <= 1).
Proof.
  intros r g b Hr Hg Hb.
  apply rgbToHsl_ranges; split;
    (change 0 with (inject_Z 0) || change 255 with (inject_Z 255));
    rewrite <- Zle_Qle; lia.
Qed.

Lemma X17_hsl_ranges_witness :
  let '(h, s, l) := rgbToHsl (inject_Z 30) (inject_Z 200) (inject_Z 90) in
  (0 <= h /\ h < 360) /\ (0 <= s /\ s <= 1) /\ (0 <= l /\ l <= 1).
Proof.
  apply (X17_hsl_ranges 30 200 90); lia.
Defined.

Section LightnessFacts.

(** The lightness computed by [rgbToHsl], in both of its branches. *)
Lemma rgbToHsl_lightness (r g b : Q) :
  snd (rgbToHsl r g b)
  = (Qmax (Qmax (r / 255) (g / 255)) (b / 255)
     + Qmin (Qmin (r / 255) (g / 255)) (b / 255)) / 2.
Proof.
  unfold rgbToHsl. cbv zeta.
  destruct (negb (Qeq_bool _ _)); reflexivity.
Qed.

Lemma isGreen_lightness (sens : Q) (p : Pixel) :
  isGreen sens p = true ->
  let l := snd (rgbToHsl (inject_Z (red p)) (inject_Z (green p))
                         (inject_Z (blue p))) in
  lMin <= l /\ l <= lMax.
Proof.
  unfold isGreen.
  destruct (rgbToHsl _ _ _) as [[h s] l]. cbn [snd].
  rewrite !andb_true_iff, !Qgeb_ge, !Qleb_le. tauto.
Qed.

Lemma byte_ratio (c lo hi : Z) :
  (lo <= c <= hi)%Z ->
  inject_Z lo / 255 <= inject_Z c / 255 /\ inject_Z c / 255 <= inject_Z hi / 255.
Proof.
  intros [H1 H2]. rewrite Zle_Qle in H1, H2.
  split; apply Qmult_le_compat_r; try assumption; discriminate.
Qed.

End LightnessFacts.

(** X18.  A pixel whose three channels are all at most 38 (near black) or
    all at least 217 (near white) is foreground at every sensitivity: its
    lightness is outside [0.15, 0.85]. *)
Theorem X18_dark_and_bright_are_kept :
  forall (sens : Q) (p : Pixel),
    ((0 <= red p <= 38)%Z /\ (0 <= green p <= 38)%Z /\ (0 <= blue p <= 38)%Z
     \/ (217 <= red p <= 255)%Z /\ (217 <= green p <= 255)%Z
        /\ (217 <= blue p <= 255)%Z) ->
    isGreen sens p = false
    /\ maskPixel sens p = (mkPixel (red p) (green p) (blue p) 255, blank).
Proof.
  intros sens p Hrange.
  assert (E : isGreen sens p = false).
  { destruct (isGreen sens p) eqn:Eg; [exfalso|reflexivity].
    apply isGreen_lightness in Eg. cbv zeta in Eg.
    rewrite rgbToHsl_lightness in Eg. unfold lMin, lMax in Eg.
    set (R := inject_Z (red p) / 255) in *.
    set (G := inject_Z (green p) / 255) in *.
    set (B := inject_Z (blue p) / 255) in *.
    destruct Hrange as [[Hr [Hg Hb]]|[Hr [Hg Hb]]];
      apply byte_ratio in Hr, Hg, Hb; fold R in Hr; fold G in Hg; fold B in Hb.
    - assert (HM : Qmax (Qmax R G) B <= inject_Z 38 / 255)
        by (apply Q.max_lub; [apply Q.max_lub|]; tauto).
      assert (Hm : Qmin (Qmin R G) B <= inject_Z 38 / 255).
      { eapply Qle_trans; [apply Q.le_min_r|]. tauto. }
      destruct Eg as [Eg _].
      assert (Hsum : Qmax (Qmax R G) B + Qmin (Qmin R G) B
                     <= inject_Z 38 / 255 + inject_Z 38 / 255)
        by (apply Qplus_le_compat; assumption).
      set (sum := Qmax (Qmax R G) B + Qmin (Qmin R G) B) in *. clearbody sum.
      assert (E2 : sum / 2 == sum * (1 # 2)) by field. rewrite E2 in Eg.
      assert (E3 : inject_Z 38 / 255 + inject_Z 38 / 255 == 76 # 255)
        by reflexivity.
      rewrite E3 in Hsum. lra.
    - assert (HM : inject_Z 217 / 255 <= Qmax (Qmax R G) B).
      { eapply Qle_trans; [|apply Q.le_max_r]. tauto. }
      assert (Hm : inject_Z 217 / 255 <= Qmin (Qmin R G) B)
        by (apply Q.min_glb; [apply Q.min_glb|]; tauto).
      destruct Eg as [_ Eg].
      assert (Hsum : inject_Z 217 / 255 + inject_Z 217 / 255
                     <= Qmax (Qmax R G) B + Qmin (Qmin R G) B)
        by (apply Qplus_le_compat; assumption).
      set (sum := Qmax (Qmax R G) B + Qmin (Qmin R G) B) in *. clearbody sum.
      assert (E2 : sum / 2 == sum * (1 # 2)) by field. rewrite E2 in Eg.
      assert (E3 : inject_Z 217 / 255 + inject_Z 217 / 255 == 434 # 255)
        by reflexivity.
      rewrite E3 in Hsum. lra. }
  split; [exact E|]. unfold maskPixel. rewrite E. reflexivity.
Qed.

Lemma X18_dark_and_bright_are_kept_witness :
  isGreen 100 (mkPixel 10 38 20 255) = false
  /\ maskPixel 100 (mkPixel 10 38 20 255) = (mkPixel 10 38 20 255, blank).
Proof.
  apply (X18_dark_and_bright_are_kept 100 (mkPixel 10 38 20 255)).
  left. cbn. lia.
Defined.

(** A pure green (0, g, 0) has lightness g / 510: it is background from
    g = 77 up. *)
Example dark_green_threshold :
  isGreen 40 (mkPixel 0 76 0 255) = false
  /\ isGreen 40 (mkPixel 0 77 0 255) = true.
Proof. split; reflexivity. Qed.

(** ** Mask cache: seeking, recomputing, capturing *)

Section MaskCacheFacts.

Lemma emptyMaskCache_unsynced (cur : Q) : isMaskSynced emptyMaskCache cur = false.
Proof. reflexivity. Qed.

(** A cache never draws when masking is off or playback runs. *)
Lemma renderCanvas_mask_gate (canvasRef : option Canvas) (video : Video)
    (ctx : bool) (s : State) (op : DrawOp) :
  enabled (maskSettings s) = false \/ isPlaying s = true ->
  In op (renderCanvas canvasRef (Some video) ctx s) ->
  is_mask_draw op = false.
Proof.
  intros Hgate. unfold renderCanvas.
  destruct canvasRef as [canvas|]; [|intros []].
  destruct (negb ctx); [intros []|].
  assert (E : enabled (maskSettings s) && negb (isPlaying s) = false)
    by (destruct Hgate as [H|H]; rewrite H; [reflexivity | apply andb_false_r]).
  rewrite E. cbn [andb].
  intros H.
  repeat (apply in_app_or in H; destruct H as [H|H]).
  - destruct H as [<-|[]]; reflexivity.
  - destruct (overlay (maskCache s)); destruct H.
  - destruct H as [<-|[<-|[<-|[]]]]; reflexivity.
  - apply in_flat_map in H. destruct H as [shape [_ H]].
    exact (drawPersistent_no_mask _ _ _ H).
  - destruct H as [<-|[]]; reflexivity.
  - destruct (foreground (maskCache s)); destruct H.
  - destruct H as [<-|[<-|[<-|[]]]]; reflexivity.
  - apply in_flat_map in H. destruct H as [shape [_ H]].
    exact (drawLayered_no_mask _ _ _ H).
  - destruct H as [<-|[]]; reflexivity.
Qed.

End MaskCacheFacts.

(** X19.  After a seek with the video element mounted the mask cache is
    empty, and a frame rendered from that state holds neither mask layer,
    at whatever playback position the video is; the shapes, the redo stack
    and the transient state are untouched by the seek. *)
Theorem X19_seek_drops_the_mask :
  forall (env : Env) (time : Q) (s : State) (canvasRef : option Canvas)
         (video : Video) (ctx : bool),
    videoRef env <> None ->
    let s' := handleSeek env time s in
    maskCache s' = emptyMaskCache
    /\ shapes s' = shapes s /\ redoStack s' = redoStack s
    /\ activePoints s' = activePoints s
    /\ (forall op, In op (renderCanvas canvasRef (Some video) ctx s') ->
                   is_mask_draw op = false).
Proof.
  intros env time s canvasRef video ctx Hv s'.
  unfold s', handleSeek. destruct (videoRef env) as [v|]; [|contradiction].
  repeat split.
  intros op. apply renderCanvas_unsynced. reflexivity.
Qed.

Lemma X19_seek_drops_the_mask_witness :
  maskCache (handleSeek sampleEnv 42 maskingState) = emptyMaskCache.
Proof.
  apply (X19_seek_drops_the_mask sampleEnv 42 maskingState None hdVideo true).
  discriminate.
Defined.

(** X20.  When the scheduled recomputation runs with masking enabled,
    playback paused and the media size known, on a video that keeps its
    playback position (not negative) while the layers are computed, the
    new cache is synced at that position.  A frame rendered then draws the overlay layer over the layout rectangle
    when the overlay is switched on: it is drawn before any shape.  The
    foreground layer is drawn after the first pass over the shapes, so it
    is drawn over the layout rectangle exactly when no call of
    [drawShapeOnCanvas] of that pass raises an exception (as it does for a
    stored line whose first point is [undefined]): if one raises, the frame
    ends there and holds no foreground layer. *)
Theorem X20_fresh_mask_is_drawn :
  forall (env : Env) (canvas : Canvas) (video : Video) (s : State)
         (raises : Shape -> option Pass -> bool),
    videoRef env = Some video ->
    enabled (maskSettings s) = true ->
    isPlaying s = false ->
    videoWidth video <> 0%N ->
    videoHeight video <> 0%N ->
    0 <= currentTime video ->
    let s' := Double.maskRecomputed env s in
    let layout := Double.getVideoLayout canvas video in
    let firstPass := flat_map (drawPersistent (layout_scale layout)) (shapes s) in
    let frameOps :=
      Double.completed raises
        (Double.renderCanvas (Some canvas) (Some video) true s') in
    Double.isMaskSynced (maskCache s') (currentTime video) = true
    /\ (showOverlay (maskSettings s) = true ->
        exists bitmap,
          overlay (maskCache s') = Some bitmap
          /\ In (DrawOverlay bitmap (layout_x layout) (layout_y layout)
                             (layout_w layout) (layout_h layout)) frameOps)
    /\ ((forall shape scale pass,
            In (DrawShapeOnCanvas shape scale pass) firstPass ->
            raises shape pass = false) ->
        exists bitmap,
          foreground (maskCache s') = Some bitmap
          /\ In (DrawForeground bitmap (layout_x layout) (layout_y layout)
                                (layout_w layout) (layout_h layout)) frameOps)
    /\ ((exists shape scale pass,
            In (DrawShapeOnCanvas shape scale pass) firstPass
            /\ raises shape pass = true) ->
        forall op, In op frameOps -> is_foreground_draw op = false).
Proof.
  intros env canvas video s raises Hv He Hp Hw Hh Ht s' layout firstPass frameOps.
  assert (Ec : exists fgData ovData,
             Double.computeMaskingLayers (videoRef env) s
             = Some (mkMaskLayerCache (Some (OfImageData fgData))
                                      (Some (OfImageData ovData))
                                      (currentTime video))).
  { rewrite Hv. unfold Double.computeMaskingLayers. rewrite He, Hp.
    apply N.eqb_neq in Hw, Hh. rewrite Hw, Hh. cbn [negb orb].
    destruct (Double.maskLoop _ _) as [fg ov]. exists fg, ov. reflexivity. }
  destruct Ec as [fgData [ovData Ec]].
  assert (Es : s' = setMaskCache
                      (mkMaskLayerCache (Some (OfImageData fgData))
                                        (Some (OfImageData ovData))
                                        (currentTime video)) s)
    by (unfold s', Double.maskRecomputed; rewrite Ec; reflexivity).
  assert (Hsync : Double.isMaskSynced (maskCache s') (currentTime video) = true).
  { rewrite Es. cbn [maskCache setMaskCache].
    apply double_isMaskSynced_inside; [exact Ht|]. cbn [cache_timestamp].
    assert (E0 : currentTime video - currentTime video == 0) by ring.
    rewrite E0. discriminate. }
  split; [exact Hsync|].
  unfold frameOps, Double.renderCanvas. cbn [negb]. fold layout. rewrite Hsync.
  rewrite Es. cbn [maskCache setMaskCache foreground overlay maskSettings
                   isPlaying shapes].
  rewrite He, Hp. cbn [negb andb]. rewrite andb_true_r. fold firstPass.
  set (top := [Save; Translate (layout_x layout) (layout_y layout);
               Scale (layout_scale layout) (layout_scale layout)]
              ++ flat_map (drawLayered (layout_scale layout)) (shapes s)
              ++ [Restore]).
  set (head := [ClearRect (NQ (canvas_width canvas)) (NQ (canvas_height canvas))]
               ++ (if showOverlay (maskSettings s)
                   then [DrawOverlay (OfImageData ovData) (layout_x layout)
                           (layout_y layout) (layout_w layout) (layout_h layout)]
                   else [])
               ++ [Save; Translate (layout_x layout) (layout_y layout);
                   Scale (layout_scale layout) (layout_scale layout)]).
  set (fgOp := DrawForeground (OfImageData fgData) (layout_x layout)
                 (layout_y layout) (layout_w layout) (layout_h layout)).
  assert (Eops :
    [ClearRect (NQ (canvas_width canvas)) (NQ (canvas_height canvas))]
    ++ (if showOverlay (maskSettings s)
        then [DrawOverlay (OfImageData ovData) (layout_x layout)
                (layout_y layout) (layout_w layout) (layout_h layout)]
        else [])
    ++ [Save; Translate (layout_x layout) (layout_y layout);
        Scale (layout_scale layout) (layout_scale layout)]
    ++ firstPass ++ [Restore] ++ [fgOp] ++ top
    = head ++ firstPass ++ ([Restore] ++ [fgOp] ++ top)).
  { unfold head. rewrite <- !app_assoc. reflexivity. }
  rewrite Eops. clear Eops.
  assert (Hhead : forall shape scale pass,
             In (DrawShapeOnCanvas shape scale pass) head -> False).
  { intros shape scale pass Hin. unfold head in Hin.
    destruct (showOverlay (maskSettings s)); cbn in Hin;
      repeat (destruct Hin as [Hin|Hin]; [discriminate|]); exact Hin. }
  assert (Chead : forall rest,
             Double.completed raises (head ++ rest)
             = head ++ Double.completed raises rest).
  { intros rest. apply completed_app_clean.
    intros shape scale pass Hin. destruct (Hhead shape scale pass Hin). }
  rewrite Chead.
  split; [|split].
  - intros Hov. exists (OfImageData ovData). split; [reflexivity|].
    apply in_or_app. left. unfold head. rewrite Hov.
    right. left. reflexivity.
  - intros Hclean. exists (OfImageData fgData). split; [reflexivity|].
    rewrite (completed_app_clean raises firstPass _ Hclean).
    apply in_or_app. right. apply in_or_app. right.
    cbn [app Double.completed]. right. left. reflexivity.
  - intros Hraise op Hin.
    rewrite (completed_app_raising raises firstPass _ Hraise) in Hin.
    apply in_app_or in Hin. destruct Hin as [Hin|Hin].
    + unfold head in Hin.
      destruct (showOverlay (maskSettings s)); cbn in Hin;
        repeat (destruct Hin as [<-|Hin]; [reflexivity|]); destruct Hin.
    + apply completed_In in Hin. unfold firstPass in Hin.
      apply in_flat_map in Hin. destruct Hin as [shape [_ Hin]].
      pose proof (drawPersistent_no_mask _ _ _ Hin) as Hm.
      destruct op; try reflexivity; discriminate.
Qed.

Lemma X20_fresh_mask_is_drawn_witness :
  exists bitmap,
    foreground (maskCache (Double.maskRecomputed maskEnv maskingState))
    = Some bitmap
    /\ In (let layout :=
              Double.getVideoLayout (mkCanvas 800 600 0 0) sampleVideo in
            DrawForeground bitmap (layout_x layout) (layout_y layout)
                           (layout_w layout) (layout_h layout))
          (Double.completed (fun _ _ => false)
             (Double.renderCanvas (Some (mkCanvas 800 600 0 0)) (Some sampleVideo)
                true (Double.maskRecomputed maskEnv maskingState))).
Proof.
  destruct (X20_fresh_mask_is_drawn maskEnv (mkCanvas 800 600 0 0) sampleVideo
              maskingState (fun _ _ => false) eq_refl eq_refl eq_refl
              ltac:(discriminate) ltac:(discriminate) ltac:(discriminate))
    as [_ [_ [H _]]].
  apply H. intros shape scale pass Hin. reflexivity.
Defined.

(** The frame of a state that holds a line whose first point is
    [undefined], when drawing that line raises: the overlay is drawn, the
    foreground is not. *)
Example frame_ends_at_the_exception :
  let brokenLine :=
    mkShape 1 (Some line) [None; Some (point 10 10)] "#00eaff"%string 4
      None None (Some false) (Some false) None None None 1 None None None in
  let raises := fun (shape : Shape) (_ : option Pass) =>
                  match points shape with None :: _ => true | _ => false end in
  let s := Double.maskRecomputed maskEnv (addShape brokenLine maskingState) in
  map is_mask_draw
      (Double.completed raises
         (Double.renderCanvas (Some (mkCanvas 800 600 0 0)) (Some sampleVideo)
            true s))
  = [false; true; false; false; false].
Proof. vm_compute. reflexivity. Qed.

(** X21.  [captureSprite] cuts the sprite from the cached mask foreground
    whenever masking is enabled and a foreground is cached, also when that
    cache is not synced with the playback position (so that the compositor
    draws no mask layer); otherwise it cuts it from the video frame.  The
    background patch always comes from the video frame. *)
Theorem X21_sprite_source :
  forall (video : Video) (s : State) (rect : Rect) (canvasRef : option Canvas),
    (0 < Qceiling (rw rect))%Z -> (0 < Qceiling (rh rect))%Z ->
    exists (source : ImageSource) (bgX : Q),
      captureSprite (Some video) true s rect
      = Some (mkCaptured
                (OfCrop source (rx rect) (ry rect)
                        (Qceiling (rw rect)) (Qceiling (rh rect)))
                (OfCrop FromVideo bgX (ry rect)
                        (Qceiling (rw rect)) (Qceiling (rh rect)))
                rect)
      /\ (source = FromMaskForeground
          <-> enabled (maskSettings s) = true /\ foreground (maskCache s) <> None)
      /\ (isMaskSynced (maskCache s) (currentTime video) = false ->
          forall op, In op (renderCanvas canvasRef (Some video) true s) ->
                     is_mask_draw op = false).
Proof.
  intros video s rect canvasRef Hw Hh.
  unfold captureSprite.
  apply Z.leb_gt in Hw, Hh. rewrite Hw, Hh. cbn [orb negb].
  destruct (enabled (maskSettings s)) eqn:Ee;
    [destruct (foreground (maskCache s)) as [bm|] eqn:Ef|];
    eexists; eexists; (split; [reflexivity|]);
    (split; [|intros Hs op; apply renderCanvas_unsynced; exact Hs]);
    split; try discriminate; try reflexivity.
  - intros _. split; [reflexivity | discriminate].
  - intros [_ H]. contradiction.
  - intros [H _]. discriminate.
Qed.

Lemma X21_sprite_source_witness :
  exists (source : ImageSource) (bgX : Q),
    captureSprite (Some hdVideo) true staleMaskState (mkRect 100 50 40 80)
    = Some (mkCaptured (OfCrop source 100 50 40 80)
                       (OfCrop FromVideo bgX 50 40 80)
                       (mkRect 100 50 40 80))
    /\ (source = FromMaskForeground
        <-> enabled (maskSettings staleMaskState) = true
            /\ foreground (maskCache staleMaskState) <> None)
    /\ (isMaskSynced (maskCache staleMaskState) (currentTime hdVideo) = false ->
        forall op, In op (renderCanvas None (Some hdVideo) true staleMaskState) ->
                   is_mask_draw op = false).
Proof.
  apply (X21_sprite_source hdVideo staleMaskState (mkRect 100 50 40 80) None);
    reflexivity.
Defined.

(** The stale sample: masking on, cache sampled at 3, video at 10; the
    sprite still comes from the mask foreground. *)
Example stale_mask_sprite :
  isMaskSynced (maskCache staleMaskState) (currentTime hdVideo) = false
  /\ option_map sprite
       (captureSprite (Some hdVideo) true staleMaskState (mkRect 100 50 40 80))
     = Some (OfCrop FromMaskForeground 100 50 40 80).
Proof. split; reflexivity. Qed.

(** ** Renderers: entrance animation and lens geometry *)

Section RendererFacts.

Lemma entrance_rise (t : Q) :
  0.3 + (1.08 - 0.3) * (t / 500 / 0.6) == 0.3 + t * (13 # 5000).
Proof. field. Qed.

Lemma entrance_settle (t : Q) :
  1.08 - 0.08 * ((t / 500 - 0.6) / 0.4) == 1.08 - (t - 300) * (1 # 2500).
Proof. field. Qed.

Lemma entrance_alpha (t : Q) : t / 500 * 2 == t * (1 # 250).
Proof. field. Qed.

Lemma entrance_phase (t : Q) : t / 500 < 0.6 <-> t < 300.
Proof.
  rewrite (Qdiv_lt_iff t 500 0.6 ltac:(reflexivity)).
  assert (E : 0.6 * 500 == 300) by reflexivity. rewrite E. reflexivity.
Qed.

End RendererFacts.

(** X22.  The entrance animation of a ring: for a non-negative elapsed
    time the scale stays within [0.3, 1.08] and the alpha within [0, 1];
    the scale starts at 0.3, peaks at 1.08 after 300 ms and is back within
    0.08 of 1 from then on, the alpha is 1 from 250 ms on, and from 500 ms
    on (and for a ghost ring at any time) both are exactly 1. *)
Theorem X22_ring_entrance_bounds :
  forall t : Q,
    0 <= t ->
    let scaleEnt := fst (ringEntrance t false) in
    let alphaEnt := snd (ringEntrance t false) in
    (0.3 <= scaleEnt /\ scaleEnt <= 1.08)
    /\ (0 <= alphaEnt /\ alphaEnt <= 1)
    /\ (t == 0 -> scaleEnt == 0.3 /\ alphaEnt == 0)
    /\ (t == 300 -> scaleEnt == 1.08)
    /\ (300 <= t -> 1 <= scaleEnt)
    /\ (250 <= t -> alphaEnt == 1)
    /\ (500 <= t -> ringEntrance t false = (1, 1))
    /\ ringEntrance t true = (1, 1).
Proof.
  intros t Ht scaleEnt alphaEnt. unfold scaleEnt, alphaEnt, ringEntrance.
  cbn [negb andb]. cbv zeta.
  destruct (Qltb t 500) eqn:E5.
  - apply Qltb_lt in E5. cbn [fst snd].
    pose proof (entrance_alpha t) as Hx.
    set (x := t / 500 * 2) in *. clearbody x.
    assert (Ha : 0 <= Qmin 1 x /\ Qmin 1 x <= 1
                 /\ (t == 0 -> Qmin 1 x == 0)
                 /\ (250 <= t -> Qmin 1 x == 1)).
    { destruct (Q.min_spec 1 x) as [[H1 H2]|[H1 H2]];
        repeat split; intros; lra. }
    set (al := Qmin 1 x) in *. clearbody al.
    destruct Ha as [Ha1 [Ha2 [Ha3 Ha4]]].
    destruct (Qltb (t / 500) 0.6) eqn:E3.
    + apply Qltb_lt, entrance_phase in E3.
      pose proof (entrance_rise t) as Hsc.
      set (sc := 0.3 + (1.08 - 0.3) * (t / 500 / 0.6)) in *. clearbody sc.
      split; [split; lra|]. split; [split; assumption|].
      split; [intros H0; split; [lra | apply Ha3; exact H0]|].
      split; [intros H3; lra|]. split; [intros H3; lra|].
      split; [exact Ha4|]. split; [intros H5; lra | reflexivity].
    + assert (E3' : 300 <= t).
      { apply Qltb_ge in E3. apply Qnot_lt_le. intros Hc.
        apply entrance_phase in Hc. lra. }
      pose proof (entrance_settle t) as Hsc.
      set (sc := 1.08 - 0.08 * ((t / 500 - 0.6) / 0.4)) in *. clearbody sc.
      split; [split; lra|]. split; [split; assumption|].
      split; [intros H0; lra|].
      split; [intros H3; lra|]. split; [intros H3; lra|].
      split; [exact Ha4|]. split; [intros H5; lra | reflexivity].
  - apply Qltb_ge in E5. cbn [fst snd].
    split; [split; lra|]. split; [split; lra|].
    split; [intros H0; lra|].
    split; [intros H3; lra|]. split; [intros H3; lra|].
    split; [intros; reflexivity|]. split; reflexivity.
Qed.

Lemma X22_ring_entrance_bounds_witness :
  fst (ringEntrance 300 false) == 1.08.
Proof.
  destruct (X22_ring_entrance_bounds 300 ltac:(discriminate))
    as [_ [_ [_ [H _]]]].
  apply H. reflexivity.
Defined.

(** X23.  The lens: for a zoom and a scale other than 0 the destination
    square has [zoom] times the side of the source square, both are centred
    on the anchor, and the destination has the radius [radius] on screen
    (side times scale is twice the radius).  For a zoom of at least 1 and a
    positive radius and scale the source square lies inside the
    destination square. *)
Theorem X23_lens_magnifies_about_anchor :
  forall (center : Point) (radius zoom scale : Q),
    ~ zoom == 0 -> ~ scale == 0 ->
    let g := lensGeometry center radius zoom scale in
    (destW g == zoom * sourceW g /\ destH g == zoom * sourceH g)
    /\ (sourceX g + sourceW g / 2 == px center
        /\ sourceY g + sourceH g / 2 == py center)
    /\ (destX g + destW g / 2 == px center
        /\ destY g + destH g / 2 == py center)
    /\ destW g * scale == 2 * radius
    /\ (1 <= zoom -> 0 < radius -> 0 < scale ->
        destX g <= sourceX g /\ destY g <= sourceY g
        /\ sourceX g + sourceW g <= destX g + destW g
        /\ sourceY g + sourceH g <= destY g + destH g).
Proof.
  intros center radius zoom scale Hz Hs g. unfold g, lensGeometry.
  cbv zeta. cbn [sourceX sourceY sourceW sourceH destX destY destW destH].
  split; [split; field; auto|].
  split; [split; field; auto|].
  split; [split; field; auto|].
  split; [field; auto|].
  intros Hz1 Hr Hsc.
  set (rv := radius / scale).
  assert (Hrv : 0 < rv) by (unfold rv; apply Qlt_shift_div_l; lra).
  assert (Hsw : 0 <= rv * 2 / zoom /\ rv * 2 / zoom <= rv * 2).
  { split.
    - apply Qle_shift_div_l; lra.
    - apply Qle_shift_div_r; [lra|]. nra. }
  set (sw := rv * 2 / zoom) in *. clearbody sw.
  assert (E : sw / 2 == sw * (1 # 2)) by field.
  rewrite !E. repeat split; lra.
Qed.

Lemma X23_lens_magnifies_about_anchor_witness :
  destW (lensGeometry (point 960 540) 75 2 (5 # 12))
  == 2 * sourceW (lensGeometry (point 960 540) 75 2 (5 # 12)).
Proof.
  apply (X23_lens_magnifies_about_anchor (point 960 540) 75 2 (5 # 12));
    discriminate.
Defined.

(** ** Frame compositor: layering *)

Section Layering.

Lemma nth_error_app3 {A : Type} (l1 l2 l3 : list A) (k : nat) (x : A) :
  nth_error (l1 ++ l2 ++ l3) k = Some x ->
  ((k < List.length l1)%nat /\ In x l1)
  \/ ((List.length l1 <= k < List.length l1 + List.length l2)%nat /\ In x l2)
  \/ ((List.length l1 + List.length l2 <= k)%nat /\ In x l3).
Proof.
  intros H.
  destruct (Nat.lt_ge_cases k (List.length l1)) as [Hk|Hk].
  - left. split; [exact Hk|]. rewrite nth_error_app1 in H by exact Hk.
    eapply nth_error_In; exact H.
  - rewrite nth_error_app2 in H by exact Hk.
    destruct (Nat.lt_ge_cases (k - List.length l1) (List.length l2)) as [Hk2|Hk2].
    + right; left. split; [lia|]. rewrite nth_error_app1 in H by exact Hk2.
      eapply nth_error_In; exact H.
    + right; right. split; [lia|]. rewrite nth_error_app2 in H by exact Hk2.
      eapply nth_error_In; exact H.
Qed.

Lemma drawPersistent_below (scale : Q) (shape : Shape) (op : DrawOp) :
  In op (drawPersistent scale shape) -> below_mask op.
Proof.
  unfold drawPersistent.
  destruct (is_tool player_move shape) eqn:Ep; [intros []|].
  destruct (is_tool lens shape); [intros []|]. cbn [orb].
  destruct (is_tool curved_arrow shape); intros [<-|[]];
    unfold below_mask, drawn_on_top; rewrite Ep; reflexivity.
Qed.

Lemma drawLayered_above (scale : Q) (shape : Shape) (op : DrawOp) :
  In op (drawLayered scale shape) -> above_mask op.
Proof.
  unfold drawLayered. intros H.
  apply in_app_or in H. destruct H as [H|H].
  - destruct (is_tool curved_arrow shape); [|destruct H].
    destruct H as [<-|[]]. unfold above_mask, drawn_on_top.
    apply orb_true_r.
  - apply in_app_or in H. destruct H as [H|H].
    + destruct (is_tool player_move shape) eqn:Ep; [|destruct H].
      destruct H as [<-|[]]. unfold above_mask, drawn_on_top.
      rewrite Ep. reflexivity.
    + destruct (is_tool lens shape); [|destruct H].
      destruct (lensConfig shape); [|destruct H].
      destruct (points shape) as [|[p0|] rest]; try destruct H as [<-|[]];
        try destruct H; exact I.
Qed.

(** A frame is a lower part, at most one foreground draw, and an upper
    part. *)
Lemma renderCanvas_layers (canvas : Canvas) (video : Video) (s : State) :
  exists lower mask upper,
    renderCanvas (Some canvas) (Some video) true s = lower ++ mask ++ upper
    /\ Forall below_mask lower
    /\ Forall (fun op => is_foreground_draw op = true) mask
    /\ Forall above_mask upper.
Proof.
  unfold renderCanvas. cbn [negb]. cbv zeta.
  set (l := getVideoLayout canvas video).
  set (ov := match overlay (maskCache s) with
             | Some bitmap => _
             | None => []
             end).
  set (fg := match foreground (maskCache s) with
             | Some bitmap => _
             | None => []
             end).
  exists ([ClearRect (NQ (canvas_width canvas)) (NQ (canvas_height canvas))]
          ++ ov
          ++ [Save; Translate (layout_x l) (layout_y l);
              Scale (layout_scale l) (layout_scale l)]
          ++ flat_map (drawPersistent (layout_scale l)) (shapes s)
          ++ [Restore]),
         fg,
         ([Save; Translate (layout_x l) (layout_y l);
           Scale (layout_scale l) (layout_scale l)]
          ++ flat_map (drawLayered (layout_scale l)) (shapes s)
          ++ [Restore]).
  split; [rewrite <- !app_assoc; reflexivity|].
  split; [|split].
  - repeat (apply Forall_app; split).
    + repeat constructor.
    + unfold ov. destruct (overlay (maskCache s)); [|constructor].
      match goal with |- context [if ?c then _ else _] => destruct c end;
      repeat constructor.
    + repeat constructor.
    + apply Forall_forall. intros op H. apply in_flat_map in H.
      destruct H as [shape [_ H]]. exact (drawPersistent_below _ _ _ H).
    + repeat constructor.
  - unfold fg. destruct (foreground (maskCache s)); [|constructor].
    match goal with |- context [if ?c then _ else _] => destruct c end;
      repeat constructor.
  - repeat (apply Forall_app; split).
    + repeat constructor.
    + apply Forall_forall. intros op H. apply in_flat_map in H.
      destruct H as [shape [_ H]]. exact (drawLayered_above _ _ _ H).
    + repeat constructor.
Qed.

End Layering.

(** X24.  In every frame in which the mask foreground is drawn, a shape
    draw comes after it exactly when it is a player-move shape or the body
    pass of a curved arrow, and before it otherwise (curved-arrow shadows
    included); every lens is drawn after it and the mask overlay before
    it. *)
Theorem X24_mask_foreground_splits_the_layers :
  forall (canvas : Canvas) (video : Video) (s : State) (i j : nat)
         (bitmap : ImageBitmap) (x y w h : Q),
    let frameOps := renderCanvas (Some canvas) (Some video) true s in
    nth_error frameOps i = Some (DrawForeground bitmap x y w h) ->
    (forall shape scale pass,
        nth_error frameOps j = Some (DrawShapeOnCanvas shape scale pass) ->
        ((i < j)%nat <-> drawn_on_top shape pass = true)
        /\ ((j < i)%nat <-> drawn_on_top shape pass = false))
    /\ (forall center radius zoom scale,
           nth_error frameOps j = Some (DrawLens center radius zoom scale) ->
           (i < j)%nat)
    /\ (forall bitmap' x' y' w' h',
           nth_error frameOps j = Some (DrawOverlay bitmap' x' y' w' h') ->
           (j < i)%nat).
Proof.
  intros canvas video s i j bitmap x y w h frameOps Hi.
  destruct (renderCanvas_layers canvas video s)
    as [lower [mask [upper [E [Hl [Hm Hu]]]]]].
  unfold frameOps in *. rewrite E in *. clear E.
  rewrite Forall_forall in Hl, Hm, Hu.
  assert (Hpos : (List.length lower <= i < List.length lower + List.length mask)%nat).
  { destruct (nth_error_app3 _ _ _ _ _ Hi) as [[_ H]|[[H _]|[_ H]]];
      [exfalso; exact (Hl _ H) | exact H | exfalso; exact (Hu _ H)]. }
  split; [|split].
  - intros shape scale pass Hj.
    destruct (nth_error_app3 _ _ _ _ _ Hj) as [[Hk H]|[[Hk H]|[Hk H]]].
    + pose proof (Hl _ H) as Hb. cbn in Hb. rewrite Hb.
      split; split; intros; try discriminate; try reflexivity; lia.
    + pose proof (Hm _ H) as Hb. discriminate.
    + pose proof (Hu _ H) as Hb. cbn in Hb. rewrite Hb.
      split; split; intros; try discriminate; try reflexivity; lia.
  - intros center radius zoom scale Hj.
    destruct (nth_error_app3 _ _ _ _ _ Hj) as [[Hk H]|[[Hk H]|[Hk H]]].
    + exfalso. exact (Hl _ H).
    + pose proof (Hm _ H) as Hb. discriminate.
    + lia.
  - intros bitmap' x' y' w' h' Hj.
    destruct (nth_error_app3 _ _ _ _ _ Hj) as [[Hk H]|[[Hk H]|[Hk H]]].
    + lia.
    + pose proof (Hm _ H) as Hb. discriminate.
    + exfalso. exact (Hu _ H).
Qed.

Lemma X24_mask_foreground_splits_the_layers_witness :
  Forall (fun shape => drawn_on_top shape None = false) (shapes maskedFrame).
Proof.
  pose (l := getVideoLayout (mkCanvas 800 600 0 0) sampleVideo).
  assert (Hi : nth_error maskedFrameOps 7
               = Some (DrawForeground
                         (OfImageData (fst (maskLoop 40 (frame sampleVideo))))
                         (layout_x l) (layout_y l) (layout_w l) (layout_h l)))
    by (vm_compute; reflexivity).
  destruct (shapes maskedFrame) as [|shape rest] eqn:Es;
    [vm_compute in Es; discriminate|].
  assert (Hrest : rest = []) by (vm_compute in Es; injection Es; auto).
  assert (Hj : nth_error maskedFrameOps 5
               = Some (DrawShapeOnCanvas shape (layout_scale l) None)).
  { unfold maskedFrameOps, renderCanvas. cbn [canvasRef maskEnv negb].
    rewrite Es, Hrest. 
    assert (Es' : shape :: rest = shapes chainClosed) by (rewrite <- Es; reflexivity).
    vm_compute in Es'. injection Es' as E1 E2. subst shape.
    vm_compute. reflexivity. }
  destruct (X24_mask_foreground_splits_the_layers
              (mkCanvas 800 600 0 0) sampleVideo maskedFrame 7 5 _ _ _ _ _ Hi)
    as [Hshape _].
  destruct (Hshape shape (layout_scale l) None Hj) as [_ Hbelow].
  subst rest. constructor; [apply Hbelow; lia | constructor].
Defined.

(** ** Tagging: recorded intervals *)

Section TaggingFacts.

Lemma chronological_from_snoc (lo : Q) (l : list TagEvent) (e : TagEvent) :
  chronological_from lo l ->
  last_end lo l <= startTime e ->
  startTime e <= endTime e ->
  chronological_from lo (l ++ [e]).
Proof.
  revert lo. induction l as [|x l IH]; intros lo Hc Hs He; cbn in *.
  - repeat split; assumption.
  - destruct Hc as [H1 [H2 H3]]. repeat split; try assumption.
    apply IH; assumption.
Qed.

Lemma last_end_snoc (lo : Q) (l : list TagEvent) (e : TagEvent) :
  last_end lo (l ++ [e]) = endTime e.
Proof.
  revert lo. induction l as [|x l IH]; intros lo; cbn; [reflexivity | apply IH].
Qed.

Lemma handleTagClick_invariant (now : Q) (c : TagClick) (t : Tagging) :
  recording_invariant now t ->
  now <= click_time c ->
  recording_invariant (click_time c)
    (handleTagClick (click_tagId c) (click_newId c) (click_time c) t).
Proof.
  intros [Hm [Hc [Hl Ha]]] Hnow. unfold handleTagClick. rewrite Hm.
  destruct (activeRecording t) as [r|] eqn:Er.
  - destruct Ha as [Ha1 Ha2].
    destruct (String.eqb (recording_tagId r) (click_tagId c));
      unfold recording_invariant;
      cbn [isTaggingMode tagEvents activeRecording setActiveRecording setTagEvents];
      rewrite last_end_snoc; cbn [endTime recording_startTime];
      (split; [exact Hm|]);
      (split; [apply chronological_from_snoc; cbn [startTime endTime];
               try assumption; lra|]);
      repeat split; lra.
  - unfold recording_invariant.
    cbn [isTaggingMode tagEvents activeRecording setActiveRecording
         recording_startTime].
    repeat split; try assumption; lra.
Qed.

Lemma tagClicks_invariant (clicks : list TagClick) :
  forall (now : Q) (t : Tagging),
    recording_invariant now t ->
    nondecreasing_from now clicks ->
    exists now', recording_invariant now' (tagClicks clicks t).
Proof.
  induction clicks as [|c clicks IH]; intros now t Hinv Hnd.
  - exists now. exact Hinv.
  - destruct Hnd as [H1 H2]. unfold tagClicks in *. cbn [fold_left].
    apply (IH (click_time c)); [|exact H2].
    apply (handleTagClick_invariant now); assumption.
Qed.

End TaggingFacts.

(** X25.  In tagging mode, starting with nothing recorded, tag clicks at
    playback positions that never go back (all at 0 or later) leave a list
    of events that follow one another in time: every event ends when or
    after it started, and starts when or after the event before it ended.
    There are never more events than clicks. *)
Theorem X25_tag_intervals_are_chronological :
  forall (clicks : list TagClick) (t : Tagging),
    isTaggingMode t = true ->
    tagEvents t = [] ->
    activeRecording t = None ->
    nondecreasing_from 0 clicks ->
    chronological_from 0 (tagEvents (tagClicks clicks t))
    /\ (List.length (tagEvents (tagClicks clicks t)) <= List.length clicks)%nat.
Proof.
  intros clicks t Hm He Ha Hnd. split.
  - assert (Hinv : recording_invariant 0 t).
    { unfold recording_invariant. rewrite Hm, He, Ha. cbn.
      repeat split; lra. }
    destruct (tagClicks_invariant clicks 0 t Hinv Hnd) as [now' [_ [H _]]].
    exact H.
  - assert (H : forall cs st,
               (List.length (tagEvents (tagClicks cs st))
                <= List.length (tagEvents st) + List.length cs)%nat).
    { induction cs as [|c cs IH]; intros st; [cbn; lia|].
      unfold tagClicks in *. cbn [fold_left List.length].
      eapply Nat.le_trans; [apply IH|].
      unfold handleTagClick.
      destruct (isTaggingMode st); [|cbn; lia].
      destruct (activeRecording st) as [r|]; [|cbn; lia].
      destruct (String.eqb _ _); cbn [tagEvents setActiveRecording setTagEvents];
        rewrite length_app; cbn [List.length]; lia. }
    specialize (H clicks t). rewrite He in H. exact H.
Qed.

Lemma X25_tag_intervals_are_chronological_witness :
  chronological_from 0
    (tagEvents (tagClicks [mkTagClick "1" "a" 3; mkTagClick "2" "b" 8;
                           mkTagClick "2" "c" 8; mkTagClick "1" "d" 20]
                  (setIsTaggingMode true initialTagging))).
Proof.
  apply (X25_tag_intervals_are_chronological
           [mkTagClick "1" "a" 3; mkTagClick "2" "b" 8;
            mkTagClick "2" "c" 8; mkTagClick "1" "d" 20]
           (setIsTaggingMode true initialTagging) eq_refl eq_refl eq_refl).
  cbn. repeat split; discriminate.
Defined.

(** Going back in the video during a recording gives an event that ends
    before it starts. *)
Example tag_interval_after_seek_back :
  map (fun e => (startTime e, endTime e))
      (tagEvents (tagClicks [mkTagClick "1" "a" 10; mkTagClick "1" "b" 5]
                    (setIsTaggingMode true initialTagging)))
  = [(10, 5)].
Proof. reflexivity. Qed.

(** X26.  Outside tagging mode the shortcut key of a tag switches tagging
    mode on and toggles the tag filter for that tag, but starts no
    recording and records no event; pressed again (now in tagging mode,
    nothing being recorded) it starts the recording of the tag at the
    current playback position and leaves the filter alone. *)
Theorem X26_first_shortcut_press_only_arms :
  forall (tagId id1 id2 : string) (time1 time2 : Q) (t : Tagging),
    isTaggingMode t = false ->
    let first := tagShortcut tagId id1 time1 t in
    let second := tagShortcut tagId id2 time2 first in
    (isTaggingMode first = true
     /\ activeRecording first = activeRecording t
     /\ tagEvents first = tagEvents t
     /\ filterTagId first
        = match filterTagId t with
          | Some current => if String.eqb current tagId then None else Some tagId
          | None => Some tagId
          end)
    /\ (activeRecording t = None ->
        activeRecording second = Some (mkRecording tagId time2)
        /\ tagEvents second = tagEvents t
        /\ filterTagId second = filterTagId first).
Proof.
  intros tagId id1 id2 time1 time2 t Hm first second.
  unfold second, first, tagShortcut, handleTagClick. rewrite Hm.
  cbn [isTaggingMode setIsTaggingMode setFilterTagId activeRecording tagEvents
       filterTagId].
  split; [repeat split|].
  intros Ha. rewrite Ha.
  cbn [isTaggingMode setIsTaggingMode setFilterTagId setActiveRecording
       activeRecording tagEvents filterTagId].
  repeat split.
Qed.

Lemma X26_first_shortcut_press_only_arms_witness :
  isTaggingMode (tagShortcut "1" "a" 5 initialTagging) = true
  /\ activeRecording (tagShortcut "1" "a" 5 initialTagging) = None
  /\ filterTagId (tagShortcut "1" "a" 5 initialTagging) = Some "1"%string.
Proof.
  destruct (X26_first_shortcut_press_only_arms "1" "a" "b" 5 6 initialTagging
              eq_refl) as [[H1 [H2 [_ H4]]] _].
  repeat split; assumption.
Defined.

(** X27.  Confirming the deletion of an event removes every event with
    that id from the tag events and from every playlist, keeps all other
    events in their order and the playlists with their ids and names, and
    closes the confirmation; the selection is not updated (a deleted id
    stays selected).  Without a pending confirmation nothing changes. *)
Theorem X27_delete_removes_everywhere :
  forall (t : Tagging),
    let t' := confirmDeleteEvent t in
    (deleteConfirmation t = None -> t' = t)
    /\ (forall id, deleteConfirmation t = Some id ->
        let keep := fun e : TagEvent => negb (String.eqb (event_id e) id) in
        tagEvents t' = filter keep (tagEvents t)
        /\ (forall e, In e (tagEvents t') <-> In e (tagEvents t) /\ event_id e <> id)
        /\ Forall2 (fun p p' =>
                      playlist_id p' = playlist_id p
                      /\ playlist_name p' = playlist_name p
                      /\ events p' = filter keep (events p)
                      /\ forall e, In e (events p')
                                   <-> In e (events p) /\ event_id e <> id)
                   (playlists t) (playlists t')
        /\ deleteConfirmation t' = None
        /\ selectedEventIds t' = selectedEventIds t).
Proof.
  intros t t'. unfold t', confirmDeleteEvent. split.
  - intros H. rewrite H. reflexivity.
  - intros id H. rewrite H. cbv zeta.
    cbn [tagEvents playlists deleteConfirmation selectedEventIds
         setDeleteConfirmation setPlaylists setTagEvents].
    assert (Hkeep : forall (l : list TagEvent) e,
               In e (filter (fun e => negb (String.eqb (event_id e) id)) l)
               <-> In e l /\ event_id e <> id).
    { intros l e. rewrite filter_In, negb_true_iff.
      split; intros [H1 H2]; split; try assumption.
      - intros Heq. apply String.eqb_eq in Heq. congruence.
      - apply String.eqb_neq. exact H2. }
    split; [reflexivity|]. split; [apply Hkeep|].
    split; [|split; reflexivity].
    induction (playlists t) as [|p ps IH]; cbn [map]; constructor.
    + cbn [playlist_id playlist_name events].
      split; [reflexivity|]. split; [reflexivity|]. split; [reflexivity|].
      apply Hkeep.
    + exact IH.
Qed.

Lemma X27_delete_removes_everywhere_witness :
  tagEvents (confirmDeleteEvent pendingDeleteSample)
  = filter (fun e => negb (String.eqb (event_id e) "b"))
           (tagEvents pendingDeleteSample)
  /\ deleteConfirmation (confirmDeleteEvent pendingDeleteSample) = None.
Proof.
  destruct (X27_delete_removes_everywhere pendingDeleteSample) as [_ H].
  destruct (H "b"%string eq_refl) as [H1 [_ [_ [H4 _]]]].
  split; assumption.
Defined.

(** The sample: event "b" is in the tag events and in playlist p1 before
    the deletion and in neither afterwards; event "c" stays. *)
Example delete_sample_run :
  map event_id (tagEvents pendingDeleteSample) = ["b"; "c"]%string
  /\ map (fun p => map event_id (events p)) (playlists pendingDeleteSample)
     = [["b"]; []]%string
  /\ map event_id (tagEvents (confirmDeleteEvent pendingDeleteSample))
     = ["c"]%string
  /\ map (fun p => map event_id (events p))
         (playlists (confirmDeleteEvent pendingDeleteSample))
     = [[]; []]
  /\ selectedEventIds (confirmDeleteEvent pendingDeleteSample) = ["b"]%string.
Proof. repeat split; reflexivity. Qed.

Section PlaylistFacts.

Lemma addSelected_playlists (t : Tagging) :
  selectedEventIds t <> [] ->
  playlists (addSelectedToPlaylist t)
  = map (fun p =>
           if String.eqb (playlist_id p) (activePlaylistId t) then
             mkPlaylist (playlist_id p) (playlist_name p)
               (events p ++ filter (fun e => selected t (event_id e)) (tagEvents t))
           else p)
        (playlists t).
Proof.
  intros Hne. unfold addSelectedToPlaylist.
  destruct (selectedEventIds t); [contradiction | reflexivity].
Qed.

Lemma addSelected_frame (t : Tagging) :
  selectedEventIds (addSelectedToPlaylist t) = selectedEventIds t.
Proof.
  unfold addSelectedToPlaylist. destruct (selectedEventIds t) eqn:E;
    [exact E | exact E].
Qed.

Lemma addSelected_active (t : Tagging) :
  activePlaylistId (addSelectedToPlaylist t) = activePlaylistId t.
Proof.
  unfold addSelectedToPlaylist. destruct (selectedEventIds t); reflexivity.
Qed.

Lemma addSelected_chosen (t : Tagging) :
  filter (fun e => selected (addSelectedToPlaylist t) (event_id e))
         (tagEvents (addSelectedToPlaylist t))
  = filter (fun e => selected t (event_id e)) (tagEvents t).
Proof.
  unfold selected. rewrite addSelected_frame.
  unfold addSelectedToPlaylist. destruct (selectedEventIds t); reflexivity.
Qed.

End PlaylistFacts.

(** X28.  [addSelectedToPlaylist] appends to the active playlist the
    selected events in tag-event order and leaves every other playlist and
    all ids and names as they are; it does not look for events that are
    already in the playlist, so calling it twice appends them twice.  With
    an empty selection it changes nothing. *)
Theorem X28_add_selected_appends :
  forall (t : Tagging),
    let chosen := filter (fun e => selected t (event_id e)) (tagEvents t) in
    let once := addSelectedToPlaylist t in
    let twice := addSelectedToPlaylist once in
    (selectedEventIds t = [] -> once = t)
    /\ (selectedEventIds t <> [] ->
        Forall2 (fun p p' =>
                   playlist_id p' = playlist_id p
                   /\ playlist_name p' = playlist_name p
                   /\ events p'
                      = if String.eqb (playlist_id p) (activePlaylistId t)
                        then events p ++ chosen else events p)
                (playlists t) (playlists once)
        /\ Forall2 (fun p p' =>
                      events p'
                      = if String.eqb (playlist_id p) (activePlaylistId t)
                        then events p ++ chosen ++ chosen else events p)
                   (playlists t) (playlists twice)
        /\ tagEvents once = tagEvents t).
Proof.
  intros t chosen once twice. unfold twice, once.
  split; [intros H; unfold addSelectedToPlaylist; rewrite H; reflexivity|].
  intros Hne.
  pose proof (addSelected_playlists t Hne) as E1.
  assert (Hne1 : selectedEventIds (addSelectedToPlaylist t) <> [])
    by (rewrite addSelected_frame; exact Hne).
  pose proof (addSelected_playlists _ Hne1) as E2.
  rewrite addSelected_chosen, addSelected_active in E2.
  rewrite E1 in E2. rewrite E1, E2. fold chosen. clear E1 E2.
  split; [|split].
  - induction (playlists t) as [|p ps IH]; cbn [map]; constructor; [|exact IH].
    destruct (String.eqb (playlist_id p) (activePlaylistId t));
      repeat split; reflexivity.
  - induction (playlists t) as [|p ps IH]; cbn [map]; constructor; [|exact IH].
    destruct (String.eqb (playlist_id p) (activePlaylistId t)) eqn:Ep;
      cbn [playlist_id events]; rewrite Ep; cbn [events];
      [rewrite <- app_assoc|]; reflexivity.
  - unfold addSelectedToPlaylist. destruct (selectedEventIds t); reflexivity.
Qed.

Lemma X28_add_selected_appends_witness :
  tagEvents (addSelectedToPlaylist selectedSample) = tagEvents selectedSample.
Proof.
  destruct (X28_add_selected_appends selectedSample) as [_ H].
  destruct H as [_ [_ H3]]; [discriminate | exact H3].
Defined.

(** ** Playlists: reordering and removing by index *)

Section SpliceFacts.

Context {A : Type}.

Lemma splice_start_nonneg (z : Z) (len : nat) :
  (0 <= z)%Z -> splice_start z len = Nat.min (Z.to_nat z) len.
Proof.
  intros H. unfold splice_start.
  destruct (z <? 0)%Z eqn:E; [apply Z.ltb_lt in E; lia | reflexivity].
Qed.

Lemma firstn_mid (a b : list A) (x : A) :
  firstn (List.length a) (a ++ x :: b) = a.
Proof.
  rewrite firstn_app, Nat.sub_diag, firstn_all. cbn. apply app_nil_r.
Qed.

Lemma skipn_mid (a b : list A) (x : A) :
  skipn (List.length a) (a ++ x :: b) = x :: b.
Proof.
  rewrite skipn_app, Nat.sub_diag, skipn_all. reflexivity.
Qed.

Lemma skipn_S_mid (a b : list A) (x : A) :
  skipn (S (List.length a)) (a ++ x :: b) = b.
Proof.
  change (S (List.length a)) with (1 + List.length a)%nat.
  rewrite <- skipn_skipn, skipn_mid. reflexivity.
Qed.

(** Taking an element out of a list. *)
Lemma take_out (l : list A) (k : nat) (x : A) :
  nth_error l k = Some x ->
  l = firstn k l ++ x :: skipn (S k) l
  /\ firstn 1 (skipn k l) = [x]
  /\ List.length (firstn k l) = k.
Proof.
  intros H. destruct (nth_error_split l k H) as [l1 [l2 [E Hlen]]].
  subst l k.
  rewrite firstn_mid, skipn_mid, skipn_S_mid. repeat split; reflexivity.
Qed.

(** The entries left when the one at [k] is taken out keep their order. *)
Lemma nth_error_without (l : list A) (k i : nat) :
  (k < List.length l)%nat ->
  nth_error (firstn k l ++ skipn (S k) l) i
  = if (i <? k)%nat then nth_error l i else nth_error l (S i).
Proof.
  intros Hk.
  assert (Hlen : List.length (firstn k l) = k)
    by (rewrite length_firstn; lia).
  destruct (i <? k)%nat eqn:E.
  - apply Nat.ltb_lt in E.
    rewrite nth_error_app1 by lia.
    rewrite nth_error_firstn.
    apply Nat.ltb_lt in E. rewrite E. reflexivity.
  - apply Nat.ltb_ge in E.
    rewrite nth_error_app2 by lia.
    rewrite nth_error_skipn, Hlen. f_equal. lia.
Qed.

(** Putting an element into a list, anywhere. *)
Lemma put_in (r : list A) (k : nat) (x : A) :
  Permutation (x :: r) (firstn k r ++ x :: skipn k r).
Proof.
  rewrite <- (firstn_skipn k r) at 1. apply Permutation_middle.
Qed.

Lemma put_in_nth (r : list A) (k : nat) (x : A) :
  (k <= List.length r)%nat ->
  nth_error (firstn k r ++ x :: skipn k r) k = Some x.
Proof.
  intros H. rewrite nth_error_app2; rewrite length_firstn, Nat.min_l by lia;
    [|lia].
  rewrite Nat.sub_diag. reflexivity.
Qed.

(** Taking out what was put in gives the list back. *)
Lemma take_out_put_in (r : list A) (k : nat) (x : A) :
  (k <= List.length r)%nat ->
  firstn k (firstn k r ++ x :: skipn k r)
  ++ skipn (S k) (firstn k r ++ x :: skipn k r) = r.
Proof.
  intros H.
  assert (Hlen : List.length (firstn k r) = k)
    by (rewrite length_firstn; lia).
  pose proof (firstn_mid (firstn k r) (skipn k r) x) as F.
  pose proof (skipn_S_mid (firstn k r) (skipn k r) x) as G.
  rewrite Hlen in F, G. rewrite F, G. apply firstn_skipn.
Qed.

(** Putting back at [k] what was taken out at [k] gives the list back. *)
Lemma put_in_take_out (l : list A) (k : nat) (x : A) :
  nth_error l k = Some x ->
  let r := firstn k l ++ skipn (S k) l in
  firstn k r ++ x :: skipn k r = l.
Proof.
  intros H r. destruct (nth_error_split l k H) as [l1 [l2 [E Hlen]]].
  subst l k. subst r.
  rewrite firstn_mid, skipn_S_mid.
  rewrite firstn_app, Nat.sub_diag, firstn_all, firstn_O, app_nil_r.
  rewrite skipn_app, Nat.sub_diag, skipn_all. reflexivity.
Qed.

End SpliceFacts.

Section ReorderFacts.

Variable evs : list TagEvent.
Variables fromIndex toIndex : Z.

Lemma removeEvent_in_range :
  (0 <= fromIndex < Z.of_nat (List.length evs))%Z ->
  removeEvent fromIndex evs
  = firstn (Z.to_nat fromIndex) evs ++ skipn (S (Z.to_nat fromIndex)) evs.
Proof.
  intros H. unfold removeEvent, splice_delete1. cbn [snd].
  rewrite splice_start_nonneg by lia.
  rewrite Nat.min_l by lia. reflexivity.
Qed.

Lemma removeEvent_length :
  (0 <= fromIndex < Z.of_nat (List.length evs))%Z ->
  List.length (removeEvent fromIndex evs) = (List.length evs - 1)%nat.
Proof.
  intros H. rewrite removeEvent_in_range by exact H.
  rewrite length_app, length_firstn, length_skipn. lia.
Qed.

Lemma reorderEvents_in_range (x : TagEvent) :
  (0 <= fromIndex < Z.of_nat (List.length evs))%Z ->
  (0 <= toIndex)%Z ->
  nth_error evs (Z.to_nat fromIndex) = Some x ->
  let rest := removeEvent fromIndex evs in
  let k := Nat.min (Z.to_nat toIndex) (List.length evs - 1) in
  reorderEvents fromIndex toIndex evs
  = map Some (firstn k rest ++ x :: skipn k rest).
Proof.
  intros Hfrom Hto Hx rest k.
  destruct (take_out evs _ x Hx) as [_ [Hone _]].
  unfold reorderEvents, splice_delete1.
  rewrite length_map, splice_start_nonneg by lia.
  rewrite Nat.min_l by lia.
  rewrite !skipn_map, !firstn_map, Hone, <- map_app.
  cbn [map]. unfold splice_insert.
  rewrite length_map, splice_start_nonneg by lia.
  rewrite <- removeEvent_in_range by exact Hfrom.
  rewrite removeEvent_length by exact Hfrom.
  fold rest. fold k.
  rewrite firstn_map, skipn_map, map_app. reflexivity.
Qed.

Lemma reorderEvents_out_of_range :
  (Z.of_nat (List.length evs) <= fromIndex)%Z ->
  reorderEvents fromIndex toIndex evs
  = splice_insert toIndex None (map Some evs).
Proof.
  intros H. unfold reorderEvents, splice_delete1.
  rewrite length_map, splice_start_nonneg by lia.
  rewrite Nat.min_r by lia.
  rewrite <- (length_map Some evs).
  rewrite skipn_all, firstn_all.
  rewrite skipn_all2 by lia.
  cbn [firstn]. rewrite app_nil_r. reflexivity.
Qed.

End ReorderFacts.

(** X29 (removeEventFromPlaylist, reorderPlaylistEvents): with a source
    index inside the event array and a target index that is not negative,
    removing drops exactly the entry at the source index and keeps the
    others in order; reordering gives an array of events (no [undefined])
    that is a permutation of the old one, with the moved entry at the target
    index (or last, when the target is past the end) and the others in
    their old relative order; moving an entry onto itself changes
    nothing. *)
Theorem X29_reorder_moves_one_entry
  (evs : list TagEvent) (fromIndex toIndex : Z)
  (Hfrom : (0 <= fromIndex < Z.of_nat (List.length evs))%Z)
  (Hto : (0 <= toIndex)%Z) :
  let k := Z.to_nat fromIndex in
  let k' := Nat.min (Z.to_nat toIndex) (List.length evs - 1) in
  exists x,
    nth_error evs k = Some x
    /\ (forall i, nth_error (removeEvent fromIndex evs) i
                  = if (i <? k)%nat then nth_error evs i
                    else nth_error evs (S i))
    /\ exists l,
         reorderEvents fromIndex toIndex evs = map Some l
         /\ Permutation evs l
         /\ nth_error l k' = Some x
         /\ removeEvent (Z.of_nat k') l = removeEvent fromIndex evs
         /\ (toIndex = fromIndex -> l = evs).
Proof.
  intros k k'.
  assert (Hk : (k < List.length evs)%nat) by (unfold k; lia).
  destruct (nth_error evs k) as [x|] eqn:Hx;
    [|apply nth_error_None in Hx; lia].
  exists x. split; [reflexivity|]. split.
  { intros i. rewrite removeEvent_in_range by exact Hfrom.
    apply nth_error_without. exact Hk. }
  pose proof (removeEvent_length evs fromIndex Hfrom) as Hlen.
  pose proof (removeEvent_in_range evs fromIndex Hfrom) as Hrest.
  set (rest := removeEvent fromIndex evs) in *.
  assert (Hk' : (k' <= List.length rest)%nat) by (unfold k'; lia).
  assert (Hfk : List.length (firstn k' rest) = k')
    by (rewrite length_firstn; lia).
  exists (firstn k' rest ++ x :: skipn k' rest).
  split; [exact (reorderEvents_in_range evs fromIndex toIndex x Hfrom Hto Hx)|].
  destruct (take_out evs k x Hx) as [Hevs [_ Hfirst]].
  split.
  { apply Permutation_trans with (x :: rest); [|apply put_in].
    rewrite Hevs at 1. rewrite Hrest. fold k.
    apply Permutation_sym, Permutation_middle. }
  split; [apply put_in_nth; exact Hk'|].
  split.
  { rewrite removeEvent_in_range.
    - rewrite Nat2Z.id. apply take_out_put_in. exact Hk'.
    - rewrite length_app, Hfk. cbn [List.length]. lia. }
  intros E. subst toIndex. fold k in k'.
  assert (Ek : k' = k) by (unfold k'; lia).
  rewrite Ek. rewrite Hrest. fold k.
  apply put_in_take_out. exact Hx.
Qed.

Lemma X29_reorder_moves_one_entry_witness :
  exists x,
    nth_error (tagEvents recordedSample) 0 = Some x
    /\ (forall i, nth_error (removeEvent 0 (tagEvents recordedSample)) i
                  = if (i <? 0)%nat then nth_error (tagEvents recordedSample) i
                    else nth_error (tagEvents recordedSample) (S i))
    /\ exists l,
         reorderEvents 0 1 (tagEvents recordedSample) = map Some l
         /\ Permutation (tagEvents recordedSample) l
         /\ nth_error l 1 = Some x
         /\ removeEvent 1 l = removeEvent 0 (tagEvents recordedSample)
         /\ (1%Z = 0%Z -> l = tagEvents recordedSample).
Proof.
  apply (X29_reorder_moves_one_entry (tagEvents recordedSample) 0 1).
  - vm_compute. split; [discriminate | reflexivity].
  - discriminate.
Defined.

(** X30 (removeEventFromPlaylist, reorderPlaylistEvents): with a source
    index at or past the end of the event array, removing leaves the array
    as it is, whereas reordering removes nothing and still inserts the
    [moved] value, which is [undefined]: the new array is one longer and
    holds an entry that is not an event. *)
Theorem X30_reorder_past_the_end
  (evs : list TagEvent) (fromIndex toIndex : Z)
  (Hfrom : (Z.of_nat (List.length evs) <= fromIndex)%Z) :
  removeEvent fromIndex evs = evs
  /\ List.length (reorderEvents fromIndex toIndex evs) = S (List.length evs)
  /\ In None (reorderEvents fromIndex toIndex evs)
  /\ forall e, In e evs -> In (Some e) (reorderEvents fromIndex toIndex evs).
Proof.
  split.
  { unfold removeEvent, splice_delete1. cbn [snd].
    rewrite splice_start_nonneg by lia.
    rewrite Nat.min_r by lia.
    rewrite firstn_all, skipn_all2 by lia. apply app_nil_r. }
  rewrite reorderEvents_out_of_range by exact Hfrom.
  unfold splice_insert.
  set (k := splice_start toIndex _).
  split.
  { pose proof (f_equal (@List.length _) (firstn_skipn k (map Some evs))) as L.
    rewrite length_app, length_map in L.
    rewrite length_app. cbn [List.length]. lia. }
  split.
  { apply in_or_app. right. left. reflexivity. }
  intros e He.
  assert (Hin : In (Some e) (firstn k (map Some evs) ++ skipn k (map Some evs))).
  { rewrite firstn_skipn. apply in_map. exact He. }
  apply in_app_or in Hin. apply in_or_app.
  destruct Hin as [Hin | Hin]; [left; exact Hin | right; right; exact Hin].
Qed.

Lemma X30_reorder_past_the_end_witness :
  removeEvent 2 (tagEvents recordedSample) = tagEvents recordedSample
  /\ List.length (reorderEvents 2 0 (tagEvents recordedSample))
     = S (List.length (tagEvents recordedSample))
  /\ In None (reorderEvents 2 0 (tagEvents recordedSample))
  /\ forall e, In e (tagEvents recordedSample) ->
       In (Some e) (reorderEvents 2 0 (tagEvents recordedSample)).
Proof.
  apply (X30_reorder_past_the_end (tagEvents recordedSample) 2 0).
  vm_compute. discriminate.
Defined.

(** ** Colour shifting *)

Section ColourFacts.

Lemma clamp_range (v lo hi : Q) : lo <= hi -> lo <= clamp v lo hi <= hi.
Proof.
  intros H. unfold clamp. split.
  - apply Q.le_max_l.
  - apply Q.max_lub; [exact H | apply Q.le_min_l].
Qed.

Lemma clamp_inside (v lo hi : Q) : lo <= v <= hi -> clamp v lo hi == v.
Proof.
  intros [H1 H2]. unfold clamp.
  rewrite (Q.min_r hi v) by exact H2. apply Q.max_r. exact H1.
Qed.

Lemma Math_round_integer (z : Z) : Math_round (inject_Z z) = z.
Proof.
  unfold Math_round.
  assert (L : (z <= Qfloor (inject_Z z + (1 # 2)))%Z).
  { rewrite <- (Qfloor_Z z) at 1. apply Qfloor_resp_le.
    rewrite <- (Qplus_0_r (inject_Z z)) at 1.
    apply Qplus_le_r. discriminate. }
  assert (U : (Qfloor (inject_Z z + (1 # 2)) < z + 1)%Z).
  { rewrite Zlt_Qlt.
    apply Qle_lt_trans with (inject_Z z + (1 # 2)); [apply Qfloor_le|].
    rewrite inject_Z_plus. apply Qplus_lt_r. reflexivity. }
  lia.
Qed.

(** Each channel of a shifted colour is a byte, whatever the amount; and
    shifting by nothing leaves a byte as it is. *)
Lemma shiftChannel_byte (amt c : Q) :
  0 <= shiftChannel amt c <= 255
  /\ (forall z : Z, (0 <= z <= 255)%Z ->
        shiftChannel 0 (inject_Z z) == inject_Z z).
Proof.
  split; [apply clamp_range; discriminate|].
  intros z Hz. unfold shiftChannel.
  assert (E : inject_Z z + 0 / 100 * 255 == inject_Z z) by field.
  assert (R : Math_round (inject_Z z + 0 / 100 * 255) = z).
  { rewrite <- (Math_round_integer z) at 2. unfold Math_round.
    apply Qfloor_comp. rewrite E. reflexivity. }
  rewrite R. apply clamp_inside.
  split.
  - change 0 with (inject_Z 0). rewrite <- Zle_Qle. lia.
  - change 255 with (inject_Z 255). rewrite <- Zle_Qle. lia.
Qed.

End ColourFacts.
